(** * food_tracker.ai: the food recognition engine

    A shallow embedding of [src/food_tracker/ai.py] (tokenizer, bag-of-words
    vectorizer, cosine scoring, ranking, catalog extension) and of
    [src/food_tracker/tracker.py] (the tracker that logs foods and reports
    totals), with the properties of them that the specification states and
    further properties that the code shows.

    Python values are modelled as follows.
    - [str] is a sequence of Unicode code points ([list N]).
    - [int] is [Z]; [float] is the class [PyFloat] of the operations that
      the code applies to floats, with the instance [binary64] (IEEE 754
      double precision, what CPython computes with).  The value of a finite
      binary64 number is a real number ([real_of]), and bounds on what the
      code computes are bounds on these values.
    - a [dict] is an association list in insertion order with distinct keys.
    - what CPython provides from outside the repository (the Unicode
      character database, [repr] of a float, the iteration order of a [set])
      is a class of parameters. *)

From Stdlib Require Import ZArith NArith List Bool Lia String Ascii.
From Stdlib Require Import Permutation Sorting.Sorted.
From Stdlib Require Import QArith Floats Reals Lra.
From Stdlib Require DecimalString.
Import ListNotations.
Close Scope Q_scope.

Set Implicit Arguments.

(** ** Strings *)

Definition char := N.
Definition str := list char.

(** An ASCII literal as a Python string. *)
Definition py (s : string) : str := map N_of_ascii (list_ascii_of_string s).

Definition str_eqb (a b : str) : bool :=
  if list_eq_dec N.eq_dec a b then true else false.

Definition in_range (lo hi c : N) : bool := ((lo <=? c) && (c <=? hi))%N.

Definition is_ascii (c : char) : bool := (c <? 128)%N.

(** [A-Z], [a-z], [0-9] *)
Definition ascii_alnum (c : char) : bool :=
  in_range 48 57 c || in_range 65 90 c || in_range 97 122 c.

(** The ASCII characters for which [str.isspace] holds: TAB, LF, VT, FF,
    CR, FS, GS, RS, US and the space. *)
Definition ascii_space (c : char) : bool :=
  in_range 9 13 c || in_range 28 31 c || (c =? 32)%N.

Definition ascii_lower (c : char) : char :=
  if in_range 65 90 c then (c + 32)%N else c.

(** The parts of the Unicode character database that [str.lower],
    [str.strip] and the regular expression class [\w] consult for code
    points outside ASCII. *)
Class UnicodeDB := {
  uni_isalnum : char -> bool;
  uni_isspace : char -> bool;
  uni_lower : str -> str
}.

Section Text.
Context {U : UnicodeDB}.

Definition isalnum (c : char) : bool :=
  if is_ascii c then ascii_alnum c else uni_isalnum c.

Definition isspace (c : char) : bool :=
  if is_ascii c then ascii_space c else uni_isspace c.

(** [str.lower]: CPython lowers an ASCII-only string byte by byte and runs
    the full Unicode case mapping otherwise. *)
Definition lower (s : str) : str :=
  if forallb is_ascii s then map ascii_lower s else uni_lower s.

Fixpoint lstrip (s : str) : str :=
  match s with
  | c :: s' => if isspace c then lstrip s' else s
  | [] => []
  end.

(** [str.strip()] *)
Definition strip (s : str) : str := rev (lstrip (rev (lstrip s))).

(** [\w] in a [str] pattern: alphanumeric or underscore. *)
Definition word_char (c : char) : bool := isalnum c || (c =? 95)%N.

(** The character class [[\w']]. *)
Definition token_char (c : char) : bool := word_char c || (c =? 39)%N.

(** [re.findall] for a pattern [[cls]+]: scan left to right, extend the
    current match while the class matches, emit it at the first character
    that does not match (or at the end of the text).  [cur] is the current
    match, reversed. *)
Definition emit (cur : str) : list str :=
  match cur with [] => [] | _ => [rev cur] end.

Fixpoint findall_from (cls : char -> bool) (cur : str) (s : str) : list str :=
  match s with
  | [] => emit cur
  | c :: s' =>
      if cls c then findall_from cls (c :: cur) s'
      else emit cur ++ findall_from cls [] s'
  end.

Definition findall (cls : char -> bool) (s : str) : list str :=
  findall_from cls [] s.

Definition _tokenize (text : str) : list str :=
  findall token_char (lower text).

End Text.

(** The rows U+0080..U+00FF (Latin-1 Supplement) of the character database;
    code points above U+00FF are outside this table. *)
Definition latin1_isalnum (c : char) : bool :=
  existsb (N.eqb c) [170; 178; 179; 181; 185; 186; 188; 189; 190]%N
  || in_range 192 214 c || in_range 216 246 c || in_range 248 255 c.

Definition latin1_lower (c : char) : char :=
  if in_range 65 90 c || in_range 192 214 c || in_range 216 222 c
  then (c + 32)%N else c.

#[export] Instance Latin1 : UnicodeDB := {
  uni_isalnum := latin1_isalnum;
  uni_isspace := fun c => (c =? 133)%N || (c =? 160)%N;
  uni_lower := map latin1_lower
}.

(** ** Numbers

    The arithmetic the module performs on [float]s, as an interface.
    [of_int] is the conversion CPython applies to an [int] operand of a
    float operation or of [math.sqrt]; [fis0 x] is [x == 0] (the one falsy
    float), [fnan x] is [x != x]. *)
Class PyFloat := {
  pyfloat : Type;
  of_int : Z -> pyfloat;
  fadd : pyfloat -> pyfloat -> pyfloat;
  fmul : pyfloat -> pyfloat -> pyfloat;
  fdiv : pyfloat -> pyfloat -> pyfloat;
  fsqrt : pyfloat -> pyfloat;
  flt : pyfloat -> pyfloat -> bool;
  fle : pyfloat -> pyfloat -> bool;
  fis0 : pyfloat -> bool;
  fnan : pyfloat -> bool;
  f1 : pyfloat;
  f099 : pyfloat
}.

(** The laws of comparison and of the constants that the proofs use.  They
    hold of IEEE 754 arithmetic (a NaN is neither below nor above
    anything). *)
Class PyFloatLaws (F : PyFloat) : Prop := {
  flt_asym : forall a b, flt a b = true -> flt b a = false;
  flt_negtrans : forall a b c,
    fnan a = false -> fnan b = false -> fnan c = false ->
    flt a b = false -> flt b c = false -> flt a c = false;
  fle_not_lt : forall a b,
    fnan a = false -> fnan b = false -> flt a b = false -> fle b a = true;
  f1_nonzero : fis0 f1 = false;
  f099_number : fnan f099 = false;
  fsqrt_zero : fis0 (fsqrt (of_int 0)) = true
}.

(** IEEE 754 binary64.  An [int] is converted by rounding to nearest, ties
    to even (CPython raises [OverflowError] instead of returning infinity
    for an [int] beyond the float range; token counts are far below it). *)
Definition b64_of_int (z : Z) : float :=
  SF2Prim (binary_normalize prec emax z 0 false).

#[export] Instance binary64 : PyFloat := {
  pyfloat := float;
  of_int := b64_of_int;
  fadd := PrimFloat.add;
  fmul := PrimFloat.mul;
  fdiv := PrimFloat.div;
  fsqrt := PrimFloat.sqrt;
  flt := PrimFloat.ltb;
  fle := PrimFloat.leb;
  fis0 := fun x => PrimFloat.eqb x 0%float;
  fnan := fun x => negb (PrimFloat.eqb x x);
  f1 := 1%float;
  f099 := 0x1.fae147ae147aep-1%float
}.

(** The value of a binary64 number as a rational, [None] for infinities
    and NaN. *)
Definition b64_value (x : float) : option Q :=
  match Prim2SF x with
  | S754_zero _ => Some 0%Q
  | S754_finite s m e =>
      Some (Qmult (inject_Z (if s then Z.neg m else Z.pos m))
                  (Qpower (inject_Z 2) e))
  | _ => None
  end.

(** ** Dictionaries *)

Definition dict (V : Type) := list (str * V).

Definition keys V (d : dict V) : list str := map fst d.
Definition values V (d : dict V) : list V := map snd d.

Fixpoint getitem V (d : dict V) (key : str) : option V :=
  match d with
  | [] => None
  | (k, v) :: d' => if str_eqb key k then Some v else getitem d' key
  end.

Definition contains_key V (d : dict V) (key : str) : bool :=
  existsb (str_eqb key) (keys d).

(** [counts[token] += 1], a new key going last. *)
Fixpoint incr (counts : dict Z) (token : str) : dict Z :=
  match counts with
  | [] => [(token, 1%Z)]
  | (k, n) :: rest =>
      if str_eqb token k then (k, (n + 1)%Z) :: rest
      else (k, n) :: incr rest token
  end.

(** [collections.Counter(tokens)] *)
Definition Counter (tokens : list str) : dict Z := fold_left incr tokens [].

(** [", ".join(parts)] *)
Fixpoint join (sep : str) (parts : list str) : str :=
  match parts with
  | [] => []
  | [p] => p
  | p :: rest => p ++ sep ++ join sep rest
  end.

(** [s.startswith(t)] *)
Fixpoint startswith (s t : str) : bool :=
  match t, s with
  | [], _ => true
  | _ :: _, [] => false
  | c :: t', d :: s' => (c =? d)%N && startswith s' t'
  end.

(** [t in s] for strings *)
Fixpoint contains (s t : str) : bool :=
  startswith s t ||
  match s with
  | [] => false
  | _ :: s' => contains s' t
  end.

(** [seq[:stop]] for an [int] stop: a negative stop counts from the end. *)
Definition slice_to A (l : list A) (stop : Z) : list A :=
  if (stop <? 0)%Z
  then firstn (Z.to_nat (Z.max 0 (Z.of_nat (List.length l) + stop))) l
  else firstn (Z.to_nat stop) l.

(** [str(n)] for an [int] *)
Definition int_str (n : Z) : str :=
  py (DecimalString.NilZero.string_of_int (Z.to_int n)).

(** ** Exceptions

    A call returns a value or raises. *)
Inductive exn :=
  | FileNotFoundError
  | KeyError (key : str).

Inductive result (A : Type) :=
  | Ok (a : A)
  | Raise (e : exn).
Arguments Ok {A} a.
Arguments Raise {A} e.

Definition bind A B (c : result A) (k : A -> result B) : result B :=
  match c with
  | Ok a => k a
  | Raise e => Raise e
  end.

Definition is_ok A (c : result A) : bool :=
  match c with
  | Ok _ => true
  | Raise _ => false
  end.

Notation "x <- c ;; k" := (bind c (fun x => k))
  (at level 61, c at next level, right associativity).

(** What CPython supplies for floats and sets: [repr] of a float (used by
    an f-string) and the order in which a set of strings is iterated, which
    is some arrangement of its elements. *)
Class PyRuntime (F : PyFloat) := {
  float_repr : pyfloat -> str;
  set_iter : list str -> list str;
  set_iter_perm : forall l, Permutation (set_iter l) l
}.

(** ** The vectorizer *)

Section Vectorizer.
Context {U : UnicodeDB} {F : PyFloat} {P : PyRuntime F}.

Definition TextVector := dict pyfloat.

(** [sum(value * value for value in vector.values())] over [int] counts *)
Definition sum_squares (vector : dict Z) : Z :=
  fold_left Z.add (map (fun value => value * value)%Z (values vector)) 0%Z.

(** [math.sqrt(...) or 1.0] *)
Definition norm_of (vector : dict Z) : pyfloat :=
  let root := fsqrt (of_int (sum_squares vector)) in
  if fis0 root then f1 else root.

Definition _normalise (vector : dict Z) : TextVector :=
  let norm := norm_of vector in
  map (fun '(key, value) => (key, fdiv (of_int value) norm)) vector.

(** [set(a) & set(b)], in the order the set is iterated *)
Definition common_keys (a b : TextVector) : list str :=
  set_iter (filter (contains_key b) (keys a)).

(** [d[key]] for a key of [d]; the default stands for the [KeyError], which
    no key of [common_keys] raises (lemma [common_keys_getitem]). *)
Definition item_of (d : TextVector) (key : str) : pyfloat :=
  match getitem d key with
  | Some value => value
  | None => of_int 0
  end.

(** [sum(a[key] * b[key] for key in common)]: [sum] starts from the [int]
    0 and adds from left to right.  (From CPython 3.12 on, [sum] carries a
    compensation term for floats; for up to two addends the result is the
    same.) *)
Definition _cosine_similarity (a b : TextVector) : pyfloat :=
  fold_left (fun acc key => fadd acc (fmul (item_of a key) (item_of b key)))
            (common_keys a b) (of_int 0).

(** [EmbeddingModel.encode] *)
Definition encode (texts : list str) : list TextVector :=
  map (fun text => _normalise (Counter (_tokenize text))) texts.

(** [encode([text])[0]] *)
Definition encode_one (text : str) : TextVector := hd [] (encode [text]).

(** ** Food items *)

(** A JSON or Python number. *)
Inductive number :=
  | Int (n : Z)
  | Float (x : pyfloat).

(** [float(x)] *)
Definition to_float (x : number) : pyfloat :=
  match x with
  | Int n => of_int n
  | Float x => x
  end.

(** [f"{x}"] *)
Definition number_str (x : number) : str :=
  match x with
  | Int n => int_str n
  | Float x => float_repr x
  end.

(** Modelled from the spec: the dataclass [FoodItem] of
    [food_tracker/models.py], which is not among the sources (section 3:
    name, serving size, calories, macronutrients by nutrient name, aliases
    in order). *)
Record FoodItem := {
  name : str;
  serving_size : str;
  calories : pyfloat;
  macronutrients : dict number;
  aliases : list str
}.

(** Modelled from the spec: the method [FoodItem.matches] of
    [food_tracker/models.py], which is not among the sources (section 4.2:
    "item matches text if, case-insensitively, the text equals or is
    contained within the item's name, or equals/is contained within any
    alias"). *)
Definition text_in (text field : str) : bool :=
  str_eqb (lower text) (lower field) || contains (lower field) (lower text).

Definition matches (item : FoodItem) (text : str) : bool :=
  text_in text (name item) || existsb (text_in text) (aliases item).

Record RecognisedFood := {
  item : FoodItem;
  confidence : pyfloat
}.

(** ** The recognition engine *)

Record FoodRecognitionEngine := {
  _reference_items : list FoodItem;
  _reference_vectors : list TextVector
}.

Definition _item_representation (item : FoodItem) : str :=
  let aliases := join (py ", ") (aliases item) in
  let macros :=
    join (py ", ")
         (map (fun '(nutrient, amount) =>
                 nutrient ++ py ":" ++ number_str amount)
              (macronutrients item)) in
  name item ++ py " serving " ++ serving_size item ++ py " " ++ aliases
            ++ py " " ++ macros.

(** A record of the reference dataset as [json.load] returns it, with the
    shape of section 6 of the specification: a field is [None] when the
    key is absent. *)
Record record := {
  rec_name : option str;
  rec_serving_size : option str;
  rec_calories : option number;
  rec_macronutrients : option (dict number);
  rec_aliases : option (list str)
}.

(** [record["name"]] *)
Definition subscript_name (r : record) : result str :=
  match rec_name r with
  | Some v => Ok v
  | None => Raise (KeyError (py "name"))
  end.

(** [record.get(key, default)] *)
Definition get A (field : option A) (default : A) : A :=
  match field with
  | Some v => v
  | None => default
  end.

Fixpoint _load_reference (data : list record) : result (list FoodItem) :=
  match data with
  | [] => Ok []
  | r :: data' =>
      n <- subscript_name r ;;
      let it := {| name := n;
                   serving_size := get (rec_serving_size r) (py "1 serving");
                   calories := to_float (get (rec_calories r) (Int 0));
                   macronutrients := get (rec_macronutrients r) [];
                   aliases := get (rec_aliases r) [] |} in
      items <- _load_reference data' ;;
      Ok (it :: items)
  end.

Definition path := str.

(** [Path(__file__).resolve().parent / "data" / "foods.json"] *)
Definition default_reference_path : path := py "data/foods.json".

(** [FoodRecognitionEngine.__init__]; [fs] is the file system: the parsed
    content of the file at a path, [None] where no file exists. *)
Definition __init__ (fs : path -> option (list record))
    (reference_path : option path) : result FoodRecognitionEngine :=
  let reference_path := get reference_path default_reference_path in
  match fs reference_path with
  | None => Raise FileNotFoundError
  | Some data =>
      items <- _load_reference data ;;
      Ok {| _reference_items := items;
            _reference_vectors := encode (map _item_representation items) |}
  end.

Definition known_items (self : FoodRecognitionEngine) : list FoodItem :=
  _reference_items self.

(** [max(a, b)]: the second argument replaces the first when it compares
    greater. *)
Definition max (a b : pyfloat) : pyfloat := if flt a b then b else a.

(** [scored.sort(key=lambda result: result.confidence, reverse=True)]:
    [list.sort] is stable, also with [reverse=True], and compares keys with
    [<] only.  With keys that [<] orders totally, a stable sort has one
    possible result, the one that inserting each element before the first
    element that is not greater than it produces. *)
Fixpoint insert_desc (r : RecognisedFood) (l : list RecognisedFood)
    : list RecognisedFood :=
  match l with
  | [] => [r]
  | x :: l' =>
      if flt (confidence r) (confidence x) then x :: insert_desc r l'
      else r :: l
  end.

Definition sort_desc (l : list RecognisedFood) : list RecognisedFood :=
  fold_right insert_desc [] l.

(** The confidence that the loop of [recognise] gives to one catalog
    entry. *)
Definition score (description : str) (description_vector : TextVector)
    (entry : FoodItem * TextVector) : RecognisedFood :=
  let '(item, vector) := entry in
  let confidence := _cosine_similarity description_vector vector in
  let confidence :=
    if matches item description then max confidence f099 else confidence in
  {| item := item; confidence := confidence |}.

(** The list [scored] of [recognise] before it is sorted. *)
Definition scored (self : FoodRecognitionEngine) (description : str)
    : list RecognisedFood :=
  let description_vector := encode_one description in
  map (score description description_vector)
      (combine (_reference_items self) (_reference_vectors self)).

Definition recognise (self : FoodRecognitionEngine) (description : str)
    (top_k : Z) : list RecognisedFood :=
  match strip description with
  | [] => []
  | _ => slice_to (sort_desc (scored self description)) top_k
  end.

Definition add_custom_item (self : FoodRecognitionEngine) (item : FoodItem)
    : FoodRecognitionEngine :=
  {| _reference_items := _reference_items self ++ [item];
     _reference_vectors :=
       _reference_vectors self ++ [encode_one (_item_representation item)] |}.

Definition scan_bulk (self : FoodRecognitionEngine)
    (descriptions : list str) : list (list RecognisedFood) :=
  map (fun description => recognise self description 3) descriptions.

(** The engines a program can hold: one that [__init__] returned, extended
    by any number of [add_custom_item] calls. *)
Inductive reachable : FoodRecognitionEngine -> Prop :=
  | reach_init fs reference_path self :
      __init__ fs reference_path = Ok self -> reachable self
  | reach_add self item :
      reachable self -> reachable (add_custom_item self item).

End Vectorizer.

(** ** The tracker ([food_tracker/tracker.py])

    [FoodTracker] holds a recogniser, a repository and the list of the
    entries logged.  The classes [FoodEntry] and [DailyLog], the function
    [group_entries_by_day] ([food_tracker/models.py]) and the class
    [FoodLogRepository] ([food_tracker/storage.py]) are not among the
    sources: the tracker is modelled over what it uses of them.  A
    [datetime.date] is its day number. *)

(** A call on an object from outside returns or raises; the object has a
    state after the call in both cases. *)
Inductive outcome (E A : Type) :=
  | Returned (a : A)
  | Raised (e : E).
Arguments Returned {E A} a.
Arguments Raised {E A} e.

(** [FoodEntry(food=..., quantity=..., timestamp=...)], the fields being
    those of the call in [log_food]. *)
Record FoodEntry `{F : PyFloat} (datetime : Type) := {
  food : FoodItem;
  quantity : pyfloat;
  timestamp : datetime
}.
Arguments food {F datetime} _.
Arguments quantity {F datetime} _.
Arguments timestamp {F datetime} _.

Class Collaborators (F : PyFloat) := {
  datetime : Type;
  (** the properties [FoodEntry.calories] and [FoodEntry.macronutrients] *)
  entry_calories : FoodEntry datetime -> pyfloat;
  entry_macronutrients : FoodEntry datetime -> dict number;
  (** the default of the field [FoodItem.aliases] *)
  default_aliases : list str;
  DailyLog : Type;
  (** [DailyLog(day=day)] *)
  new_daily_log : Z -> DailyLog;
  (** [group_entries_by_day], a dict from days to logs, whose keys are
      distinct *)
  group_entries_by_day : list (FoodEntry datetime) -> list (Z * DailyLog);
  group_days_distinct :
    forall entries, NoDup (map fst (group_entries_by_day entries));
  (** the repository: its state, the exceptions it raises, its two
      methods *)
  FoodLogRepository : Type;
  storage_error : Type;
  load_entries :
    FoodLogRepository ->
    FoodLogRepository * outcome storage_error (list (FoodEntry datetime));
  save_entries :
    FoodLogRepository -> list (FoodEntry datetime) ->
    FoodLogRepository * outcome storage_error unit
}.

Section Tracker.
Context {U : UnicodeDB} {F : PyFloat} {P : PyRuntime F}
        {C : Collaborators F}.

Record FoodTracker := {
  recogniser : FoodRecognitionEngine;
  repository : FoodLogRepository;
  _entries : list (FoodEntry datetime)
}.

(** The dataclass constructor with [__post_init__]: when no entry is
    given the entries are loaded from the repository. *)
Definition FoodTracker_init (recogniser : FoodRecognitionEngine)
    (repository : FoodLogRepository) (_entries : list (FoodEntry datetime))
    : outcome storage_error FoodTracker :=
  match _entries with
  | [] =>
      match load_entries repository with
      | (repository, Returned loaded) =>
          Returned {| recogniser := recogniser;
                      repository := repository;
                      _entries := [] ++ loaded |}
      | (_, Raised e) => Raised e
      end
  | _ :: _ =>
      Returned {| recogniser := recogniser;
                  repository := repository;
                  _entries := _entries |}
  end.

Definition scan_description (self : FoodTracker) (description : str)
    (top_k : Z) : list RecognisedFood :=
  recognise (recogniser self) description top_k.

(** [x or []] for an optional list: [None] and the empty list give the
    empty list. *)
Definition or_empty A (x : option (list A)) : list A :=
  match x with
  | Some (a :: l) => a :: l
  | _ => []
  end.

Definition register_custom_food (self : FoodTracker) (name serving_size : str)
    (calories : pyfloat) (macronutrients : option (dict number))
    (aliases : option (list str)) : FoodTracker * FoodItem :=
  let item := {| name := name;
                 serving_size := serving_size;
                 calories := calories;
                 macronutrients := or_empty macronutrients;
                 aliases := or_empty aliases |} in
  ({| recogniser := add_custom_item (recogniser self) item;
      repository := repository self;
      _entries := _entries self |}, item).

(** [log_food]; [utcnow] is what [datetime.utcnow()] returns at the call.
    The entry is appended before the list is saved, so it is in the list
    also when [save_entries] raises. *)
Definition log_food (self : FoodTracker) (food_item : FoodItem)
    (quantity : pyfloat) (timestamp : option datetime) (utcnow : datetime)
    : FoodTracker * outcome storage_error (FoodEntry datetime) :=
  let timestamp :=
    match timestamp with
    | None => utcnow
    | Some t => t
    end in
  let entry := {| food := food_item;
                  quantity := quantity;
                  timestamp := timestamp |} in
  let entries := _entries self ++ [entry] in
  let '(repository, saved) := save_entries (repository self) entries in
  let self := {| recogniser := recogniser self;
                 repository := repository;
                 _entries := entries |} in
  match saved with
  | Returned _ => (self, Returned entry)
  | Raised e => (self, Raised e)
  end.

Definition manual_food_entry (self : FoodTracker) (name serving_size : str)
    (calories quantity : pyfloat) (macronutrients : option (dict number))
    (utcnow : datetime)
    : FoodTracker * outcome storage_error (FoodEntry datetime) :=
  let item := {| name := name;
                 serving_size := serving_size;
                 calories := calories;
                 macronutrients := or_empty macronutrients;
                 aliases := default_aliases |} in
  log_food self item quantity None utcnow.

Definition entries (self : FoodTracker) : list (FoodEntry datetime) :=
  _entries self.

(** [grouped[day]] and [day in grouped] for a dict keyed by days *)
Fixpoint day_item (grouped : list (Z * DailyLog)) (day : Z)
    : option DailyLog :=
  match grouped with
  | [] => None
  | (d, log) :: rest => if (day =? d)%Z then Some log else day_item rest day
  end.

Definition entries_for_day (self : FoodTracker) (target_day : Z) : DailyLog :=
  let grouped := group_entries_by_day (_entries self) in
  match day_item grouped target_day with
  | None => new_daily_log target_day
  | Some log => log
  end.

(** [sorted(days)] *)
Fixpoint insert_day (day : Z) (days : list Z) : list Z :=
  match days with
  | [] => [day]
  | d :: rest =>
      if (day <? d)%Z then day :: days else d :: insert_day day rest
  end.

Definition sorted (days : list Z) : list Z := fold_right insert_day [] days.

(** [[grouped[day] for day in sorted(grouped)]]; a sorted key is a key,
    so the subscript finds it (lemma [sorted_day_item]), the default
    standing for the [KeyError]. *)
Definition daily_summary (self : FoodTracker) : list DailyLog :=
  let grouped := group_entries_by_day (_entries self) in
  map (fun day =>
         match day_item grouped day with
         | Some log => log
         | None => new_daily_log day
         end)
      (sorted (map fst grouped)).

(** [sum(entry.calories for entry in self._entries)] *)
Definition total_calories (self : FoodTracker) : pyfloat :=
  fold_left fadd (map entry_calories (_entries self)) (of_int 0).

(** [d[key] = value] *)
Fixpoint setitem V (d : dict V) (key : str) (value : V) : dict V :=
  match d with
  | [] => [(key, value)]
  | (k, v) :: rest =>
      if str_eqb key k then (k, value) :: rest
      else (k, v) :: setitem rest key value
  end.

(** [totals[nutrient] = totals.get(nutrient, 0.0) + amount] *)
Definition add_amount (totals : dict pyfloat) (nutrient : str)
    (amount : number) : dict pyfloat :=
  let current :=
    match getitem totals nutrient with
    | Some value => value
    | None => of_int 0
    end in
  setitem totals nutrient (fadd current (to_float amount)).

Definition total_macros (self : FoodTracker) : dict pyfloat :=
  fold_left
    (fun totals entry =>
       fold_left (fun totals '(nutrient, amount) =>
                    add_amount totals nutrient amount)
                 (entry_macronutrients entry) totals)
    (_entries self) [].

End Tracker.

(** ** A small installation

    A runtime whose sets iterate in insertion order, and a reference file
    of two records.  No item of the examples carries a float amount, so
    [float_repr] is never applied. *)
#[export] Instance demo_runtime : PyRuntime binary64 := {
  float_repr := fun _ => [];
  set_iter := fun l => l;
  set_iter_perm := fun l => Permutation_refl l
}.

(** A runtime that iterates a set in the reverse of insertion order. *)
Definition reversed_runtime : PyRuntime binary64 := {|
  float_repr := fun _ => [];
  set_iter := @rev str;
  set_iter_perm := fun l => Permutation_sym (Permutation_rev l)
|}.

Definition demo_data `{F : PyFloat} : list record :=
  [ {| rec_name := Some (py "Apple");
       rec_serving_size := None;
       rec_calories := Some (Int 95);
       rec_macronutrients := None;
       rec_aliases := Some [py "red apple"] |};
    {| rec_name := Some (py "Peanut Butter");
       rec_serving_size := Some (py "2 tbsp");
       rec_calories := Some (Int 190);
       rec_macronutrients := Some [(py "protein", Int 8)];
       rec_aliases := Some [py "PB"] |} ].

Definition demo_fs `{F : PyFloat} (p : path) : option (list record) :=
  if str_eqb p default_reference_path then Some demo_data else None.

Definition no_engine `{F : PyFloat} : FoodRecognitionEngine :=
  {| _reference_items := []; _reference_vectors := [] |}.

Definition demo_engine : FoodRecognitionEngine :=
  match __init__ demo_fs None with
  | Ok self => self
  | Raise _ => no_engine
  end.

(** A reference file with one item, whose representation has the token
    "a" once and the token "serving" five times. *)
Definition skewed_fs (p : path) : option (list record) :=
  Some [ {| rec_name := Some (py "a");
            rec_serving_size := Some (py "serving serving serving serving");
            rec_calories := None;
            rec_macronutrients := None;
            rec_aliases := None |} ].

Definition skewed_engine : FoodRecognitionEngine :=
  match __init__ skewed_fs None with
  | Ok self => self
  | Raise _ => no_engine
  end.

(** A reference file one of whose records has no "name" key. *)
Definition unnamed_fs (p : path) : option (list record) :=
  Some (demo_data ++
        [ {| rec_name := None;
             rec_serving_size := Some (py "1 slice");
             rec_calories := None;
             rec_macronutrients := None;
             rec_aliases := None |} ]).

(** The string "café": c, a, f and U+00E9. *)
Definition cafe : str := [99; 97; 102; 233]%N.

Definition oat_milk : FoodItem :=
  {| name := py "Oat Milk";
     serving_size := py "1 cup";
     calories := of_int 120;
     macronutrients := [];
     aliases := [py "oat drink"] |}.

(** Collaborators to run the tracker with: a timestamp is a number of
    seconds, a daily log is a day with its entries, the repository holds
    the list that was saved last and raises nothing. *)
Definition demo_day `{F : PyFloat} (entry : FoodEntry Z) : Z :=
  (timestamp entry / 86400)%Z.

#[export] Instance demo_collaborators : Collaborators binary64.
Proof.
  refine {|
    datetime := Z;
    entry_calories := fun entry => fmul (calories (food entry))
                                        (quantity entry);
    entry_macronutrients := fun entry => macronutrients (food entry);
    default_aliases := [];
    DailyLog := (Z * list (FoodEntry Z))%type;
    new_daily_log := fun day => (day, []);
    group_entries_by_day := fun entries =>
      map (fun day =>
             (day, (day, filter (fun entry => (demo_day entry =? day)%Z)
                                entries)))
          (nodup Z.eq_dec (map demo_day entries));
    group_days_distinct := _;
    FoodLogRepository := list (FoodEntry Z);
    storage_error := unit;
    load_entries := fun saved => (saved, Returned saved);
    save_entries := fun _ entries => (entries, Returned tt)
  |}.
  intros entries. rewrite map_map. simpl. rewrite map_id. apply NoDup_nodup.
Defined.

Definition demo_tracker : FoodTracker :=
  {| recogniser := demo_engine; repository := []; _entries := [] |}.

(** ** Vocabulary of the specification *)

(** [runs cls s ts]: [ts] lists, in order, the maximal non-empty runs of
    characters of class [cls] in [s]; every other character separates. *)
Definition at_separator (cls : char -> bool) (s : str) : Prop :=
  match s with
  | [] => True
  | c :: _ => cls c = false
  end.

Inductive runs (cls : char -> bool) : str -> list str -> Prop :=
  | runs_end : runs cls [] []
  | runs_sep c s ts :
      cls c = false -> runs cls s ts -> runs cls (c :: s) ts
  | runs_tok t s ts :
      t <> [] -> forallb cls t = true -> at_separator cls s ->
      runs cls s ts -> runs cls (t ++ s) (t :: ts).

(** The class [[a-z0-9_']] of the specification. *)
Definition spec_class (c : char) : bool :=
  in_range 97 122 c || in_range 48 57 c || (c =? 95)%N || (c =? 39)%N.

(** A confidence is a number when it is not a NaN. *)
Definition is_number `{F : PyFloat} (r : RecognisedFood) : Prop :=
  fnan (confidence r) = false.

(** [not_below x y]: the confidence of [x] is not less than that of [y];
    a list is in descending order when this holds of every element and
    every later one. *)
Definition not_below `{F : PyFloat} (x y : RecognisedFood) : Prop :=
  flt (confidence x) (confidence y) = false.

Definition descending `{F : PyFloat} (l : list RecognisedFood) : Prop :=
  StronglySorted not_below l.

(** Two results tie when neither confidence is less than the other. *)
Definition tie `{F : PyFloat} (x y : RecognisedFood) : bool :=
  negb (flt (confidence x) (confidence y))
  && negb (flt (confidence y) (confidence x)).

(** The cosine of the description vector and the vector of an item's
    representation. *)
Definition cosine_of `{UnicodeDB} `{P : PyRuntime} (description : str)
    (it : FoodItem) : pyfloat :=
  _cosine_similarity (encode_one description)
                     (encode_one (_item_representation it)).

(** The confidence the specification gives to an item: that cosine, raised
    to 0.99 when the item matches the description and the cosine is less. *)
Definition expected_confidence `{UnicodeDB} `{P : PyRuntime}
    (description : str) (it : FoodItem) : pyfloat :=
  let cosine := cosine_of description it in
  if matches it description
  then if flt cosine f099 then f099 else cosine
  else cosine.

Definition expected_result `{UnicodeDB} `{P : PyRuntime}
    (description : str) (it : FoodItem) : RecognisedFood :=
  {| item := it; confidence := expected_confidence description it |}.

(** The number of occurrences that a counter records for a token. *)
Definition count_of (counts : dict Z) (token : str) : Z :=
  match getitem counts token with
  | Some n => n
  | None => 0%Z
  end.

(** Sums of reals. *)
Definition Rsum (l : list R) : R := fold_right Rplus 0%R l.

(** ** The real value of a binary64 number

    [F2R m e] is the real number m * 2^e; [real_of x] is the value of a
    finite binary64 number (0 for an infinity or a NaN, which [is_finite]
    tells apart). *)
Definition pw2 (e : Z) : R := powerRZ 2 e.

Definition F2R (m e : Z) : R := (IZR m * pw2 e)%R.

Definition is_finite (x : float) : bool :=
  match Prim2SF x with
  | S754_zero _ | S754_finite _ _ _ => true
  | _ => false
  end.

Definition real_of (x : float) : R :=
  match Prim2SF x with
  | S754_finite s m e => F2R (if s then Zneg m else Zpos m) e
  | _ => 0%R
  end.

(** [normal x m e]: [x] is the positive normal number m * 2^e, with a
    mantissa of 53 bits. *)
Definition normal (x : float) (m e : Z) : Prop :=
  Prim2SF x = S754_finite false (Z.to_pos m) e
  /\ (2 ^ 52 <= m < 2 ^ 53)%Z /\ (-1074 <= e <= 971)%Z.

(** The relative error of one rounding of a normal number is at most
    [eps] = 2^-52 (rounding to nearest is within half of that; the bound
    used here holds for either neighbour).  [close r v]: [r] and [v] are
    within the factor 1 + [eps] of each other. *)
Definition eps : R := pw2 (-52).

Definition close (r v : R) : Prop :=
  (r <= v * (1 + eps) /\ v <= r * (1 + eps))%R.

(** [sums_to s X k]: the binary64 number [s] is +0.0 and [X] is 0, or [s]
    is a normal number within the factor (1 + [eps])^k of the real [X]. *)
Definition sums_to (s : float) (X : R) (k : nat) : Prop :=
  (Prim2SF s = S754_zero false /\ X = 0%R)
  \/ exists m e, normal s m e
       /\ (F2R m e <= X * (1 + eps) ^ k)%R /\ (X <= F2R m e * (1 + eps) ^ k)%R.

(** [weight_of S c w]: [w] is a normal number whose square is c^2 / S up
    to the factor (1 + [eps])^7. *)
Definition weight_of (S c : Z) (w : float) : Prop :=
  exists m e, normal w m e /\ (-148 <= e <= 12)%Z
    /\ (IZR S * (F2R m e * F2R m e) <= IZR (c * c) * (1 + eps) ^ 7)%R
    /\ (IZR (c * c) <= IZR S * (F2R m e * F2R m e) * (1 + eps) ^ 7)%R.

(** The square of the value of a weight. *)
Definition sq_real (w : float) : R := (real_of w * real_of w)%R.

(** A binary64 vector of distinct keys and normal weights whose squares
    sum to at most (1 + [eps])^7. *)
Definition unit_vector (v : dict float) : Prop :=
  NoDup (keys v)
  /\ Forall (fun kv => exists m e, normal (snd kv) m e /\ (-148 <= e <= 12)%Z) v
  /\ (Rsum (map sq_real (values v)) <= (1 + eps) ^ 7)%R.

(** The dot product of two binary64 vectors, computed on the reals. *)
Definition dot (a b : dict float) : R :=
  Rsum (map (fun k => (real_of (@item_of binary64 a k)
                       * real_of (@item_of binary64 b k))%R)
            (filter (contains_key b) (keys a))).

(** The vector that the catalog is to hold for an item, and the alignment
    of the two lists of an engine. *)
Definition vector_of `{UnicodeDB} `{P : PyRuntime} (it : FoodItem)
    : TextVector :=
  encode_one (_item_representation it).

Definition aligned `{UnicodeDB} `{P : PyRuntime}
    (self : FoodRecognitionEngine) : Prop :=
  _reference_vectors self = map vector_of (_reference_items self).

Definition str_dec : forall a b : str, {a = b} + {a <> b} :=
  list_eq_dec N.eq_dec.

(** A counter has distinct keys and counts of at least one. *)
Definition well_formed (counts : dict Z) : Prop :=
  NoDup (keys counts) /\ Forall (fun kv => (1 <= snd kv)%Z) counts.

(** The weight that binary64 gives to each token of "a b c": 1 divided by
    the rounded square root of 3. *)
Definition third_root : Q := 5200308914369309 # 9007199254740992.

(** [loaded r it]: the item [it] is what a record [r] that has a name
    loads to, every absent key taking its default. *)
Definition loaded `{F : PyFloat} (r : record) (it : FoodItem) : Prop :=
  rec_name r = Some (name it)
  /\ serving_size it =
     match rec_serving_size r with Some s => s | None => py "1 serving" end
  /\ calories it =
     match rec_calories r with Some c => to_float c | None => of_int 0 end
  /\ macronutrients it =
     match rec_macronutrients r with Some m => m | None => [] end
  /\ aliases it =
     match rec_aliases r with Some a => a | None => [] end.

(** The nutrient amounts of a list of entries, in the order in which
    [total_macros] adds them. *)
Definition amounts `{C : Collaborators} (entries : list (FoodEntry datetime))
    : list (str * number) :=
  flat_map entry_macronutrients entries.

(** The entry that a [log_food] call makes, and the tracker after a
    sequence of [log_food] calls, whatever each of them returned or
    raised; a call is the food, the quantity, the timestamp given and the
    time of the call. *)
Section Logs.
Context {U : UnicodeDB} {F : PyFloat} {P : PyRuntime F}
        {C : Collaborators F}.

Definition call : Type :=
  (FoodItem * pyfloat * option datetime * datetime)%type.

Definition entry_of (c : call) : FoodEntry datetime :=
  let '(food_item, amount, time, utcnow) := c in
  {| food := food_item;
     quantity := amount;
     timestamp := match time with Some t => t | None => utcnow end |}.

Definition log_call (self : FoodTracker) (c : call) : FoodTracker :=
  let '(food_item, amount, time, utcnow) := c in
  fst (log_food self food_item amount time utcnow).

Definition log_all (self : FoodTracker) (calls : list call) : FoodTracker :=
  fold_left log_call calls self.

End Logs.

(** * Properties *)

(** ** The tokenizer *)

Section FindAll.
Variable cls : char -> bool.

Lemma findall_from_run t : forall cur s,
  forallb cls t = true ->
  findall_from cls cur (t ++ s) = findall_from cls (rev t ++ cur) s.
Proof.
  induction t as [|c t IH]; intros cur s H; simpl in *; [reflexivity|].
  apply andb_true_iff in H as [Hc Ht]. rewrite Hc, IH by assumption.
  now rewrite <- app_assoc.
Qed.

Lemma findall_from_separator cur s :
  at_separator cls s ->
  findall_from cls cur s = emit cur ++ findall cls s.
Proof.
  destruct s as [|c s]; simpl; intros H.
  - now rewrite app_nil_r.
  - unfold findall; simpl. now rewrite H.
Qed.

Lemma findall_token t s :
  t <> [] -> forallb cls t = true -> at_separator cls s ->
  findall cls (t ++ s) = t :: findall cls s.
Proof.
  intros Hne Ht Hs. unfold findall at 1.
  rewrite findall_from_run, findall_from_separator, app_nil_r by assumption.
  unfold emit. rewrite rev_involutive.
  destruct (rev t) eqn:E; [|reflexivity].
  apply (f_equal (@rev _)) in E. rewrite rev_involutive in E. contradiction.
Qed.

Lemma runs_findall s ts : runs cls s ts -> ts = findall cls s.
Proof.
  induction 1 as [|c s ts Hc _ IH|t s ts Hne Ht Hs _ IH].
  - reflexivity.
  - unfold findall; simpl. now rewrite Hc.
  - rewrite findall_token by assumption. now f_equal.
Qed.

Lemma findall_from_runs s : forall cur,
  exists t rest ts,
    s = t ++ rest /\ forallb cls t = true /\ at_separator cls rest /\
    runs cls rest ts /\ findall_from cls cur s = emit (rev t ++ cur) ++ ts.
Proof.
  induction s as [|c s IH]; intros cur.
  - exists [], [], []. simpl. rewrite app_nil_r.
    repeat split; constructor.
  - simpl. destruct (cls c) eqn:Hc.
    + destruct (IH (c :: cur)) as (t & rest & ts & -> & Ht & Hs & Hr & E).
      exists (c :: t), rest, ts. simpl. rewrite Hc, Ht, E, <- app_assoc.
      repeat split; assumption.
    + destruct (IH []) as (t & rest & ts & -> & Ht & Hs & Hr & E).
      exists [], (c :: t ++ rest), (findall_from cls [] (t ++ rest)).
      simpl. repeat split; try assumption.
      apply runs_sep; [assumption|]. rewrite E, app_nil_r.
      destruct t as [|d t]; [exact Hr|].
      unfold emit. rewrite rev_involutive.
      destruct (rev (d :: t)) eqn:R.
      * apply (f_equal (@rev _)) in R. rewrite rev_involutive in R.
        discriminate.
      * apply runs_tok; try assumption. discriminate.
Qed.

Lemma findall_runs s : runs cls s (findall cls s).
Proof.
  destruct (findall_from_runs s []) as (t & rest & ts & -> & Ht & Hs & Hr & E).
  unfold findall. rewrite E, app_nil_r.
  destruct t as [|d t]; [exact Hr|].
  unfold emit. rewrite rev_involutive.
  destruct (rev (d :: t)) eqn:R.
  - apply (f_equal (@rev _)) in R. rewrite rev_involutive in R. discriminate.
  - apply runs_tok; try assumption. discriminate.
Qed.

Lemma runs_iff s ts : runs cls s ts <-> ts = findall cls s.
Proof.
  split; [apply runs_findall|]. intros ->. apply findall_runs.
Qed.

Lemma runs_tokens s ts :
  runs cls s ts -> Forall (fun t => t <> [] /\ forallb cls t = true) ts.
Proof. induction 1; auto. Qed.

End FindAll.

Lemma findall_from_ext cls cls' s : forall cur,
  Forall (fun c => cls c = cls' c) s ->
  findall_from cls cur s = findall_from cls' cur s.
Proof.
  induction s as [|c s IH]; intros cur H; [reflexivity|].
  inversion H as [|? ? Hc Hs]; subst. simpl.
  rewrite <- Hc, !IH by assumption. reflexivity.
Qed.

Lemma in_range_spec lo hi c : in_range lo hi c = true <-> (lo <= c <= hi)%N.
Proof.
  unfold in_range. rewrite andb_true_iff, !N.leb_le. reflexivity.
Qed.

Lemma in_range_false lo hi c :
  in_range lo hi c = false <-> (c < lo \/ hi < c)%N.
Proof.
  unfold in_range. rewrite andb_false_iff, !N.leb_gt. reflexivity.
Qed.

Ltac range_cases c :=
  repeat match goal with
  | |- context [in_range ?lo ?hi c] =>
      let E := fresh "E" in
      destruct (in_range lo hi c) eqn:E;
      [apply in_range_spec in E | apply in_range_false in E]
  | |- context [(c =? ?n)%N] =>
      let E := fresh "E" in
      destruct (N.eqb_spec c n) as [E|E]
  | |- context [(c + 32 =? ?n)%N] =>
      let E := fresh "E" in
      destruct (N.eqb_spec (c + 32) n) as [E|E]
  end.

Lemma ascii_lower_class `{UnicodeDB} c :
  is_ascii c = true -> token_char (ascii_lower c) = spec_class (ascii_lower c).
Proof.
  unfold is_ascii. intros Hc%N.ltb_lt.
  unfold token_char, word_char, isalnum, is_ascii, spec_class, ascii_alnum,
    ascii_lower.
  destruct (in_range 65 90 c) eqn:Hup.
  - apply in_range_spec in Hup.
    replace (c + 32 <? 128)%N with true by (symmetry; apply N.ltb_lt; lia).
    range_cases (c + 32)%N; simpl; try reflexivity; lia.
  - apply in_range_false in Hup.
    replace (c <? 128)%N with true by (symmetry; apply N.ltb_lt; lia).
    range_cases c; simpl; try reflexivity; lia.
Qed.

Lemma tokenize_ascii `{UnicodeDB} text :
  forallb is_ascii text = true ->
  _tokenize text = findall spec_class (map ascii_lower text).
Proof.
  intros Ha. unfold _tokenize, lower, findall. rewrite Ha.
  apply findall_from_ext. apply Forall_forall. intros c Hc.
  apply in_map_iff in Hc as (d & <- & Hd).
  apply ascii_lower_class. rewrite forallb_forall in Ha. now apply Ha.
Qed.

(** C2, as stated, fails: with U+00E9 (a letter for [\w]) the text "café"
    is one token, whereas the runs of [[a-z0-9_']] in it are the single
    run "caf". *)
Lemma tokenize_non_ascii_letter :
  _tokenize cafe = [cafe] /\ ~ runs spec_class (lower cafe) (_tokenize cafe).
Proof.
  split; [reflexivity|].
  intros Hr%runs_findall. vm_compute in Hr. discriminate.
Qed.

(** C2 (amended): tokenization lowercases the text and returns exactly the
    maximal non-empty runs, in order, of characters of the class [[\w']],
    where [\w] is a character that is alphanumeric for Unicode or the
    underscore; every other character is a separator.  On an ASCII text
    that class is [[a-z0-9_']].  The empty string yields no token and
    "Banana, Ripe!" yields "banana", "ripe". *)
Theorem tokenize_maximal_runs (U : UnicodeDB) (text : str) :
  (forall ts, runs token_char (lower text) ts <-> ts = _tokenize text)
  /\ Forall (fun t => t <> [] /\ forallb token_char t = true) (_tokenize text)
  /\ (forallb is_ascii text = true ->
      lower text = map ascii_lower text /\
      forall ts, runs spec_class (lower text) ts <-> ts = _tokenize text)
  /\ _tokenize [] = []
  /\ _tokenize (py "Banana, Ripe!") = [py "banana"; py "ripe"].
Proof.
  split; [|split; [|split; [|split]]].
  - intros ts. apply runs_iff.
  - apply runs_tokens with (s := lower text). apply findall_runs.
  - intros Ha. assert (L : lower text = map ascii_lower text)
      by (unfold lower; now rewrite Ha).
    split; [exact L|]. intros ts.
    rewrite (tokenize_ascii _ Ha), L. apply runs_iff.
  - reflexivity.
  - reflexivity.
Qed.

Lemma tokenize_maximal_runs_witness :
  runs spec_class (lower (py "Banana, Ripe!")) [py "banana"; py "ripe"].
Proof.
  destruct (tokenize_maximal_runs Latin1 (py "Banana, Ripe!"))
    as (_ & _ & H & _).
  destruct (H eq_refl) as [_ H']. apply H'. reflexivity.
Defined.

(** ** Comparisons *)

Ltac sf_compare :=
  repeat match goal with
  | |- context [Pos.compare_cont Eq ?m ?n] =>
      change (Pos.compare_cont Eq m n) with (Pos.compare m n);
      destruct (Pos.compare_spec m n)
  | |- context [Z.compare ?e ?f] => destruct (Z.compare_spec e f)
  end.

Lemma SFltb_asym x y : SFltb x y = true -> SFltb y x = false.
Proof.
  unfold SFltb.
  destruct x as [[]|[]| |[] m1 e1], y as [[]|[]| |[] m2 e2]; simpl;
    try reflexivity; try discriminate;
    sf_compare; simpl; try reflexivity; try discriminate; lia.
Qed.

Lemma SFltb_negtrans x y z :
  x <> S754_nan -> y <> S754_nan -> z <> S754_nan ->
  SFltb x y = false -> SFltb y z = false -> SFltb x z = false.
Proof.
  unfold SFltb. intros Hx Hy Hz.
  destruct x as [[]|[]| |[] m1 e1]; try contradiction;
  destruct y as [[]|[]| |[] m2 e2]; try contradiction;
  destruct z as [[]|[]| |[] m3 e3]; try contradiction; simpl;
    try reflexivity; try discriminate;
    sf_compare; simpl; try reflexivity; try discriminate; lia.
Qed.

Lemma SFleb_not_ltb x y :
  x <> S754_nan -> y <> S754_nan -> SFltb x y = false -> SFleb y x = true.
Proof.
  unfold SFltb, SFleb. intros Hx Hy.
  destruct x as [[]|[]| |[] m1 e1]; try contradiction;
  destruct y as [[]|[]| |[] m2 e2]; try contradiction; simpl;
    try reflexivity; try discriminate;
    sf_compare; simpl; try reflexivity; try discriminate; lia.
Qed.

Lemma b64_nan x : negb (PrimFloat.eqb x x) = false -> Prim2SF x <> S754_nan.
Proof.
  rewrite eqb_spec. intros H E. rewrite E in H. discriminate.
Qed.

#[export] Instance binary64_laws : PyFloatLaws binary64.
Proof.
  split; simpl.
  - intros a b. rewrite !ltb_spec. apply SFltb_asym.
  - intros a b c Ha%b64_nan Hb%b64_nan Hc%b64_nan. rewrite !ltb_spec.
    now apply SFltb_negtrans.
  - intros a b Ha%b64_nan Hb%b64_nan. rewrite ltb_spec, leb_spec.
    now apply SFleb_not_ltb.
  - reflexivity.
  - reflexivity.
  - vm_compute. reflexivity.
Qed.

(** ** Blank descriptions *)

Section Blank.
Context {U : UnicodeDB}.

Lemma lstrip_blank s : forallb isspace s = true -> lstrip s = [].
Proof.
  induction s as [|c s IH]; simpl; [reflexivity|].
  intros [Hc Hs]%andb_true_iff. rewrite Hc. auto.
Qed.

Lemma lstrip_nil s : lstrip s = [] -> forallb isspace s = true.
Proof.
  induction s as [|c s IH]; simpl; [reflexivity|].
  destruct (isspace c); [auto|discriminate].
Qed.

Lemma lstrip_suffix s : exists pre, s = pre ++ lstrip s.
Proof.
  induction s as [|c s [pre IH]]; simpl.
  - now exists [].
  - destruct (isspace c).
    + exists (c :: pre). simpl. now f_equal.
    + now exists [].
Qed.

Lemma lstrip_head s c s' : lstrip s = c :: s' -> isspace c = false.
Proof.
  induction s as [|d s IH]; simpl; [discriminate|].
  destruct (isspace d) eqn:E; [auto|]. intros [= <- <-]. exact E.
Qed.

Lemma forallb_rev A (p : A -> bool) l : forallb p (rev l) = forallb p l.
Proof.
  induction l as [|x l IH]; simpl; [reflexivity|].
  rewrite forallb_app, IH. simpl. rewrite andb_true_r. apply andb_comm.
Qed.

(** [description.strip()] is empty exactly when every character of the
    description is whitespace. *)
Lemma strip_nil_iff s : strip s = [] <-> forallb isspace s = true.
Proof.
  unfold strip. split.
  - intros H. apply (f_equal (@rev _)) in H. rewrite rev_involutive in H.
    simpl in H. apply lstrip_nil in H. rewrite forallb_rev in H.
    destruct (lstrip s) as [|c s'] eqn:E; [now apply lstrip_nil|].
    apply lstrip_head in E. simpl in H. rewrite E in H. discriminate.
  - intros H. now rewrite (lstrip_blank _ H).
Qed.

End Blank.

Section Engine.
Context {U : UnicodeDB} {F : PyFloat} {P : PyRuntime F}.

Lemma recognise_strip_nil self description top_k :
  strip description = [] -> recognise self description top_k = [].
Proof. intros H. unfold recognise. now rewrite H. Qed.

(** C7: for a description that is empty or only whitespace, and every
    [top_k], [recognise] returns the empty list: it takes the first branch,
    before any encoding or scoring, and raises nothing. *)
Theorem recognise_blank (self : FoodRecognitionEngine) (description : str)
    (top_k : Z) :
  forallb isspace description = true ->
  recognise self description top_k = [].
Proof.
  intros H. apply recognise_strip_nil. now apply strip_nil_iff.
Qed.

Lemma recognise_not_blank self description top_k :
  forallb isspace description = false ->
  recognise self description top_k =
  slice_to (sort_desc (scored self description)) top_k.
Proof.
  intros H. unfold recognise.
  destruct (strip description) eqn:E; [|reflexivity].
  apply strip_nil_iff in E. congruence.
Qed.

(** *** The catalog *)

Lemma encode_map texts : encode texts = map encode_one texts.
Proof. reflexivity. Qed.

Lemma reachable_aligned self : reachable self -> aligned self.
Proof.
  induction 1 as [fs rp self H|self it _ IH]; unfold aligned in *.
  - unfold __init__ in H.
    destruct (fs _); [|discriminate].
    destruct (_load_reference l); [|discriminate].
    injection H as <-. simpl. now rewrite encode_map, map_map.
  - simpl. now rewrite IH, map_app.
Qed.

(** C8: in every reachable engine the item list and the vector list have
    the same length and the vector at an index is the encoding of the
    representation of the item at that index; [add_custom_item] appends
    exactly one item and, with it, its vector. *)
Theorem catalog_aligned (self : FoodRecognitionEngine) :
  reachable self ->
  List.length (_reference_items self) = List.length (_reference_vectors self)
  /\ (forall i, nth_error (_reference_vectors self) i =
        option_map (fun it => encode_one (_item_representation it))
                   (nth_error (_reference_items self) i))
  /\ (forall it,
        _reference_items (add_custom_item self it) =
          _reference_items self ++ [it]
        /\ _reference_vectors (add_custom_item self it) =
          _reference_vectors self ++ [encode_one (_item_representation it)]
        /\ reachable (add_custom_item self it)).
Proof.
  intros H. pose proof (reachable_aligned H) as A. unfold aligned in A.
  split; [|split].
  - now rewrite A, length_map.
  - intros i. rewrite A. apply nth_error_map.
  - intros it. repeat split. now apply reach_add.
Qed.

(** *** Loading *)

Lemma load_reference_names data items :
  _load_reference data = Ok items ->
  map rec_name data = map (fun it => Some (name it)) items.
Proof.
  revert items. induction data as [|r data IH]; simpl; intros items H.
  - now injection H as <-.
  - unfold subscript_name in H. destruct (rec_name r) eqn:E; [|discriminate].
    simpl in H. destruct (_load_reference data); [|discriminate].
    simpl in H. injection H as <-. simpl. now rewrite (IH _ eq_refl).
Qed.

Lemma load_reference_missing data :
  Exists (fun r => rec_name r = None) data ->
  _load_reference data = Raise (KeyError (py "name")).
Proof.
  induction 1 as [r data H|r data _ IH]; simpl; unfold subscript_name.
  - now rewrite H.
  - destruct (rec_name r); [|reflexivity]. simpl. now rewrite IH.
Qed.

(** C10: when a record of the reference dataset has no "name" key, the
    construction of the engine fails with the [KeyError] that loading
    raises, so an engine that was constructed has, item by item, the names
    that its records carry; a record that has only a name loads with the
    defaults of the other fields. *)
Theorem init_missing_name (fs : path -> option (list record))
    (reference_path : option path) (data : list record) :
  fs (get reference_path default_reference_path) = Some data ->
  (Exists (fun r => rec_name r = None) data ->
     __init__ fs reference_path = Raise (KeyError (py "name")))
  /\ (forall self, __init__ fs reference_path = Ok self ->
        map rec_name data =
        map (fun it => Some (name it)) (_reference_items self))
  /\ (forall n,
        _load_reference
          [ {| rec_name := Some n; rec_serving_size := None;
               rec_calories := None; rec_macronutrients := None;
               rec_aliases := None |} ] =
        Ok [ {| name := n; serving_size := py "1 serving";
                calories := of_int 0; macronutrients := [];
                aliases := [] |} ]).
Proof.
  intros Hfs. unfold __init__. rewrite Hfs. split; [|split].
  - intros H. now rewrite (load_reference_missing H).
  - intros self H. destruct (_load_reference data) eqn:E; [|discriminate].
    simpl in H. injection H as <-. simpl. now apply load_reference_names.
  - reflexivity.
Qed.

End Engine.

(** ** Slices *)

Lemma slice_to_nonneg A (l : list A) k :
  (0 <= k)%Z -> slice_to l k = firstn (Z.to_nat k) l.
Proof.
  intros H. unfold slice_to.
  destruct (Z.ltb_spec k 0); [lia|reflexivity].
Qed.

Lemma slice_to_prefix A (l : list A) k : exists rest, l = slice_to l k ++ rest.
Proof.
  unfold slice_to. destruct (k <? 0)%Z;
    eexists; symmetry; apply firstn_skipn.
Qed.

Lemma StronglySorted_prefix A (R : A -> A -> Prop) l rest :
  StronglySorted R (l ++ rest) -> StronglySorted R l.
Proof.
  induction l as [|x l IH]; simpl; intros H; [constructor|].
  inversion H as [|? ? Hs Hf]; subst. constructor; [auto|].
  rewrite Forall_app in Hf. tauto.
Qed.

Lemma Forall_perm A (P : A -> Prop) l l' :
  Permutation l l' -> Forall P l' -> Forall P l.
Proof. intros H. apply Permutation_Forall. now symmetry. Qed.

(** ** Ranking *)

Section Ranking.
Context {F : PyFloat}.

Lemma insert_desc_perm r l : Permutation (insert_desc r l) (r :: l).
Proof.
  induction l as [|x l IH]; simpl; [reflexivity|].
  destruct (flt (confidence r) (confidence x)); [|reflexivity].
  rewrite IH. apply perm_swap.
Qed.

Lemma sort_desc_perm l : Permutation (sort_desc l) l.
Proof.
  induction l as [|x l IH]; simpl; [reflexivity|].
  rewrite insert_desc_perm. now constructor.
Qed.

Lemma sort_desc_length l : List.length (sort_desc l) = List.length l.
Proof. apply Permutation_length, sort_desc_perm. Qed.

Context {L : PyFloatLaws F}.

Lemma flt_irrefl a : flt a a = false.
Proof.
  destruct (flt a a) eqn:E; [|reflexivity].
  pose proof (flt_asym _ _ E). congruence.
Qed.

Lemma insert_desc_descending r l :
  is_number r -> Forall is_number l ->
  descending l -> descending (insert_desc r l).
Proof.
  unfold descending. intros Hr Hl Hs.
  induction Hs as [|x l Hs IH Hx]; simpl.
  - repeat constructor.
  - inversion Hl as [|? ? Nx Nl]; subst.
    destruct (flt (confidence r) (confidence x)) eqn:E.
    + constructor; [auto|].
      apply (Forall_perm (insert_desc_perm r l)).
      constructor; [|exact Hx]. now apply flt_asym.
    + constructor; [now constructor|].
      constructor; [exact E|].
      rewrite Forall_forall in Hx, Nl |- *. intros y Hy.
      apply flt_negtrans with (b := confidence x); auto.
      * now apply Nl.
      * now apply Hx.
Qed.

Lemma sort_desc_descending l :
  Forall is_number l -> descending (sort_desc l).
Proof.
  induction 1 as [|x l Hx Hl IH]; simpl; [constructor|].
  apply insert_desc_descending; auto.
  now apply (Forall_perm (sort_desc_perm l)).
Qed.

(** A result cannot tie with two results of which one is below the
    other. *)
Lemma tie_separates x r y :
  is_number x -> is_number r -> is_number y ->
  flt (confidence r) (confidence y) = true ->
  tie x r = true -> tie x y = false.
Proof.
  unfold tie. intros Nx Nr Ny Hlt [H1 H2]%andb_true_iff.
  apply negb_true_iff in H1, H2.
  destruct (flt (confidence x) (confidence y)) eqn:E; [reflexivity|].
  pose proof (flt_negtrans _ _ _ Nr Nx Ny H2 E). congruence.
Qed.

Lemma insert_desc_stable x r l :
  is_number x -> is_number r -> Forall is_number l ->
  filter (tie x) (insert_desc r l) = filter (tie x) (r :: l).
Proof.
  intros Nx Nr Nl. induction Nl as [|y l Ny Nl IH]; [reflexivity|].
  simpl insert_desc.
  destruct (flt (confidence r) (confidence y)) eqn:E; [|reflexivity].
  simpl in *. rewrite IH.
  destruct (tie x r) eqn:T; [|reflexivity].
  now rewrite (tie_separates Nx Nr Ny E T).
Qed.

(** The sort is stable: the results that tie with a given one keep the
    order they had. *)
Lemma sort_desc_stable x l :
  is_number x -> Forall is_number l ->
  filter (tie x) (sort_desc l) = filter (tie x) l.
Proof.
  intros Nx Nl. induction Nl as [|y l Ny Nl IH]; [reflexivity|].
  simpl sort_desc. rewrite insert_desc_stable; auto.
  - simpl. now rewrite IH.
  - now apply (Forall_perm (sort_desc_perm l)).
Qed.

End Ranking.

(** ** Recognition *)

Lemma combine_map_r A B (f : A -> B) l :
  combine l (map f l) = map (fun x => (x, f x)) l.
Proof. induction l; simpl; congruence. Qed.

Lemma nth_error_firstn_lt A (l : list A) : forall n i,
  (i < n)%nat -> nth_error (firstn n l) i = nth_error l i.
Proof.
  induction l as [|x l IH]; intros [|n] [|i] H; simpl; try reflexivity;
    try lia. apply IH. lia.
Qed.

Section Recognise.
Context {U : UnicodeDB} {F : PyFloat} {P : PyRuntime F}.

Lemma scored_aligned self description :
  aligned self ->
  scored self description =
  map (expected_result description) (_reference_items self).
Proof.
  unfold aligned, scored. intros ->.
  rewrite combine_map_r, map_map. reflexivity.
Qed.

Lemma recognise_prefix self description top_k :
  exists rest,
    sort_desc (scored self description) =
    recognise self description top_k ++ rest.
Proof.
  unfold recognise. destruct (strip description).
  - now eexists.
  - apply slice_to_prefix.
Qed.

Lemma recognise_in_scored self description top_k r :
  In r (recognise self description top_k) -> In r (scored self description).
Proof.
  intros H. destruct (recognise_prefix self description top_k) as [rest E].
  apply (Permutation_in _ (sort_desc_perm _)). rewrite E.
  apply in_or_app. now left.
Qed.

(** C1 (amended): for a description that is not blank and a [top_k] that
    is not negative, [recognise] returns at most [top_k] results, namely
    the smaller of [top_k] and the catalog size; with [top_k = 0] it
    returns the empty list, and with [top_k] at least the catalog size it
    returns the whole ranked catalog, one result for each catalog item. *)
Theorem recognise_top_k (self : FoodRecognitionEngine) (description : str)
    (top_k : Z) :
  reachable self ->
  forallb isspace description = false ->
  (0 <= top_k)%Z ->
  let results := recognise self description top_k in
  let size := List.length (_reference_items self) in
  List.length results = Nat.min (Z.to_nat top_k) size
  /\ (Z.of_nat (List.length results) <= top_k)%Z
  /\ (top_k = 0%Z -> results = [])
  /\ ((Z.of_nat size <= top_k)%Z ->
        results = sort_desc (scored self description)
        /\ Permutation (map item results) (_reference_items self)).
Proof.
  intros Hr Hd Hk results size. subst results size.
  apply reachable_aligned in Hr.
  rewrite recognise_not_blank by assumption. rewrite slice_to_nonneg by assumption.
  assert (Len : List.length (sort_desc (scored self description)) =
                List.length (_reference_items self))
    by now rewrite sort_desc_length, (scored_aligned _ Hr), length_map.
  assert (E : List.length (firstn (Z.to_nat top_k)
                (sort_desc (scored self description))) =
              Nat.min (Z.to_nat top_k) (List.length (_reference_items self)))
    by now rewrite length_firstn, Len.
  split; [exact E|]. split; [lia|]. split.
  - intros ->. reflexivity.
  - intros Hsize. rewrite firstn_all2 by lia. split; [reflexivity|].
    rewrite (sort_desc_perm _), (scored_aligned _ Hr), map_map. simpl.
    now rewrite map_id.
Qed.

Context {L : PyFloatLaws F}.

Lemma floor_not_below c :
  flt (if flt c f099 then f099 else c) f099 = false.
Proof.
  destruct (flt c f099) eqn:E; [apply flt_irrefl|exact E].
Qed.

Lemma floor_at_least c :
  fnan c = false -> fle f099 (if flt c f099 then f099 else c) = true.
Proof.
  intros N. pose proof f099_number as N9.
  destruct (flt c f099) eqn:E.
  - apply fle_not_lt; auto. apply flt_irrefl.
  - now apply fle_not_lt.
Qed.

Lemma text_in_self a : text_in a a = true.
Proof.
  unfold text_in, str_eqb.
  destruct (list_eq_dec N.eq_dec (lower a) (lower a)); [reflexivity|].
  contradiction.
Qed.

(** Modelled from the spec, [matches] holds of an item and a description
    that is one of its aliases. *)
Lemma matches_alias it alias :
  In alias (aliases it) -> matches it alias = true.
Proof.
  intros Hin. unfold matches. apply orb_true_iff. right.
  apply existsb_exists. exists alias. split; [exact Hin|].
  apply text_in_self.
Qed.

(** C3 (amended): the confidence of every result of [recognise] is the
    cosine of the description vector and the item's vector when the item
    does not match the description, and the larger of that cosine and 0.99
    when it does; a description that is not blank gives every catalog item
    such a result (all of them are returned when [top_k] does not
    truncate).  The
    override returns the cosine itself when it is above 0.99, and a
    matching item has a confidence that is not below 0.99 (at least 0.99,
    the cosine being a number). *)
Theorem recognise_confidence (self : FoodRecognitionEngine)
    (description : str) (top_k : Z) :
  reachable self ->
  (forall r, In r (recognise self description top_k) ->
     In (item r) (_reference_items self)
     /\ confidence r =
        (let cosine := cosine_of description (item r) in
         if matches (item r) description then max cosine f099 else cosine))
  /\ (forallb isspace description = false ->
      (Z.of_nat (List.length (_reference_items self)) <= top_k)%Z ->
      Permutation (recognise self description top_k)
        (map (expected_result description) (_reference_items self)))
  /\ (forall it, matches it description = true ->
        let cosine := cosine_of description it in
        expected_confidence description it = max cosine f099
        /\ (flt f099 cosine = true -> max cosine f099 = cosine)
        /\ flt (max cosine f099) f099 = false
        /\ (fnan cosine = false -> fle f099 (max cosine f099) = true)).
Proof.
  intros Hr. apply reachable_aligned in Hr.
  split; [|split].
  - intros r Hin. apply recognise_in_scored in Hin.
    rewrite (scored_aligned _ Hr) in Hin.
    apply in_map_iff in Hin as (it & <- & Hit). split; [exact Hit|].
    reflexivity.
  - intros Hd Hk. rewrite recognise_not_blank by assumption.
    rewrite slice_to_nonneg by lia.
    rewrite firstn_all2
      by (rewrite sort_desc_length, (scored_aligned _ Hr), length_map; lia).
    now rewrite (sort_desc_perm _), (scored_aligned _ Hr).
  - intros it Hm cosine. unfold expected_confidence. rewrite Hm.
    fold cosine. unfold max. split; [reflexivity|]. split; [|split].
    + intros H. now rewrite (flt_asym _ _ H).
    + apply floor_not_below.
    + apply floor_at_least.
Qed.

(** C5: for a positive [top_k], confidences being numbers, the list that
    [recognise] returns is in descending order of confidence, the results
    that tie with one another come in it in the order of their items in
    the catalog (they are the first of them, in that order), and it has at
    most [top_k] elements. *)
Theorem recognise_sorted_stable (self : FoodRecognitionEngine)
    (description : str) (top_k : Z) :
  reachable self ->
  (0 < top_k)%Z ->
  Forall is_number (scored self description) ->
  let results := recognise self description top_k in
  descending results
  /\ map item (scored self description) = _reference_items self
  /\ (forall x, is_number x ->
        exists rest,
          filter (tie x) (scored self description) =
          filter (tie x) results ++ rest)
  /\ (Z.of_nat (List.length results) <= top_k)%Z.
Proof.
  intros Hr Hk Hn results. subst results.
  destruct (recognise_prefix self description top_k) as [rest E].
  split; [|split; [|split]].
  - apply StronglySorted_prefix with (rest := rest). rewrite <- E.
    now apply sort_desc_descending.
  - rewrite (scored_aligned _ (reachable_aligned Hr)), map_map. simpl.
    apply map_id.
  - intros x Nx. exists (filter (tie x) rest).
    rewrite <- filter_app, <- E. symmetry. now apply sort_desc_stable.
  - unfold recognise. destruct (strip description); [simpl; lia|].
    rewrite slice_to_nonneg, length_firstn by lia. lia.
Qed.

(** C9 (amended): after [add_custom_item self x], a [recognise] call whose
    description is not blank and matches [x] ranks [x], with the
    confidence of the override, which is not below 0.99 (at least 0.99,
    the cosine being a number); every [top_k] above its rank, so every
    [top_k] that is at least the catalog size, returns it.  The vector of
    [x] is the encoding of its representation, as for reference items. *)
Theorem custom_item_recognised (self : FoodRecognitionEngine) (x : FoodItem)
    (description : str) :
  reachable self ->
  forallb isspace description = false ->
  matches x description = true ->
  let self' := add_custom_item self x in
  let cosine := cosine_of description x in
  exists r rank,
    nth_error (sort_desc (scored self' description)) rank = Some r
    /\ (rank < List.length (_reference_items self'))%nat
    /\ item r = x
    /\ confidence r = max cosine f099
    /\ flt (confidence r) f099 = false
    /\ (fnan cosine = false -> fle f099 (confidence r) = true)
    /\ (forall top_k, (Z.of_nat rank < top_k)%Z ->
          In r (recognise self' description top_k))
    /\ _reference_vectors self' =
       map (fun it => encode_one (_item_representation it))
           (_reference_items self').
Proof.
  intros Hr Hd Hm self' cosine.
  assert (A : aligned self') by (apply reachable_aligned; now constructor).
  assert (Hin : In (expected_result description x)
                   (sort_desc (scored self' description))).
  { apply (Permutation_in _ (Permutation_sym (sort_desc_perm _))).
    rewrite (scored_aligned _ A). apply in_map. simpl.
    apply in_or_app. right. now left. }
  apply In_nth_error in Hin as [rank Hrank].
  exists (expected_result description x), rank.
  assert (Hlt : (rank < List.length (_reference_items self'))%nat).
  { assert (H : nth_error (sort_desc (scored self' description)) rank <> None)
      by congruence.
    apply nth_error_Some in H.
    now rewrite sort_desc_length, (scored_aligned _ A), length_map in H. }
  assert (Hc : confidence (expected_result description x) = max cosine f099).
  { simpl. unfold expected_confidence. now rewrite Hm. }
  repeat split; try assumption.
  - rewrite Hc. apply floor_not_below.
  - rewrite Hc. apply floor_at_least.
  - intros top_k Hk. rewrite recognise_not_blank by assumption.
    rewrite slice_to_nonneg by lia.
    apply nth_error_In with (n := rank).
    rewrite nth_error_firstn_lt by lia. exact Hrank.
Qed.

End Recognise.

(** ** The small installation *)

Lemma demo_reachable : reachable demo_engine.
Proof.
  apply reach_init with (fs := demo_fs) (reference_path := None).
  assert (H : is_ok (__init__ demo_fs None) = true)
    by (vm_compute; reflexivity).
  unfold demo_engine. destruct (__init__ demo_fs None); [reflexivity|].
  discriminate.
Qed.

Lemma demo_not_blank : forallb isspace (py "apple") = false.
Proof. vm_compute. reflexivity. Qed.

Lemma demo_numbers :
  Forall is_number (scored demo_engine (py "apple")).
Proof.
  assert (H : forallb (fun r => negb (fnan (confidence r)))
                      (scored demo_engine (py "apple")) = true)
    by (vm_compute; reflexivity).
  rewrite forallb_forall in H. apply Forall_forall. intros r Hr.
  apply negb_true_iff. now apply H.
Qed.

Lemma demo_oat_not_blank : forallb isspace (py "oat") = false.
Proof. vm_compute. reflexivity. Qed.

Lemma demo_oat_matches : matches oat_milk (py "oat") = true.
Proof. vm_compute. reflexivity. Qed.

Lemma recognise_blank_witness :
  forallb isspace (py "   ") = true
  /\ recognise demo_engine (py "   ") 3 = [].
Proof.
  assert (H : forallb isspace (py "   ") = true) by (vm_compute; reflexivity).
  split; [exact H|]. now apply recognise_blank.
Defined.

Lemma catalog_aligned_witness :
  reachable demo_engine
  /\ List.length (_reference_items demo_engine) =
     List.length (_reference_vectors demo_engine).
Proof.
  split; [exact demo_reachable|].
  exact (proj1 (@catalog_aligned _ _ _ demo_engine demo_reachable)).
Defined.

Lemma init_missing_name_witness :
  __init__ unnamed_fs None = Raise (KeyError (py "name")).
Proof.
  refine (proj1 (@init_missing_name _ _ _ unnamed_fs None _ eq_refl) _).
  apply Exists_exists. eexists.
  split; [right; right; left; reflexivity|reflexivity].
Defined.

(** C1, as stated, fails on a description of one space, which is not
    empty: with [top_k = 5] on a catalog of two items [recognise] returns
    no result instead of the ranked catalog.  A negative [top_k] is a
    slice bound counted from the end: [top_k = -1] returns one result. *)
Lemma recognise_top_k_blank_or_negative :
  py " " <> []
  /\ List.length (_reference_items demo_engine) = 2%nat
  /\ recognise demo_engine (py " ") 5 = []
  /\ List.length (recognise demo_engine (py "apple") (-1)) = 1%nat.
Proof.
  split; [discriminate|]. split; [vm_compute; reflexivity|]. split.
  - apply recognise_strip_nil. vm_compute. reflexivity.
  - vm_compute. reflexivity.
Qed.

Lemma recognise_top_k_witness :
  (0 <= 1)%Z
  /\ List.length (recognise demo_engine (py "apple") 1) =
     Nat.min (Z.to_nat 1) (List.length (_reference_items demo_engine)).
Proof.
  split; [lia|].
  refine (proj1 (@recognise_top_k _ _ _ demo_engine (py "apple") 1%Z
                   demo_reachable demo_not_blank _)).
  lia.
Defined.

Lemma recognise_confidence_witness :
  reachable demo_engine
  /\ forall r, In r (recognise demo_engine (py "apple") 3) ->
       In (item r) (_reference_items demo_engine)
       /\ confidence r =
          (let cosine := cosine_of (py "apple") (item r) in
           if matches (item r) (py "apple") then max cosine f099
           else cosine).
Proof.
  split; [exact demo_reachable|].
  exact (proj1 (@recognise_confidence _ _ _ _ demo_engine (py "apple") 3%Z
                  demo_reachable)).
Defined.

(** C3, as stated, fails on a description that is not empty but blank: a
    single space is contained in "red apple", an alias of the first item,
    and in the name "Peanut Butter" of the second, so it matches both
    items of the catalog, and [recognise] returns neither, whatever
    [top_k] is.  And a matching item is not returned when [top_k]
    truncates it away: "p" matches both items, and [recognise] with
    [top_k] = 1 returns the first only. *)
Lemma matching_items_blank_description :
  py " " <> []
  /\ map (fun it => matches it (py " ")) (_reference_items demo_engine)
     = [true; true]
  /\ (forall top_k, recognise demo_engine (py " ") top_k = [])
  /\ map (fun it => matches it (py "p")) (_reference_items demo_engine)
     = [true; true]
  /\ map (fun r => name (item r)) (recognise demo_engine (py "p") 1)
     = [py "Apple"].
Proof.
  split; [discriminate|]. split; [vm_compute; reflexivity|].
  split; [|split; vm_compute; reflexivity].
  intros top_k. apply recognise_strip_nil. vm_compute. reflexivity.
Qed.

Lemma recognise_sorted_stable_witness :
  (0 < 3)%Z /\ descending (recognise demo_engine (py "apple") 3).
Proof.
  split; [lia|].
  refine (proj1 (@recognise_sorted_stable _ _ _ _ demo_engine (py "apple")
                   3%Z demo_reachable _ demo_numbers)).
  lia.
Defined.

(** C9, as stated, fails on a blank description: a single space is
    contained in the name "Oat Milk", so it matches the item, and
    [recognise] returns no result for it whatever [top_k] is. *)
Lemma custom_item_blank_description :
  matches oat_milk (py " ") = true
  /\ recognise (add_custom_item demo_engine oat_milk) (py " ") 10 = [].
Proof.
  split; [vm_compute; reflexivity|].
  apply recognise_strip_nil. vm_compute. reflexivity.
Qed.

Lemma custom_item_recognised_witness :
  matches oat_milk (py "oat") = true
  /\ exists r,
       In r (recognise (add_custom_item demo_engine oat_milk) (py "oat") 3)
       /\ item r = oat_milk.
Proof.
  split; [exact demo_oat_matches|].
  destruct (@custom_item_recognised _ _ _ _ demo_engine oat_milk (py "oat")
              demo_reachable demo_oat_not_blank demo_oat_matches)
    as (r & rank & _ & Hlt & Hi & _ & _ & _ & Hk & _).
  exists r. split; [|exact Hi]. apply Hk.
  vm_compute in Hlt. lia.
Defined.

(** ** Counters *)

Lemma str_eqb_eq a b : str_eqb a b = true <-> a = b.
Proof.
  unfold str_eqb. destruct (list_eq_dec N.eq_dec a b); split;
    congruence.
Qed.

Lemma str_eqb_refl a : str_eqb a a = true.
Proof. now apply str_eqb_eq. Qed.

Lemma str_eqb_neq a b : str_eqb a b = false <-> a <> b.
Proof.
  unfold str_eqb. destruct (list_eq_dec N.eq_dec a b); split;
    congruence.
Qed.

Lemma count_of_incr counts token t :
  count_of (incr counts token) t =
  (count_of counts t + if str_eqb t token then 1 else 0)%Z.
Proof.
  unfold count_of.
  induction counts as [|[k n] rest IH]; simpl.
  - destruct (str_eqb t token); reflexivity.
  - destruct (str_eqb token k) eqn:E; simpl.
    + apply str_eqb_eq in E. subst k.
      destruct (str_eqb t token); [reflexivity|lia].
    + destruct (str_eqb t k) eqn:E'; [|exact IH].
      apply str_eqb_eq in E'. subst k.
      replace (str_eqb t token) with false; [lia|].
      symmetry. apply str_eqb_neq. apply str_eqb_neq in E. congruence.
Qed.

Lemma count_of_fold tokens : forall counts t,
  count_of (fold_left incr tokens counts) t =
  (count_of counts t + Z.of_nat (count_occ str_dec tokens t))%Z.
Proof.
  induction tokens as [|x tokens IH]; intros counts t; simpl; [lia|].
  rewrite IH, count_of_incr.
  destruct (str_dec x t) as [->|Hne].
  - rewrite str_eqb_refl. lia.
  - replace (str_eqb t x) with false; [lia|].
    symmetry. apply str_eqb_neq. congruence.
Qed.

(** A counter holds, for every token, its number of occurrences. *)
Lemma Counter_count tokens t :
  count_of (Counter tokens) t = Z.of_nat (count_occ str_dec tokens t).
Proof. unfold Counter. now rewrite count_of_fold. Qed.

Lemma incr_keys_in counts token k :
  In k (keys (incr counts token)) -> k = token \/ In k (keys counts).
Proof.
  induction counts as [|[k' n] rest IH]; simpl.
  - intros [H|[]]. now left.
  - destruct (str_eqb token k'); simpl; [tauto|].
    intros [H|H]; [tauto|]. apply IH in H. tauto.
Qed.

Lemma incr_well_formed counts token :
  well_formed counts -> well_formed (incr counts token).
Proof.
  unfold well_formed.
  induction counts as [|[k n] rest IH]; simpl; intros [Hk Hn].
  - split; repeat constructor; simpl; [tauto|lia].
  - inversion Hk as [|? ? Hnotin Hk']; subst.
    inversion Hn as [|? ? Hn1 Hn']; subst. simpl in Hn1.
    destruct (str_eqb token k) eqn:E; simpl.
    + split; constructor; simpl; auto. lia.
    + destruct (IH (conj Hk' Hn')) as [IHk IHn].
      split; constructor; simpl; auto.
      intros Hin. apply incr_keys_in in Hin as [->|Hin]; [|contradiction].
      rewrite str_eqb_refl in E. discriminate.
Qed.

Lemma incr_not_nil counts token : incr counts token <> [].
Proof.
  destruct counts as [|[k n] rest]; simpl; [discriminate|].
  destruct (str_eqb token k); discriminate.
Qed.

Lemma fold_incr_well_formed tokens : forall counts,
  well_formed counts -> well_formed (fold_left incr tokens counts).
Proof.
  induction tokens; simpl; intros counts H; [exact H|].
  apply IHtokens. now apply incr_well_formed.
Qed.

Lemma fold_incr_not_nil tokens : forall counts,
  counts <> [] -> fold_left incr tokens counts <> [].
Proof.
  induction tokens; simpl; intros counts H; [exact H|].
  apply IHtokens. apply incr_not_nil.
Qed.

Lemma Counter_well_formed tokens : well_formed (Counter tokens).
Proof.
  apply fold_incr_well_formed. split; constructor.
Qed.

Lemma Counter_not_nil tokens : tokens <> [] -> Counter tokens <> [].
Proof.
  destruct tokens as [|t tokens]; [contradiction|]. intros _.
  unfold Counter. simpl. apply fold_incr_not_nil.
  discriminate.
Qed.

Lemma fold_left_Zadd l : forall a,
  fold_left Z.add l a = (a + fold_right Z.add 0 l)%Z.
Proof.
  induction l as [|x l IH]; intros a; simpl; [lia|]. rewrite IH. lia.
Qed.

Lemma sum_squares_cons k n rest :
  sum_squares ((k, n) :: rest) = (n * n + sum_squares rest)%Z.
Proof.
  unfold sum_squares. simpl. rewrite !fold_left_Zadd. lia.
Qed.

Lemma sum_squares_nonneg counts : (0 <= sum_squares counts)%Z.
Proof.
  induction counts as [|[k n] rest IH]; [reflexivity|].
  rewrite sum_squares_cons. nia.
Qed.

Lemma sum_squares_positive counts :
  well_formed counts -> counts <> [] -> (0 < sum_squares counts)%Z.
Proof.
  intros [_ Hn] Hne. destruct counts as [|[k n] rest]; [contradiction|].
  inversion Hn as [|? ? Hn1 _]; subst. simpl in Hn1.
  rewrite sum_squares_cons. pose proof (sum_squares_nonneg rest). nia.
Qed.

(** ** Normalisation *)

Section Normalise.
Context {U : UnicodeDB} {F : PyFloat} {L : PyFloatLaws F}.

Lemma encode_one_eq text :
  encode_one text = _normalise (Counter (_tokenize text)).
Proof. reflexivity. Qed.

Lemma norm_of_nonzero counts : fis0 (norm_of counts) = false.
Proof.
  unfold norm_of.
  destruct (fis0 (fsqrt (of_int (sum_squares counts)))) eqn:E;
    [apply f1_nonzero|exact E].
Qed.

Lemma norm_of_nil : norm_of [] = f1.
Proof.
  unfold norm_of. change (sum_squares []) with 0%Z. now rewrite fsqrt_zero.
Qed.

End Normalise.

(** ** Sums of reals *)

Section Sums.
Local Open Scope R_scope.

Lemma fold_left_Rsum A (g : A -> R) l : forall a,
  fold_left (fun acc k => acc + g k) l a = a + Rsum (map g l).
Proof.
  induction l as [|x l IH]; intros a; simpl; [lra|]. rewrite IH. lra.
Qed.

Lemma Rsum_perm l l' : Permutation l l' -> Rsum l = Rsum l'.
Proof.
  induction 1; simpl; lra.
Qed.

Lemma Rsum_nonneg A (g : A -> R) l :
  (forall x, In x l -> 0 <= g x) -> 0 <= Rsum (map g l).
Proof.
  induction l as [|x l IH]; simpl; intros H; [lra|].
  pose proof (H x (or_introl eq_refl)).
  assert (0 <= Rsum (map g l)) by (apply IH; auto). lra.
Qed.

Lemma Rsum_le A (f g : A -> R) l :
  (forall x, In x l -> f x <= g x) -> Rsum (map f l) <= Rsum (map g l).
Proof.
  induction l as [|x l IH]; simpl; intros H; [lra|].
  pose proof (H x (or_introl eq_refl)).
  assert (Rsum (map f l) <= Rsum (map g l)) by (apply IH; auto). lra.
Qed.

Lemma Rsum_half_sum A (f g : A -> R) l :
  Rsum (map (fun x => (f x + g x) / 2) l) =
  (Rsum (map f l) + Rsum (map g l)) / 2.
Proof.
  induction l as [|x l IH]; simpl; [lra|]. rewrite IH. lra.
Qed.

(** A sum of non-negative terms over distinct indices is at most the sum
    over any list that has all those indices. *)
Lemma Rsum_incl A (g : A -> R) l : forall l',
  (forall x, 0 <= g x) -> NoDup l -> incl l l' ->
  Rsum (map g l) <= Rsum (map g l').
Proof.
  induction l as [|x l IH]; intros l' Hg Hnd Hincl; simpl.
  - apply Rsum_nonneg. auto.
  - inversion Hnd as [|? ? Hx Hnd']; subst.
    destruct (in_split x l') as (l1 & l2 & ->);
      [apply Hincl; now left|].
    rewrite (Rsum_perm (Permutation_map g
               (Permutation_sym (Permutation_middle l1 l2 x)))).
    simpl. apply Rplus_le_compat_l. apply IH; auto.
    intros y Hy. assert (Hy' : In y (l1 ++ x :: l2))
      by (apply Hincl; now right).
    apply in_app_or in Hy' as [H|[H|H]]; apply in_or_app; try tauto.
    subst. contradiction.
Qed.

End Sums.

Lemma contains_key_in V (d : dict V) k :
  contains_key d k = true -> In k (keys d).
Proof.
  unfold contains_key. intros (k' & Hin & ->%str_eqb_eq)%existsb_exists.
  exact Hin.
Qed.

(** The squares of the weights do not sum to 1 exactly: the three weights
    of "a b c" are the same rational number, and three times its square is
    not 1; summed in binary64 the squares give a number above 1. *)
Lemma encode_binary64_not_unit :
  map b64_value (values (encode_one (py "a b c"))) =
    [Some third_root; Some third_root; Some third_root]
  /\ ~ (third_root * third_root + third_root * third_root
        + third_root * third_root == 1)%Q
  /\ flt f1 (fold_left fadd
               (map (fun w => fmul w w) (values (encode_one (py "a b c"))))
               (of_int 0)) = true.
Proof.
  split; [vm_compute; reflexivity|]. split.
  - intros H. vm_compute in H. discriminate.
  - vm_compute. reflexivity.
Qed.

(** C6, as stated, fails in binary64: the cosine of the vector of
    "a b b b b b" with itself, a sum of two products, is above 1, in
    either order of the two keys; and [recognise] returns such a cosine as
    a confidence. *)
Lemma cosine_binary64_above_one :
  let v := encode_one (py "a b b b b b") in
  flt f1 (@_cosine_similarity binary64 demo_runtime v v) = true
  /\ flt f1 (@_cosine_similarity binary64 reversed_runtime v v) = true
  /\ map (fun r => flt f1 (confidence r))
         (recognise skewed_engine
            (py "a serving serving serving serving serving") 1) = [true].
Proof. repeat split; vm_compute; reflexivity. Qed.

(** ** Subscripts

    Every key that the cosine looks up is a key of both vectors, so no
    subscript of [_cosine_similarity] raises [KeyError]. *)
Lemma getitem_in V (d : dict V) key :
  In key (keys d) -> exists value, getitem d key = Some value.
Proof.
  induction d as [|[k v] rest IH]; simpl; [contradiction|].
  intros H. destruct (str_eqb key k) eqn:E; [now eexists|].
  apply IH. destruct H as [<-|H]; [|exact H].
  rewrite str_eqb_refl in E. discriminate.
Qed.

Lemma common_keys_getitem `{P : PyRuntime} (a b : TextVector) key :
  In key (common_keys a b) ->
  (exists x, getitem a key = Some x) /\ (exists y, getitem b key = Some y).
Proof.
  unfold common_keys. intros H.
  apply (Permutation_in _ (set_iter_perm _)) in H.
  apply filter_In in H as [Ha Hb].
  split; apply getitem_in; [exact Ha|now apply contains_key_in].
Qed.

(** * Further properties of the engine *)

(** ** The keys of a vector *)

Lemma contains_key_iff V (d : dict V) k :
  contains_key d k = true <-> In k (keys d).
Proof.
  split; [apply contains_key_in|].
  intros H. unfold contains_key. apply existsb_exists.
  exists k. split; [exact H|apply str_eqb_refl].
Qed.

Lemma incr_keys_keep counts token k :
  In k (keys counts) -> In k (keys (incr counts token)).
Proof.
  induction counts as [|[k' n] rest IH]; simpl; [contradiction|].
  destruct (str_eqb token k'); simpl; tauto.
Qed.

Lemma incr_keys_new counts token : In token (keys (incr counts token)).
Proof.
  induction counts as [|[k' n] rest IH]; simpl; [now left|].
  destruct (str_eqb token k') eqn:E; simpl; [|now right].
  left. symmetry. now apply str_eqb_eq.
Qed.

Lemma fold_incr_keys tokens : forall counts k,
  In k (keys (fold_left incr tokens counts)) <->
  In k tokens \/ In k (keys counts).
Proof.
  induction tokens as [|t tokens IH]; intros counts k; simpl; [tauto|].
  rewrite IH. split.
  - intros [H|H]; [tauto|]. apply incr_keys_in in H. intuition.
  - intros [[<-|H]|H]; [right; apply incr_keys_new|tauto|].
    right. now apply incr_keys_keep.
Qed.

Lemma Counter_keys tokens k : In k (keys (Counter tokens)) <-> In k tokens.
Proof. unfold Counter. rewrite fold_incr_keys. simpl. tauto. Qed.

Lemma normalise_keys `{F : PyFloat} counts :
  keys (_normalise counts) = keys counts.
Proof.
  unfold _normalise, keys. rewrite map_map. apply map_ext. now intros [k n].
Qed.

Lemma filter_none A (f : A -> bool) l :
  (forall x, In x l -> f x = false) -> filter f l = [].
Proof.
  induction l as [|x l IH]; simpl; intros H; [reflexivity|].
  rewrite (H x (or_introl eq_refl)). apply IH. auto.
Qed.

Lemma encode_one_keys `{UnicodeDB} `{F : PyFloat} text token :
  In token (keys (encode_one text)) <-> In token (_tokenize text).
Proof. rewrite encode_one_eq, normalise_keys. apply Counter_keys. Qed.

Lemma encode_one_nodup `{UnicodeDB} `{F : PyFloat} text :
  NoDup (keys (encode_one text)).
Proof. rewrite encode_one_eq, normalise_keys. apply Counter_well_formed. Qed.

Section Vectors.
Context {U : UnicodeDB} {F : PyFloat} {P : PyRuntime F}.

(** X1: [encode] returns one vector for each text, and the keys of the vector
    of a text are the tokens of the text, each of them once. *)
Theorem encode_keys (texts : list str) :
  List.length (encode texts) = List.length texts
  /\ (forall i, nth_error (encode texts) i =
                option_map encode_one (nth_error texts i))
  /\ (forall text,
        NoDup (keys (encode_one text))
        /\ forall token,
             In token (keys (encode_one text)) <-> In token (_tokenize text)).
Proof.
  split; [apply length_map|]. split; [intros i; apply nth_error_map|].
  intros text. split; [apply encode_one_nodup|].
  intros token. apply encode_one_keys.
Qed.

(** X2: Two texts that have no token in common have the cosine 0 (the [int]
    that [sum] starts from), whatever the arithmetic. *)
Theorem cosine_disjoint (ta tb : str) :
  (forall token, In token (_tokenize ta) -> ~ In token (_tokenize tb)) ->
  _cosine_similarity (encode_one ta) (encode_one tb) = of_int 0.
Proof.
  intros H. unfold _cosine_similarity, common_keys.
  assert (E : filter (contains_key (encode_one tb)) (keys (encode_one ta))
              = []).
  { apply filter_none. intros k Hk.
    destruct (contains_key (encode_one tb) k) eqn:C; [|reflexivity].
    apply contains_key_iff in C.
    apply encode_one_keys in Hk, C. now apply H in Hk. }
  rewrite E.
  now rewrite (Permutation_nil (Permutation_sym (set_iter_perm []))).
Qed.

(** *** Truncation *)

(** X7: A negative [top_k] drops that many results from the end of the
    ranking: on a catalog of [n] items [recognise] returns the first
    [n + top_k] results, none when that is not positive. *)
Theorem recognise_negative_top_k (self : FoodRecognitionEngine)
    (description : str) (top_k : Z) :
  reachable self ->
  forallb isspace description = false ->
  (top_k < 0)%Z ->
  let size := Z.of_nat (List.length (_reference_items self)) in
  recognise self description top_k =
    firstn (Z.to_nat (size + top_k)) (sort_desc (scored self description))
  /\ List.length (recognise self description top_k) =
     Z.to_nat (Z.max 0 (size + top_k)).
Proof.
  intros Hr Hd Hk size. subst size. apply reachable_aligned in Hr.
  assert (Len : List.length (sort_desc (scored self description)) =
                List.length (_reference_items self))
    by now rewrite sort_desc_length, (scored_aligned _ Hr), length_map.
  rewrite recognise_not_blank by assumption. unfold slice_to.
  destruct (Z.ltb_spec top_k 0) as [_|]; [|lia]. rewrite Len.
  replace (Z.to_nat (Z.max 0
             (Z.of_nat (List.length (_reference_items self)) + top_k)))
    with (Z.to_nat (Z.of_nat (List.length (_reference_items self)) + top_k))
    by lia.
  split; [reflexivity|]. rewrite length_firstn, Len. lia.
Qed.

(** X8: The results for a smaller [top_k] are the first results for a larger
    one. *)
Theorem recognise_prefix_smaller (self : FoodRecognitionEngine)
    (description : str) (k k' : Z) :
  (0 <= k <= k')%Z ->
  recognise self description k =
  firstn (Z.to_nat k) (recognise self description k').
Proof.
  intros Hk. unfold recognise. destruct (strip description).
  - now rewrite firstn_nil.
  - rewrite !slice_to_nonneg by lia. rewrite firstn_firstn. f_equal. lia.
Qed.

(** X9: The results of [recognise] are entries of the catalog, no entry
    twice: their items, with the items of the entries left out, are the
    catalog in some order. *)
Theorem recognise_from_catalog (self : FoodRecognitionEngine)
    (description : str) (top_k : Z) :
  reachable self ->
  exists rest,
    Permutation (map item (recognise self description top_k) ++ rest)
                (_reference_items self).
Proof.
  intros Hr. apply reachable_aligned in Hr.
  destruct (recognise_prefix self description top_k) as [rest E].
  exists (map item rest). rewrite <- map_app, <- E.
  rewrite (sort_desc_perm _), (scored_aligned _ Hr), map_map. simpl.
  now rewrite map_id.
Qed.

(** *** Extension *)

Lemma add_custom_items_reachable self items :
  reachable self -> reachable (fold_left add_custom_item items self).
Proof.
  revert self. induction items as [|x items IH]; simpl; intros self H;
    [exact H|]. apply IH. now constructor.
Qed.

(** X10: The catalog is only appended to: after any sequence of
    [add_custom_item] calls [known_items] is what it was, followed by the
    added items in the order of the calls, an item added twice being there
    twice. *)
Theorem add_custom_items_append (self : FoodRecognitionEngine)
    (items : list FoodItem) :
  known_items (fold_left add_custom_item items self) =
  known_items self ++ items.
Proof.
  revert self. induction items as [|x items IH]; intros self; simpl.
  - now rewrite app_nil_r.
  - rewrite IH. unfold known_items. simpl. now rewrite <- app_assoc.
Qed.

Lemma scored_add self x description :
  reachable self ->
  scored (add_custom_item self x) description =
  scored self description ++ [expected_result description x].
Proof.
  intros Hr.
  assert (A : aligned self) by now apply reachable_aligned.
  assert (A' : aligned (add_custom_item self x))
    by (apply reachable_aligned; now constructor).
  rewrite (scored_aligned _ A'), (scored_aligned _ A). simpl.
  now rewrite map_app.
Qed.

(** X11: [add_custom_item] changes the confidence of no item that the catalog
    had: the scored list is the former one followed by the result of the
    new item, and an untruncated ranking is the former one with that
    result put in. *)
Theorem add_custom_item_keeps_scores (self : FoodRecognitionEngine)
    (x : FoodItem) (description : str) (top_k : Z) :
  reachable self ->
  scored (add_custom_item self x) description =
    scored self description ++ [expected_result description x]
  /\ (forallb isspace description = false ->
      (Z.of_nat (List.length (_reference_items self)) < top_k)%Z ->
      Permutation (recognise (add_custom_item self x) description top_k)
                  (recognise self description top_k
                   ++ [expected_result description x])).
Proof.
  intros Hr.
  assert (A : aligned self) by now apply reachable_aligned.
  pose proof (scored_add x description Hr) as E.
  split; [exact E|]. intros Hd Hk.
  rewrite !recognise_not_blank by assumption.
  rewrite !slice_to_nonneg by lia.
  rewrite !firstn_all2.
  - now rewrite !sort_desc_perm, E.
  - rewrite sort_desc_length, (scored_aligned _ A), length_map. lia.
  - rewrite sort_desc_length, E, length_app, (scored_aligned _ A), length_map.
    simpl. lia.
Qed.

(** *** Batches *)

(** X13: [scan_bulk] returns, for each description in order, what [recognise]
    returns for it with [top_k = 3]: at most three results, none for a
    blank description; the batch of two lists of descriptions is the two
    batches one after the other. *)
Theorem scan_bulk_each (self : FoodRecognitionEngine)
    (descriptions more : list str) :
  List.length (scan_bulk self descriptions) = List.length descriptions
  /\ Forall (fun results => (List.length results <= 3)%nat)
            (scan_bulk self descriptions)
  /\ (forall i description,
        nth_error descriptions i = Some description ->
        nth_error (scan_bulk self descriptions) i =
          Some (recognise self description 3)
        /\ (forallb isspace description = true ->
            nth_error (scan_bulk self descriptions) i = Some []))
  /\ scan_bulk self (descriptions ++ more) =
     scan_bulk self descriptions ++ scan_bulk self more.
Proof.
  unfold scan_bulk. split; [apply length_map|]. split; [|split].
  - apply Forall_map, Forall_forall. intros description _.
    unfold recognise. destruct (strip description); [simpl; lia|].
    rewrite slice_to_nonneg, length_firstn by lia. lia.
  - intros i description H. rewrite nth_error_map, H. simpl.
    split; [reflexivity|]. intros Hb. f_equal.
    apply recognise_strip_nil. now apply strip_nil_iff.
  - apply map_app.
Qed.

End Vectors.

(** ** Bags of words *)

Lemma getitem_none V (d : dict V) k :
  ~ In k (keys d) -> getitem d k = None.
Proof.
  induction d as [|[k' v] rest IH]; simpl; intros H; [reflexivity|].
  destruct (str_eqb k k') eqn:E.
  - apply str_eqb_eq in E. subst. tauto.
  - apply IH. tauto.
Qed.

Lemma in_getitem V (d : dict V) k v :
  NoDup (keys d) -> (In (k, v) d <-> getitem d k = Some v).
Proof.
  induction d as [|[k' v'] rest IH]; simpl; intros Hnd.
  - split; [contradiction|discriminate].
  - inversion Hnd as [|? ? Hk Hnd']; subst.
    destruct (str_eqb k k') eqn:E.
    + apply str_eqb_eq in E. subst k'. split.
      * intros [[= ->]|Hin]; [reflexivity|].
        exfalso. apply Hk. change k with (fst (k, v)). now apply in_map.
      * intros [= ->]. now left.
    + rewrite <- (IH Hnd'). split; [|tauto].
      intros [[= -> ->]|Hin]; [|exact Hin].
      rewrite str_eqb_refl in E. discriminate.
Qed.

Lemma dict_permutation V (d1 d2 : dict V) :
  NoDup (keys d1) -> NoDup (keys d2) ->
  (forall k, getitem d1 k = getitem d2 k) -> Permutation d1 d2.
Proof.
  intros N1 N2 H. apply NoDup_Permutation.
  - now apply NoDup_map_inv with (f := fst).
  - now apply NoDup_map_inv with (f := fst).
  - intros [k v]. now rewrite !in_getitem, H.
Qed.

Lemma dict_permutation_getitem V (d1 d2 : dict V) k :
  NoDup (keys d1) -> NoDup (keys d2) -> Permutation d1 d2 ->
  getitem d1 k = getitem d2 k.
Proof.
  intros N1 N2 H.
  destruct (getitem d1 k) as [v|] eqn:E1.
  - symmetry. apply in_getitem; [exact N2|].
    apply (Permutation_in _ H). now apply in_getitem.
  - destruct (getitem d2 k) as [v|] eqn:E2; [|reflexivity].
    apply in_getitem in E2; [|exact N2].
    apply (Permutation_in _ (Permutation_sym H)) in E2.
    apply in_getitem in E2; [|exact N1]. congruence.
Qed.

Lemma getitem_Counter tokens k :
  getitem (Counter tokens) k =
  if in_dec str_dec k tokens
  then Some (Z.of_nat (count_occ str_dec tokens k))
  else None.
Proof.
  destruct (in_dec str_dec k tokens) as [Hin|Hin].
  - apply Counter_keys in Hin. destruct (getitem_in _ _ Hin) as [v Hv].
    pose proof (Counter_count tokens k) as C. unfold count_of in C.
    rewrite Hv in C. now rewrite Hv, C.
  - apply getitem_none. now rewrite Counter_keys.
Qed.

Lemma Counter_permutation l1 l2 :
  Permutation l1 l2 -> Permutation (Counter l1) (Counter l2).
Proof.
  intros H. apply dict_permutation; try apply Counter_well_formed.
  intros k. rewrite !getitem_Counter.
  rewrite (proj1 (Permutation_count_occ str_dec l1 l2) H k).
  destruct (in_dec str_dec k l1) as [H1|H1], (in_dec str_dec k l2) as [H2|H2];
    try reflexivity; exfalso.
  - apply H2. now apply (Permutation_in _ H).
  - apply H1. now apply (Permutation_in _ (Permutation_sym H)).
Qed.

Lemma sum_squares_permutation d1 d2 :
  Permutation d1 d2 -> sum_squares d1 = sum_squares d2.
Proof.
  unfold sum_squares. rewrite !fold_left_Zadd.
  induction 1 as [|[k n] ? ? _ IH|[k n] [k' n'] ?|? ? ? _ IH1 _ IH2];
    simpl in *; lia.
Qed.

Lemma getitem_normalise `{F : PyFloat} counts k :
  getitem (_normalise counts) k =
  option_map (fun n => fdiv (of_int n) (norm_of counts)) (getitem counts k).
Proof.
  unfold _normalise. generalize (norm_of counts). intros norm.
  induction counts as [|[k' n] rest IH]; simpl; [reflexivity|].
  destruct (str_eqb k k'); [reflexivity|exact IH].
Qed.

(** X5: The order of the words of a text does not matter: two texts whose
    tokens are the same up to their order have vectors with the same
    entries, every token with the same weight, in any arithmetic. *)
Theorem encode_bag_of_words `{U : UnicodeDB} `{F : PyFloat} (t1 t2 : str) :
  Permutation (_tokenize t1) (_tokenize t2) ->
  Permutation (encode_one t1) (encode_one t2)
  /\ forall token,
       getitem (encode_one t1) token = getitem (encode_one t2) token.
Proof.
  intros H. apply Counter_permutation in H.
  assert (N : norm_of (Counter (_tokenize t1)) =
              norm_of (Counter (_tokenize t2)))
    by (unfold norm_of; now rewrite (sum_squares_permutation H)).
  rewrite !encode_one_eq. split.
  - unfold _normalise. rewrite N. now apply Permutation_map.
  - intros token. rewrite !getitem_normalise, N. f_equal.
    apply dict_permutation_getitem; try apply Counter_well_formed.
    exact H.
Qed.

(** ** Tokens put together again *)

Lemma spec_class_lower c :
  spec_class c = true -> is_ascii c = true /\ ascii_lower c = c.
Proof.
  unfold spec_class, is_ascii, ascii_lower. intros H.
  assert (R : in_range 65 90 c = false /\ (c < 128)%N).
  { revert H. range_cases c; simpl; intros H; try discriminate;
      split; try (apply in_range_false); lia. }
  destruct R as [R1 R2]. rewrite R1. split; [now apply N.ltb_lt|reflexivity].
Qed.

Lemma findall_join cls tokens :
  cls 32%N = false ->
  Forall (fun t => t <> [] /\ forallb cls t = true) tokens ->
  findall cls (join [32%N] tokens) = tokens.
Proof.
  intros Hsp. induction 1 as [|t rest [Hne Ht] Hrest IH]; [reflexivity|].
  destruct rest as [|t' rest].
  - simpl. rewrite <- (app_nil_r t) at 1.
    now rewrite findall_token.
  - change (join [32%N] (t :: t' :: rest))
      with (t ++ 32%N :: join [32%N] (t' :: rest)).
    rewrite findall_token by assumption. f_equal.
    unfold findall in *. simpl findall_from. now rewrite Hsp.
Qed.

Lemma join_forall (q : char -> bool) tokens :
  q 32%N = true ->
  Forall (fun t => forallb q t = true) tokens ->
  forallb q (join [32%N] tokens) = true.
Proof.
  intros Hsp. induction 1 as [|t rest Ht Hrest IH]; [reflexivity|].
  destruct rest as [|t' rest]; [exact Ht|].
  change (join [32%N] (t :: t' :: rest))
    with (t ++ 32%N :: join [32%N] (t' :: rest)).
  rewrite forallb_forall in Ht, IH. apply forallb_forall. intros c Hc.
  apply in_app_or in Hc as [Hc|[<-|Hc]]; auto.
Qed.

(** X6: Tokenizing the tokens of an ASCII text, joined by spaces, gives the
    same tokens again; so the joined text has the same vector. *)
Theorem tokenize_join `{U : UnicodeDB} (text : str) :
  forallb is_ascii text = true ->
  _tokenize (join (py " ") (_tokenize text)) = _tokenize text.
Proof.
  intros Ha. change (py " ") with [32%N].
  assert (T : Forall (fun t => t <> [] /\ forallb spec_class t = true)
                     (_tokenize text)).
  { rewrite (tokenize_ascii _ Ha).
    apply runs_tokens with (s := map ascii_lower text). apply findall_runs. }
  set (q := fun c => is_ascii c && (ascii_lower c =? c)%N).
  assert (Q : forallb q (join [32%N] (_tokenize text)) = true).
  { apply join_forall; [reflexivity|].
    apply (Forall_impl _ (P := fun t => t <> [] /\ forallb spec_class t = true));
      [|exact T].
    intros t [_ Ht]. apply forallb_forall. intros c Hc.
    rewrite forallb_forall in Ht. destruct (spec_class_lower _ (Ht c Hc))
      as [H1 H2]. unfold q. rewrite H1, H2. simpl. apply N.eqb_refl. }
  rewrite forallb_forall in Q.
  assert (A : forallb is_ascii (join [32%N] (_tokenize text)) = true).
  { apply forallb_forall. intros c Hc. specialize (Q c Hc). unfold q in Q.
    now apply andb_true_iff in Q. }
  rewrite (tokenize_ascii _ A).
  replace (map ascii_lower (join [32%N] (_tokenize text)))
    with (join [32%N] (_tokenize text)).
  - now apply findall_join.
  - rewrite <- (map_id (join [32%N] (_tokenize text))) at 1.
    apply map_ext_in. intros c Hc. specialize (Q c Hc). unfold q in Q.
    apply andb_true_iff in Q as [_ Q]. symmetry. now apply N.eqb_eq.
Qed.

Lemma filter_all A (f : A -> bool) l :
  (forall x, In x l -> f x = true) -> filter f l = l.
Proof.
  induction l as [|x l IH]; simpl; intros H; [reflexivity|].
  rewrite (H x (or_introl eq_refl)). f_equal. apply IH. auto.
Qed.

(** * Binary64 arithmetic

    ** Rounding

    What [binary_round_aux] of the standard library's specification of
    IEEE 754 returns for a mantissa of at least 53 bits in the range of the
    normal numbers: a normal number within one unit in the last place of
    the exact value, so within the factor 1 + [eps] of it. *)

Section Rounding.
Local Open Scope Z_scope.

(** The number of bits of a mantissa, and what shifting it right leaves. *)
Lemma digits2_size p : digits2_pos p = Pos.size p.
Proof. induction p; simpl; congruence. Qed.

Lemma Zdigits2_log2 p : Zdigits2 (Zpos p) = Z.log2 (Zpos p) + 1.
Proof.
  simpl. rewrite digits2_size. destruct p; simpl; lia.
Qed.

Lemma shr_1_m mrs : 0 <= shr_m mrs -> shr_m (shr_1 mrs) = shr_m mrs / 2.
Proof.
  destruct mrs as [m r s]. simpl. intros H.
  destruct m as [|[p|p|]|p]; simpl; try reflexivity; try lia.
  - rewrite (Pos2Z.inj_xI p). apply Z.div_unique with 1; lia.
  - rewrite (Pos2Z.inj_xO p). apply Z.div_unique with 0; lia.
Qed.

Lemma pow2_xI p : 2 ^ Zpos p~1 = 2 * (2 ^ Zpos p * 2 ^ Zpos p).
Proof.
  rewrite (Pos2Z.inj_xI p).
  replace (2 * Zpos p + 1) with (1 + (Zpos p + Zpos p)) by lia.
  rewrite !Z.pow_add_r by lia. reflexivity.
Qed.

Lemma pow2_xO p : 2 ^ Zpos p~0 = 2 ^ Zpos p * 2 ^ Zpos p.
Proof.
  rewrite (Pos2Z.inj_xO p).
  replace (2 * Zpos p) with (Zpos p + Zpos p) by lia.
  rewrite !Z.pow_add_r by lia. reflexivity.
Qed.

Lemma shr_m_iter p : forall mrs,
  0 <= shr_m mrs ->
  shr_m (SpecFloat.iter_pos shr_1 p mrs) = shr_m mrs / 2 ^ Zpos p.
Proof.
  induction p as [p IH|p IH|]; intros mrs H; simpl SpecFloat.iter_pos.
  - assert (H1 : 0 <= shr_m (shr_1 mrs))
      by (rewrite shr_1_m by assumption; apply Z.div_pos; lia).
    assert (H2 : 0 <= shr_m (SpecFloat.iter_pos shr_1 p (shr_1 mrs)))
      by (rewrite IH by assumption; apply Z.div_pos; lia).
    rewrite IH, IH, shr_1_m by assumption.
    rewrite !Z.div_div by lia. rewrite pow2_xI. reflexivity.
  - assert (H2 : 0 <= shr_m (SpecFloat.iter_pos shr_1 p mrs))
      by (rewrite IH by assumption; apply Z.div_pos; lia).
    rewrite IH, IH by assumption.
    rewrite !Z.div_div by lia. rewrite pow2_xO. reflexivity.
  - rewrite shr_1_m by assumption. reflexivity.
Qed.

Lemma round_nearest_even_cases m l :
  round_nearest_even m l = m \/ round_nearest_even m l = m + 1.
Proof.
  destruct l as [|[]]; simpl; auto. destruct (Z.even m); auto.
Qed.

Lemma loc_of_record m l :
  shr_m (shr_record_of_loc m l) = m.
Proof. destruct l as [|[]]; reflexivity. Qed.

Lemma fexp64 x : fexp 53 1024 x = Z.max (x - 53) (-1074).
Proof. reflexivity. Qed.

Lemma Zdigits2_eq M d : 2 ^ (d - 1) <= M < 2 ^ d -> 1 <= d -> Zdigits2 M = d.
Proof.
  intros H Hd.
  assert (0 < M) by
    (assert (0 < 2 ^ (d - 1)) by (apply Z.pow_pos_nonneg; lia); lia).
  destruct M as [|p|p]; try lia.
  rewrite Zdigits2_log2.
  rewrite (Z.log2_unique (Zpos p) (d - 1)); try lia.
  replace (Z.succ (d - 1)) with d by lia. lia.
Qed.

(** [shr_fexp] drops the bits of a mantissa of [d] bits beyond the first
    53: what is left is the quotient by 2^(d - 53). *)
Lemma shr_fexp_spec M E lx d :
  1 <= d -> 2 ^ (d - 1) <= M < 2 ^ d -> 53 <= d -> -1074 <= E + d - 53 ->
  exists mrs,
    shr_fexp 53 1024 M E lx = (mrs, E + (d - 53))
    /\ shr_m mrs = M / 2 ^ (d - 53)
    /\ (d = 53 -> mrs = shr_record_of_loc M lx).
Proof.
  intros Hd HM H53 Hlo. unfold shr_fexp.
  rewrite (@Zdigits2_eq M d HM Hd), fexp64.
  replace (Z.max (d + E - 53) (-1074) - E) with (d - 53) by lia.
  assert (0 <= M) by
    (assert (0 < 2 ^ (d - 1)) by (apply Z.pow_pos_nonneg; lia); lia).
  destruct (d - 53) as [|p|p] eqn:En; try lia; simpl shr.
  - eexists. split; [rewrite Z.add_0_r; reflexivity|].
    split; [|reflexivity].
    rewrite loc_of_record. change (2 ^ 0) with 1. now rewrite Z.div_1_r.
  - eexists. split; [reflexivity|]. split; [|lia].
    rewrite shr_m_iter by (rewrite loc_of_record; assumption).
    now rewrite loc_of_record.
Qed.

Lemma shifted_mantissa M d :
  53 <= d -> 2 ^ (d - 1) <= M < 2 ^ d ->
  2 ^ 52 <= M / 2 ^ (d - 53) < 2 ^ 53.
Proof.
  intros Hd [Hlo Hhi].
  assert (Hp : 0 < 2 ^ (d - 53)) by (apply Z.pow_pos_nonneg; lia).
  split.
  - apply Z.div_le_lower_bound; [assumption|].
    rewrite Z.mul_comm, <- Z.pow_add_r by lia.
    now replace (52 + (d - 53)) with (d - 1) by lia.
  - apply Z.div_lt_upper_bound; [assumption|].
    rewrite <- Z.pow_add_r by lia.
    now replace (d - 53 + 53) with d by lia.
Qed.

(** A mantissa [M] of [d] >= 53 bits at exponent [E], in the range of the
    normal numbers, rounds to a normal number whose mantissa is the
    mantissa cut to 53 bits or the next integer, whatever the bits that
    were dropped. *)
Lemma bra_finite sx M E lx d :
  53 <= d -> 2 ^ (d - 1) <= M < 2 ^ d ->
  -1074 <= E + d - 53 -> E + d - 52 <= 971 ->
  exists m e,
    binary_round_aux 53 1024 sx M E lx = S754_finite sx (Z.to_pos m) e
    /\ 2 ^ 52 <= m < 2 ^ 53
    /\ E + d - 53 <= e <= E + d - 52
    /\ (m * 2 ^ (e - (E + d - 53)) = M / 2 ^ (d - 53)
        \/ m * 2 ^ (e - (E + d - 53)) = M / 2 ^ (d - 53) + 1).
Proof.
  intros Hd HM Hlo Hhi.
  destruct (@shr_fexp_spec M E lx d ltac:(lia) HM Hd Hlo) as
    (mrs & E1 & Hm & _).
  pose proof (shifted_mantissa Hd HM) as Hm'.
  unfold binary_round_aux. rewrite E1.
  set (m1 := round_nearest_even (shr_m mrs) (loc_of_shr_record mrs)).
  assert (H1 : m1 = M / 2 ^ (d - 53) \/ m1 = M / 2 ^ (d - 53) + 1)
    by (subst m1; rewrite <- Hm; apply round_nearest_even_cases).
  set (m' := M / 2 ^ (d - 53)) in *.
  change (2 ^ 52) with 4503599627370496 in *.
  change (2 ^ 53) with 9007199254740992 in *.
  destruct (Z.eq_dec m1 9007199254740992) as [E53|N53].
  - assert (Hr : 2 ^ (54 - 1) <= m1 < 2 ^ 54).
    { rewrite E53. change (2 ^ (54 - 1)) with 9007199254740992.
      change (2 ^ 54) with 18014398509481984. lia. }
    destruct (@shr_fexp_spec m1 (E + (d - 53)) loc_Exact 54
                ltac:(lia) Hr ltac:(lia) ltac:(lia)) as (mrs2 & E2 & Hm2 & _).
    rewrite E2, Hm2, E53.
    change (9007199254740992 / 2 ^ (54 - 53)) with 4503599627370496.
    replace (E + (d - 53) + (54 - 53) <=? 1024 - 53) with true by
      (symmetry; apply Z.leb_le; lia).
    exists 4503599627370496, (E + (d - 53) + (54 - 53)).
    split; [reflexivity|]. split; [lia|]. split; [lia|].
    right. replace (E + (d - 53) + (54 - 53) - (E + d - 53)) with 1 by lia.
    change (2 ^ 1) with 2. lia.
  - assert (Hr : 2 ^ (53 - 1) <= m1 < 2 ^ 53).
    { change (2 ^ (53 - 1)) with 4503599627370496.
      change (2 ^ 53) with 9007199254740992. lia. }
    destruct (@shr_fexp_spec m1 (E + (d - 53)) loc_Exact 53
                ltac:(lia) Hr ltac:(lia) ltac:(lia)) as (mrs2 & E2 & Hm2 & _).
    rewrite E2, Hm2. change (2 ^ (53 - 53)) with 1. rewrite Z.div_1_r.
    destruct m1 as [|p|p] eqn:Ep; try lia.
    replace (E + (d - 53) + (53 - 53) <=? 1024 - 53) with true by
      (symmetry; apply Z.leb_le; lia).
    exists (Zpos p), (E + (d - 53) + (53 - 53)).
    split; [reflexivity|]. split; [lia|]. split; [lia|].
    replace (E + (d - 53) + (53 - 53) - (E + d - 53)) with 0 by lia.
    change (2 ^ 0) with 1. lia.
Qed.

(** Powers of two and values. *)
Lemma pw2_pos e : (0 < pw2 e)%R.
Proof. apply powerRZ_lt. lra. Qed.

Lemma pw2_add a b : pw2 (a + b) = (pw2 a * pw2 b)%R.
Proof. apply powerRZ_add. lra. Qed.

Lemma pw2_IZR k : 0 <= k -> IZR (2 ^ k) = pw2 k.
Proof.
  intros H. destruct k as [|p|p]; try lia.
  - reflexivity.
  - change (2 ^ Zpos p) with (Z.pow_pos 2 p). apply Zpower_pos_powerRZ.
Qed.

Lemma pw2_le a b : a <= b -> (pw2 a <= pw2 b)%R.
Proof.
  intros H. replace b with (a + (b - a)) by lia. rewrite pw2_add.
  rewrite <- (@pw2_IZR (b - a)) by lia.
  assert (1 <= 2 ^ (b - a)) by (apply (Z.pow_le_mono_r 2 0 (b - a)); lia).
  apply IZR_le in H0. pose proof (pw2_pos a). nra.
Qed.

Lemma F2R_shift m k e : 0 <= k -> F2R (m * 2 ^ k) e = F2R m (e + k).
Proof.
  intros H. unfold F2R. rewrite mult_IZR, pw2_IZR, pw2_add by assumption. ring.
Qed.

Lemma F2R_mono a b e : a <= b -> (F2R a e <= F2R b e)%R.
Proof.
  intros H. unfold F2R. apply IZR_le in H. pose proof (pw2_pos e). nra.
Qed.

Lemma eps_52 : (eps * IZR (2 ^ 52) = 1)%R.
Proof.
  unfold eps. rewrite pw2_IZR by lia. rewrite <- pw2_add. reflexivity.
Qed.

Lemma eps_pos : (0 < eps)%R.
Proof. apply pw2_pos. Qed.

(** The same in values: when the exact result [v] lies between [M] and
    [M + 1] units of 2^[E], the rounded number is [close] to it. *)
Lemma bra_real sx M E lx d v :
  53 <= d -> 2 ^ (d - 1) <= M < 2 ^ d ->
  -1074 <= E + d - 53 -> E + d - 52 <= 971 ->
  (F2R M E <= v <= F2R (M + 1) E)%R ->
  exists m e,
    binary_round_aux 53 1024 sx M E lx = S754_finite sx (Z.to_pos m) e
    /\ 2 ^ 52 <= m < 2 ^ 53
    /\ E + d - 53 <= e <= E + d - 52
    /\ close (F2R m e) v.
Proof.
  intros Hd HM Hlo Hhi Hv.
  destruct (@bra_finite sx M E lx d Hd HM Hlo Hhi) as
    (m & e & Eq & Hm & He & Hr).
  exists m, e. split; [exact Eq|]. split; [exact Hm|]. split; [exact He|].
  pose proof (shifted_mantissa Hd HM) as Hm'.
  set (n := d - 53) in *. set (m' := M / 2 ^ n) in *.
  assert (Hp : 0 < 2 ^ n) by (apply Z.pow_pos_nonneg; lia).
  assert (Hdiv : m' * 2 ^ n <= M /\ M + 1 <= (m' + 1) * 2 ^ n).
  { pose proof (Z.mul_div_le M (2 ^ n) Hp).
    pose proof (Z.mul_succ_div_gt M (2 ^ n) Hp). subst m'. lia. }
  assert (Hlo' : (F2R m' (E + n) <= v)%R).
  { rewrite <- F2R_shift by lia. eapply Rle_trans; [|apply Hv]. apply F2R_mono.
      lia. }
  assert (Hhi' : (v <= F2R (m' + 1) (E + n))%R).
  { rewrite <- F2R_shift by lia. eapply Rle_trans; [apply Hv|]. apply F2R_mono.
      lia. }
  assert (Hres : F2R m e = F2R m' (E + n) \/ F2R m e = F2R (m' + 1) (E + n)).
  { replace e with (E + n + (e - (E + d - 53))) by lia.
    rewrite <- F2R_shift by lia. destruct Hr as [-> | ->]; auto. }
  assert (Hgap : (F2R (m' + 1) (E + n) <= F2R m' (E + n) * (1 + eps))%R).
  { unfold F2R. rewrite plus_IZR. pose proof (pw2_pos (E + n)).
    pose proof eps_52. pose proof eps_pos.
    assert (IZR (2 ^ 52) <= IZR m')%R by (apply IZR_le; lia).
    nra. }
  pose proof eps_pos.
  assert (0 <= F2R m' (E + n))%R.
  { unfold F2R. pose proof (pw2_pos (E + n)).
    assert (0 <= IZR m')%R by
      (apply IZR_le; change (2 ^ 52) with 4503599627370496 in Hm'; lia).
    nra. }
  unfold close. destruct Hres as [-> | ->]; split; nra.
Qed.


Lemma log2_range M lo hi :
  1 <= lo -> 2 ^ (lo - 1) <= M < 2 ^ hi ->
  let d := Z.log2 M + 1 in
  lo <= d <= hi /\ 2 ^ (d - 1) <= M < 2 ^ d.
Proof.
  intros Hlo [H1 H2].
  assert (0 < M) by
    (assert (0 < 2 ^ (lo - 1)) by (apply Z.pow_pos_nonneg; lia); lia).
  pose proof (Z.log2_spec M H) as Hs.
  apply Z.log2_le_pow2 in H1; [|assumption].
  apply Z.log2_lt_pow2 in H2; [|assumption].
  cbv zeta. replace (Z.log2 M + 1 - 1) with (Z.log2 M) by lia.
  replace (Z.log2 M + 1) with (Z.succ (Z.log2 M)) by lia. lia.
Qed.

Lemma bra_range sx M E lx v lo hi :
  53 <= lo -> 2 ^ (lo - 1) <= M < 2 ^ hi ->
  -1074 <= E + lo - 53 -> E + hi - 52 <= 971 ->
  (F2R M E <= v <= F2R (M + 1) E)%R ->
  exists m e,
    binary_round_aux 53 1024 sx M E lx = S754_finite sx (Z.to_pos m) e
    /\ 2 ^ 52 <= m < 2 ^ 53
    /\ E + lo - 53 <= e <= E + hi - 52
    /\ close (F2R m e) v.
Proof.
  intros Hlo HM H1 H2 Hv.
  destruct (@log2_range M lo hi ltac:(lia) HM) as [Hd Hd'].
  destruct (@bra_real sx M E lx (Z.log2 M + 1) v ltac:(lia) Hd' ltac:(lia)
    ltac:(lia) Hv)
    as (m & e & Eq & Hm & He & Hr).
  exists m, e. split; [exact Eq|]. split; [exact Hm|]. split; [lia|exact Hr].
Qed.

Lemma iter_xO p n : Zpos (Pos.iter xO p n) = Zpos p * 2 ^ Zpos n.
Proof.
  induction n as [|n IH] using Pos.peano_ind.
  - simpl. lia.
  - rewrite Pos.iter_succ, Pos2Z.inj_xO, IH, Pos2Z.inj_succ, Z.pow_succ_r by
      lia. ring.
Qed.

Lemma shl_align_spec p ex ex' :
  ex' <= ex ->
  Zpos (fst (shl_align p ex ex')) = Zpos p * 2 ^ (ex - ex')
  /\ snd (shl_align p ex ex') = ex'.
Proof.
  intros H. unfold shl_align.
  destruct (ex' - ex) as [|q|q] eqn:Ed; try lia; simpl fst; simpl snd.
  - replace (ex - ex') with 0 by lia. change (2 ^ 0) with 1. lia.
  - rewrite iter_xO. replace (ex - ex') with (Zpos q) by lia. tauto.
Qed.

Lemma shl_align_id p ex ex' :
  ex <= ex' -> shl_align p ex ex' = (p, ex).
Proof.
  intros H. unfold shl_align.
  destruct (ex' - ex) as [|q|q] eqn:Ed; try lia; reflexivity.
Qed.

Lemma F2R_pos_exact p E :
  (F2R (Zpos p) E <= F2R (Zpos p) E <= F2R (Zpos p + 1) E)%R.
Proof. split; [lra|]. apply F2R_mono. lia. Qed.

(** [binary_round], which first pads a short mantissa to 53 bits, rounds
    an integer mantissa of any size in the same way. *)
Lemma binary_round_spec sx p E lo hi :
  1 <= lo -> 2 ^ (lo - 1) <= Zpos p < 2 ^ hi ->
  -1074 <= E + lo - 53 -> E + hi - 52 <= 971 ->
  exists m e,
    binary_round 53 1024 sx p E = S754_finite sx (Z.to_pos m) e
    /\ 2 ^ 52 <= m < 2 ^ 53
    /\ E + lo - 53 <= e <= E + hi - 52
    /\ close (F2R m e) (F2R (Zpos p) E).
Proof.
  intros Hlo HM H1 H2.
  destruct (@log2_range (Zpos p) lo hi Hlo HM) as [Hd Hd'].
  set (d := Z.log2 (Zpos p) + 1) in *.
  unfold binary_round.
  change (Zpos (digits2_pos p)) with (Zdigits2 (Zpos p)).
  rewrite (@Zdigits2_eq (Zpos p) d Hd' ltac:(lia)), fexp64.
  replace (Z.max (d + E - 53) (-1074)) with (E + d - 53) by lia.
  destruct (Z_lt_le_dec d 53) as [Hs|Hb].
  - destruct (@shl_align_spec p E (E + d - 53) ltac:(lia)) as [Hf Hsnd].
    destruct (shl_align p E (E + d - 53)) as [mz ez].
    cbn [fst snd] in Hf, Hsnd. subst ez.
    replace (E - (E + d - 53)) with (53 - d) in Hf by lia.
    assert (HM' : 2 ^ (53 - 1) <= Zpos mz < 2 ^ 53).
    { rewrite Hf. destruct Hd' as [Ha Hb].
      split.
      - replace (53 - 1) with ((d - 1) + (53 - d)) by lia.
        rewrite Z.pow_add_r by lia.
        apply Z.mul_le_mono_nonneg_r; [apply Z.pow_nonneg; lia|assumption].
      - replace 53 with (d + (53 - d)) at 2 by lia.
        rewrite Z.pow_add_r by lia.
        apply Z.mul_lt_mono_pos_r; [apply Z.pow_pos_nonneg; lia|assumption]. }
    destruct (@bra_range sx (Zpos mz) (E + d - 53) loc_Exact
      (F2R (Zpos mz) (E + d - 53)) 53 53
                ltac:(lia) HM' ltac:(lia) ltac:(lia) (F2R_pos_exact mz _))
      as (m & e & Eq & Hm & He & Hr).
    exists m, e. split; [exact Eq|]. split; [exact Hm|]. split; [lia|].
    rewrite Hf, F2R_shift in Hr by lia.
    now replace (E + d - 53 + (53 - d)) with E in Hr by lia.
  - rewrite shl_align_id by lia.
    destruct (@bra_range sx (Zpos p) E loc_Exact (F2R (Zpos p) E) d d
                ltac:(lia) Hd' ltac:(lia) ltac:(lia) (F2R_pos_exact p _))
      as (m & e & Eq & Hm & He & Hr).
    exists m, e. split; [exact Eq|]. split; [exact Hm|]. split; [lia|exact Hr].
Qed.


Lemma normal_valid s m e :
  2 ^ 52 <= m < 2 ^ 53 -> -1074 <= e <= 971 ->
  valid_binary (S754_finite s (Z.to_pos m) e) = true.
Proof.
  intros Hm He.
  unfold valid_binary, SpecFloat.bounded, SpecFloat.canonical_mantissa.
  change (Zpos (digits2_pos (Z.to_pos m))) with (Zdigits2 (Zpos (Z.to_pos m))).
  assert (0 < m) by (change (2 ^ 52) with 4503599627370496 in Hm; lia).
  rewrite Z2Pos.id by assumption.
  rewrite (@Zdigits2_eq m 53 Hm ltac:(lia)).
  change (fexp prec emax (53 + e)) with (fexp 53 1024 (53 + e)). rewrite fexp64.
  apply andb_true_intro. split.
  - apply Z.eqb_eq. lia.
  - apply Z.leb_le. change (emax - prec) with 971. lia.
Qed.

(** The operations of the code on positive normal numbers whose results
    stay in the range of the normal numbers: the conversion of a positive
    [int], the product, the quotient, the square root and the sum return a
    normal number that is [close] to the exact result. *)
Lemma b64_of_int_spec z hi :
  1 <= z < 2 ^ hi -> hi <= 1023 ->
  exists m e, normal (b64_of_int z) m e
    /\ -52 <= e <= hi - 52
    /\ close (F2R m e) (IZR z).
Proof.
  intros Hz Hhi. destruct z as [|p|p]; try lia.
  destruct (@binary_round_spec false p 0 1 hi ltac:(lia)
    ltac:(change (2 ^ (1 - 1)) with 1; lia)
              ltac:(lia) ltac:(lia)) as (m & e & Eq & Hm & He & Hr).
  exists m, e. split; [|split; [lia|]].
  - unfold normal, b64_of_int. cbn [binary_normalize].
    change (binary_round prec emax false p 0) with
      (binary_round 53 1024 false p 0).
    rewrite Eq. rewrite Prim2SF_SF2Prim by (apply normal_valid; lia).
    split; [reflexivity|]. split; [exact Hm|lia].
  - unfold F2R in Hr at 2. change (pw2 0) with 1%R in Hr.
    now rewrite Rmult_1_r in Hr.
Qed.

Lemma normal_pos x m e : normal x m e -> 0 < m.
Proof. intros (_ & H & _). change (2 ^ 52) with 4503599627370496 in H. lia. Qed.

Lemma F2R_mul mx ex my ey : F2R (mx * my) (ex + ey) = (F2R mx ex * F2R my ey)%R.
Proof. unfold F2R. rewrite mult_IZR, pw2_add. ring. Qed.

Lemma b64_mul_spec x y mx ex my ey :
  normal x mx ex -> normal y my ey ->
  -1074 <= ex + ey + 52 -> ex + ey + 54 <= 971 ->
  exists m e, normal (x * y)%float m e
    /\ ex + ey + 52 <= e <= ex + ey + 54
    /\ close (F2R m e) (F2R mx ex * F2R my ey).
Proof.
  intros Hx Hy Hlo Hhi.
  pose proof (normal_pos Hx) as Px. pose proof (normal_pos Hy) as Py.
  destruct Hx as (Ex & Hmx & Hex). destruct Hy as (Ey & Hmy & Hey).
  assert (HM : 2 ^ (105 - 1) <= mx * my < 2 ^ 106).
  { change (2 ^ (105 - 1)) with (2 ^ 52 * 2 ^ 52). change (2 ^ 106) with
      (2 ^ 53 * 2 ^ 53).
    change (2 ^ 52) with 4503599627370496 in *.
    change (2 ^ 53) with 9007199254740992 in *. nia. }
  assert (Hv :
    (F2R (mx * my) (ex + ey) <= F2R mx ex * F2R my ey <= F2R (mx * my + 1)
      (ex + ey))%R).
  { rewrite <- F2R_mul. split; [lra|]. apply F2R_mono. lia. }
  destruct (@bra_range false (mx * my) (ex + ey) loc_Exact _ 105 106
              ltac:(lia) HM ltac:(lia) ltac:(lia) Hv) as
                (m & e & Eq & Hm & He & Hr).
  exists m, e. split; [|split; [lia|exact Hr]].
  split; [|split; [exact Hm|lia]].
  rewrite mul_spec, Ex, Ey. unfold SF64mul, SFmul. cbn [xorb].
  rewrite Pos2Z.inj_mul, !Z2Pos.id by assumption.
  exact Eq.
Qed.

Lemma div_core mx ex my ey :
  2 ^ 52 <= mx < 2 ^ 53 -> 2 ^ 52 <= my < 2 ^ 53 ->
  -1074 <= ex - ey - 53 ->
  exists q r l,
    SFdiv_core_binary 53 1024 mx ex my ey = (q, ex - ey - 53, l)
    /\ mx * 2 ^ 53 = my * q + r /\ 0 <= r < my.
Proof.
  intros Hx Hy Hlo. unfold SFdiv_core_binary.
  rewrite (@Zdigits2_eq mx 53 Hx ltac:(lia)),
    (@Zdigits2_eq my 53 Hy ltac:(lia)), fexp64.
  cbv zeta.
  replace (Z.min (Z.max (53 + ex - (53 + ey) - 53) (-1074)) (ex - ey)) with
    (ex - ey - 53) by lia.
  replace (ex - ey - (ex - ey - 53)) with 53 by lia.
  rewrite Z.shiftl_mul_pow2 by lia.
  assert (my > 0) by (change (2 ^ 52) with 4503599627370496 in Hy; lia).
  pose proof (Z_div_mod (mx * 2 ^ 53) my H) as Hd.
  destruct (Z.div_eucl (mx * 2 ^ 53) my) as [q r].
  exists q, r, (new_location my r). split; [reflexivity|]. exact Hd.
Qed.

Lemma Rdiv_bounds (a b q r : R) :
  (0 < b -> 0 <= r < b -> a = b * q + r -> q <= a / b <= q + 1)%R.
Proof.
  intros Hb Hr ->. unfold Rdiv.
  replace ((b * q + r) * / b)%R with (q + r * / b)%R by (field; lra).
  assert (0 <= r * / b <= 1)%R.
  { assert (0 < / b)%R by (apply Rinv_0_lt_compat; lra).
    split; [nra|]. replace 1%R with (b * / b)%R by (field; lra). nra. }
  lra.
Qed.

Lemma b64_div_spec x y mx ex my ey :
  normal x mx ex -> normal y my ey ->
  -1074 <= ex - ey - 53 -> ex - ey - 51 <= 971 ->
  exists m e, normal (x / y)%float m e
    /\ ex - ey - 53 <= e <= ex - ey - 51
    /\ close (F2R m e) (F2R mx ex / F2R my ey).
Proof.
  intros Hx Hy Hlo Hhi.
  pose proof (normal_pos Hx) as Px. pose proof (normal_pos Hy) as Py.
  destruct Hx as (Ex & Hmx & Hex). destruct Hy as (Ey & Hmy & Hey).
  destruct (@div_core mx ex my ey Hmx Hmy Hlo) as (q & r & l & Ec & Hq & Hr).
  assert (HM : 2 ^ (53 - 1) <= q < 2 ^ 54).
  { change (2 ^ (53 - 1)) with 4503599627370496. change (2 ^ 54) with
      18014398509481984.
    change (2 ^ 53) with 9007199254740992 in *.
    change (2 ^ 52) with 4503599627370496 in *. nia. }
  assert (Hv :
    (F2R q (ex - ey - 53) <= F2R mx ex / F2R my ey <= F2R (q + 1)
      (ex - ey - 53))%R).
  { assert (E1 :
      (F2R mx ex / F2R my ey = (IZR (mx * 2 ^ 53) / IZR my) * pw2
        (ex - ey - 53))%R).
    { unfold F2R. rewrite mult_IZR, pw2_IZR by lia.
      replace ex with ((ex - ey - 53) + 53 + ey) at 1 by lia.
      rewrite !pw2_add. pose proof (pw2_pos ey). pose proof (pw2_pos 53).
      assert (0 < IZR my)%R by (apply IZR_lt; lia).
      field. split; lra. }
    rewrite E1. unfold F2R. rewrite plus_IZR.
    assert (Hb : (IZR q <= IZR (mx * 2 ^ 53) / IZR my <= IZR q + 1)%R).
    { apply Rdiv_bounds with (r := IZR r).
      - apply IZR_lt; lia.
      - split; [apply IZR_le|apply IZR_lt]; lia.
      - rewrite Hq, plus_IZR, mult_IZR. reflexivity. }
    pose proof (pw2_pos (ex - ey - 53)). nra. }
  destruct (@bra_range false q (ex - ey - 53) l _ 53 54
              ltac:(lia) HM ltac:(lia) ltac:(lia) Hv) as
                (m & e & Eq & Hm & He & Hrel).
  exists m, e. split; [|split; [lia|exact Hrel]].
  split; [|split; [exact Hm|lia]].
  rewrite div_spec, Ex, Ey. unfold SF64div, SFdiv. cbn [xorb].
  rewrite !Z2Pos.id by assumption.
  change (SFdiv_core_binary prec emax mx ex my ey) with
    (SFdiv_core_binary 53 1024 mx ex my ey).
  rewrite Ec. exact Eq.
Qed.

Lemma sqrt_core m e :
  2 ^ 52 <= m < 2 ^ 53 -> -1074 <= e / 2 - 26 ->
  exists q r l s,
    SFsqrt_core_binary 53 1024 m e = (q, e / 2 - 26, l)
    /\ 52 <= s <= 53 /\ e = 2 * (e / 2 - 26) + s
    /\ m * 2 ^ s = q * q + r /\ 0 <= r <= 2 * q /\ 0 <= q.
Proof.
  intros Hm Hlo. unfold SFsqrt_core_binary.
  rewrite (@Zdigits2_eq m 53 Hm ltac:(lia)), fexp64, !Z.div2_div.
  cbv zeta.
  replace ((53 + e + 1) / 2) with (e / 2 + 27)
    by (replace (53 + e + 1) with (e + 27 * 2) by lia; now rewrite Z.div_add by
      lia).
  replace (Z.min (Z.max (e / 2 + 27 - 53) (-1074)) (e / 2)) with (e / 2 - 26)
    by lia.
  set (s := e - 2 * (e / 2 - 26)).
  assert (Hs : s = 52 \/ s = 53) by
    (subst s; pose proof (Z.div_mod e 2 ltac:(lia));
    pose proof (Z.mod_pos_bound e 2 ltac:(lia)); lia).
  assert (Em : match s with Z0 => m | Zpos _ => Z.shiftl m s | Zneg _ => 0 end
    = m * 2 ^ s).
  { destruct Hs as [-> | ->]; now rewrite Z.shiftl_mul_pow2 by lia. }
  rewrite Em.
  assert (Hn : 0 <= m * 2 ^ s).
  { change (2 ^ 52) with 4503599627370496 in Hm.
    assert (0 < 2 ^ s) by (apply Z.pow_pos_nonneg; lia). nia. }
  pose proof (Z.sqrtrem_spec (m * 2 ^ s) Hn) as Hq.
  destruct (Z.sqrtrem (m * 2 ^ s)) as [q r].
  exists q, r,
    (if r =? 0 then loc_Exact else loc_Inexact (if r <=? q then Lt else Gt)), s.
  split; [reflexivity|]. split; [lia|]. split; [subst s; lia|].
  destruct Hq as [Hq Hr]. split; [exact Hq|]. split; [exact Hr|]. lia.
Qed.

Lemma b64_sqrt_spec x mx ex :
  normal x mx ex ->
  exists m e, normal (PrimFloat.sqrt x) m e
    /\ ex / 2 - 26 <= e <= ex / 2 - 25
    /\ close (F2R m e) (R_sqrt.sqrt (F2R mx ex)).
Proof.
  intros Hx. pose proof (normal_pos Hx) as Px.
  destruct Hx as (Ex & Hmx & Hex).
  assert (Hd : -537 <= ex / 2 <= 485).
  { pose proof (Z.div_mod ex 2 ltac:(lia)). pose proof
      (Z.mod_pos_bound ex 2 ltac:(lia)). lia. }
  destruct (@sqrt_core mx ex Hmx ltac:(lia)) as
    (q & r & l & s & Ec & Hs & He & Hq & Hr & Hq0).
  set (E := ex / 2 - 26) in *.
  assert (H2s : 2 ^ s = 2 ^ 52 \/ 2 ^ s = 2 ^ 53)
    by (assert (s = 52 \/ s = 53) as [-> | ->] by lia; auto).
  assert (HM : 2 ^ (53 - 1) <= q < 2 ^ 53).
  { change (2 ^ (53 - 1)) with 4503599627370496.
    change (2 ^ 53) with 9007199254740992 in *.
    change (2 ^ 52) with 4503599627370496 in *.
    destruct H2s as [H2s | H2s]; rewrite H2s in Hq; nia. }
  assert (Hv : (F2R q E <= R_sqrt.sqrt (F2R mx ex) <= F2R (q + 1) E)%R).
  { assert (E1 : F2R mx ex = (IZR (q * q + r) * (pw2 E * pw2 E))%R).
    { rewrite <- Hq, <- pw2_add. replace (E + E) with (2 * E) by lia.
      change (IZR (mx * 2 ^ s) * pw2 (2 * E))%R with (F2R (mx * 2 ^ s) (2 * E)).
      rewrite F2R_shift by lia. f_equal. lia. }
    pose proof (pw2_pos E) as HpE.
    assert (Hq' : (0 <= IZR q)%R) by (apply IZR_le; lia).
    assert (Hr' : (0 <= IZR r <= 2 * IZR q)%R).
    { split; [apply IZR_le; lia|]. rewrite <- mult_IZR. apply IZR_le; lia. }
    rewrite E1, plus_IZR, mult_IZR. unfold F2R. rewrite plus_IZR.
    split.
    - rewrite <- (sqrt_square (IZR q * pw2 E)) at 1 by nra.
      apply sqrt_le_1_alt. nra.
    - rewrite <- (sqrt_square ((IZR q + 1) * pw2 E)) by nra.
      apply sqrt_le_1_alt. nra. }
  destruct (@bra_range false q E l _ 53 53
              ltac:(lia) HM ltac:(lia) ltac:(lia) Hv) as
                (m & e & Eq & Hm & He' & Hrel).
  exists m, e. split; [|split; [lia|exact Hrel]].
  split; [|split; [exact Hm|lia]].
  rewrite sqrt_spec, Ex. unfold SF64sqrt, SFsqrt.
  rewrite Z2Pos.id by assumption.
  change (SFsqrt_core_binary prec emax mx ex) with
    (SFsqrt_core_binary 53 1024 mx ex).
  rewrite Ec. exact Eq.
Qed.

Lemma b64_add_spec x y mx ex my ey :
  normal x mx ex -> normal y my ey ->
  Z.max ex ey + 2 <= 971 ->
  exists m e, normal (x + y)%float m e
    /\ Z.max ex ey <= e <= Z.max ex ey + 2
    /\ close (F2R m e) (F2R mx ex + F2R my ey).
Proof.
  intros Hx Hy Hhi.
  pose proof (normal_pos Hx) as Px. pose proof (normal_pos Hy) as Py.
  destruct Hx as (Ex & Hmx & Hex). destruct Hy as (Ey & Hmy & Hey).
  set (ez := Z.min ex ey).
  destruct (@shl_align_spec (Z.to_pos mx) ex ez ltac:(subst ez; lia)) as [Ha _].
  destruct (@shl_align_spec (Z.to_pos my) ey ez ltac:(subst ez; lia)) as [Hb _].
  rewrite Z2Pos.id in Ha, Hb by assumption.
  set (a := fst (shl_align (Z.to_pos mx) ex ez)) in *.
  set (b := fst (shl_align (Z.to_pos my) ey ez)) in *.
  set (D := Z.max ex ey - ez).
  assert (HD : 0 <= D) by (subst D ez; lia).
  assert (HP : 1 <= 2 ^ D) by (apply (Z.pow_le_mono_r 2 0 D); lia).
  assert (HM : 2 ^ (53 + D - 1) <= Zpos (a + b) < 2 ^ (54 + D)).
  { rewrite Pos2Z.inj_add, Ha, Hb.
    replace (53 + D - 1) with (52 + D) by lia. rewrite !Z.pow_add_r by lia.
    change (2 ^ 54) with 18014398509481984.
    change (2 ^ 53) with 9007199254740992 in *.
    change (2 ^ 52) with 4503599627370496 in *.
    destruct (Z_le_dec ex ey) as [Hle|Hgt].
    - replace (ex - ez) with 0 by (subst ez; lia).
      replace (ey - ez) with D by (subst D ez; lia).
      change (2 ^ 0) with 1. nia.
    - replace (ey - ez) with 0 by (subst ez; lia).
      replace (ex - ez) with D by (subst D ez; lia).
      change (2 ^ 0) with 1. nia. }
  destruct (@binary_round_spec false (a + b) ez (53 + D) (54 + D)
              ltac:(lia) HM ltac:(subst D ez; lia) ltac:(subst D ez; lia))
    as (m & e & Eq & Hm & He & Hrel).
  exists m, e. split; [|split; [subst D; lia|]].
  - split; [|split; [exact Hm|subst D ez; lia]].
    rewrite add_spec, Ex, Ey. unfold SF64add, SFadd. cbn [cond_Zopp].
    fold ez. fold a. fold b. cbn [Z.add binary_normalize]. exact Eq.
  - replace (F2R mx ex + F2R my ey)%R with (F2R (Zpos (a + b)) ez);
      [exact Hrel|].
    rewrite Pos2Z.inj_add, Ha, Hb. unfold F2R at 1.
    rewrite plus_IZR, Rmult_plus_distr_r.
    change (IZR (mx * 2 ^ (ex - ez)) * pw2 ez)%R with
      (F2R (mx * 2 ^ (ex - ez)) ez).
    change (IZR (my * 2 ^ (ey - ez)) * pw2 ez)%R with
      (F2R (my * 2 ^ (ey - ez)) ez).
    rewrite !F2R_shift by (subst ez; lia).
    f_equal; f_equal; lia.
Qed.

End Rounding.

(** ** The vectors and the cosine in binary64 *)

Section Binary64.
Context {U : UnicodeDB} {P : PyRuntime binary64}.
Local Open Scope R_scope.

(** The value of a normal number. *)
Lemma normal_real x m e : normal x m e -> real_of x = F2R m e.
Proof.
  intros H. pose proof (normal_pos H) as Hp. destruct H as (E & _).
  unfold real_of. rewrite E. now rewrite Z2Pos.id.
Qed.

Lemma normal_finite x m e : normal x m e -> is_finite x = true.
Proof. intros (E & _). unfold is_finite. now rewrite E. Qed.

Lemma normal_F2R_lower x m e : normal x m e -> pw2 (e + 52) <= F2R m e.
Proof.
  intros (_ & Hm & _). rewrite pw2_add, <- (@pw2_IZR 52) by lia.
  unfold F2R. pose proof (pw2_pos e).
  assert (IZR (2 ^ 52) <= IZR m) by (apply IZR_le; lia). nra.
Qed.

Lemma normal_F2R_pos x m e : normal x m e -> 0 < F2R m e.
Proof.
  intros H. pose proof (normal_F2R_lower H). pose proof (pw2_pos (e + 52)). lra.
Qed.

Lemma pw2_le_inv a b : pw2 a <= pw2 b -> (a <= b)%Z.
Proof.
  intros H. destruct (Z_le_gt_dec a b) as [Hle|Hgt]; [exact Hle|].
  assert (H1 : pw2 (b + 1) <= pw2 a) by (apply pw2_le; lia).
  rewrite pw2_add in H1.
  assert (E1 : pw2 1 = 2) by (unfold pw2; simpl; lra).
  rewrite E1 in H1. pose proof (pw2_pos b). lra.
Qed.

Lemma normal_nonzero x m e : normal x m e -> PrimFloat.eqb x 0 = false.
Proof.
  intros (E & _). rewrite FloatAxioms.eqb_spec, E. reflexivity.
Qed.

Lemma of_int_zero : Prim2SF (b64_of_int 0) = S754_zero false.
Proof.
  unfold b64_of_int. cbn [binary_normalize]. now rewrite Prim2SF_SF2Prim.
Qed.

Lemma eps_value : eps = / 4503599627370496.
Proof.
  pose proof eps_52 as H. change (2 ^ 52)%Z with 4503599627370496%Z in H.
  apply (Rmult_eq_reg_r 4503599627370496); [|lra]. rewrite H. field.
Qed.

(** [k] roundings: (1 + [eps])^k is at most 1 + 2 k [eps] while k [eps] is
    at most a half. *)
Lemma one_eps : 1 <= 1 + eps.
Proof. pose proof eps_pos. lra. Qed.

Lemma pow_eps_ge1 k : 1 <= (1 + eps) ^ k.
Proof. apply pow_R1_Rle, one_eps. Qed.

Lemma pow_eps_mono j k : (j <= k)%nat -> (1 + eps) ^ j <= (1 + eps) ^ k.
Proof. apply Rle_pow, one_eps. Qed.

Lemma pow_eps_inv k : (1 + eps) ^ k * (1 - INR k * eps) <= 1.
Proof.
  induction k as [|k IH].
  - simpl. lra.
  - rewrite S_INR. simpl pow.
    pose proof (pow_eps_ge1 k). pose proof eps_pos. pose proof (pos_INR k).
    assert (0 <= (1 + eps) ^ k * ((INR k + 1) * (eps * eps))) by
      (apply Rmult_le_pos; [lra|apply Rmult_le_pos; [lra|nra]]).
    nra.
Qed.

Lemma pow_eps_bound k :
  INR k * eps <= 1 / 2 -> (1 + eps) ^ k <= 1 + 2 * INR k * eps.
Proof.
  intros H. pose proof (pow_eps_inv k). pose proof (pow_eps_ge1 k).
  pose proof eps_pos. pose proof (pos_INR k).
  assert (0 <= INR k * eps) by nra.
  set (x := INR k * eps) in *. set (y := (1 + eps) ^ k) in *.
  replace (2 * INR k * eps) with (2 * x) by (subst x; ring).
  assert (1 <= (1 + 2 * x) * (1 - x)) by nra.
  assert (y * (1 - x) <= (1 + 2 * x) * (1 - x)) by lra.
  apply Rmult_le_reg_r with (1 - x); lra.
Qed.

(** [sum] over positive normal numbers: the float that a left-to-right
    sum of [k] terms returns is within the factor (1 + [eps])^k of the sum
    of the values, as long as that stays far below the largest float. *)
Lemma sums_to_step s X k y m e :
  sums_to s X k -> normal y m e -> (e <= 900)%Z -> 0 <= X ->
  X * (1 + eps) ^ k <= pw2 950 ->
  sums_to (s + y)%float (X + F2R m e) (S k).
Proof.
  intros Hs Hy He HX Hb.
  pose proof (normal_F2R_pos Hy) as Py. pose proof (pow_eps_ge1 k) as Hk.
  pose proof eps_pos as Hu.
  destruct Hs as [[Ez ->]|(ms & es & Hn & H1 & H2)].
  - right. exists m, e. split.
    + destruct Hy as (Ey & Hr). split; [|exact Hr].
      rewrite add_spec, Ez, Ey. reflexivity.
    + assert (1 <= (1 + eps) ^ S k) by apply pow_eps_ge1.
      split; nra.
  - pose proof (normal_F2R_lower Hn) as Hlow.
    pose proof (normal_F2R_pos Hn) as Ps.
    assert (Hes : (es + 52 <= 950)%Z) by (apply pw2_le_inv; lra).
    destruct (@b64_add_spec s y ms es m e Hn Hy ltac:(lia))
      as (m' & e' & Hn' & _ & [Ha Hb']).
    right. exists m', e'. split; [exact Hn'|].
    change ((1 + eps) ^ S k) with ((1 + eps) * (1 + eps) ^ k). split.
    + apply Rle_trans with ((F2R ms es + F2R m e) * (1 + eps)); [exact Ha|].
      assert (F2R ms es + F2R m e <= (X + F2R m e) * (1 + eps) ^ k) by nra.
      nra.
    + assert (X + F2R m e <= (F2R ms es + F2R m e) * (1 + eps) ^ k) by nra.
      apply Rle_trans with ((F2R ms es + F2R m e) * (1 + eps) ^ k);
        [assumption|].
      assert (0 <= F2R m' e') by (pose proof (normal_F2R_pos Hn'); lra).
      nra.
Qed.

Lemma fold_fadd_sums A (g : A -> float) keys : forall s X k,
  sums_to s X k -> 0 <= X ->
  (forall key, In key keys -> exists m e, normal (g key) m e /\ (e <= 900)%Z) ->
  (X + Rsum (map (fun key => real_of (g key)) keys))
    * (1 + eps) ^ (k + List.length keys) <= pw2 950 ->
  sums_to (fold_left (fun acc key => (acc + g key)%float) keys s)
          (X + Rsum (map (fun key => real_of (g key)) keys))
          (k + List.length keys).
Proof.
  induction keys as [|key keys IH]; intros s X k Hs HX Hg Hb.
  - simpl. rewrite Rplus_0_r, Nat.add_0_r. exact Hs.
  - destruct (Hg key (or_introl eq_refl)) as (m & e & Hn & He).
    pose proof (normal_F2R_pos Hn) as Py.
    assert (Hrest : 0 <= Rsum (map (fun key => real_of (g key)) keys)).
    { apply Rsum_nonneg. intros x Hx.
      destruct (Hg x (or_intror Hx)) as (mx & ex & Hnx & _).
      rewrite (normal_real Hnx). pose proof (normal_F2R_pos Hnx). lra. }
    cbn [fold_left map Rsum fold_right List.length] in *.
    rewrite (normal_real Hn) in *.
    replace (k + S (List.length keys))%nat with (S k + List.length keys)%nat in
      * by lia.
    replace (X +
      (F2R m e + fold_right Rplus 0 (map (fun key => real_of (g key)) keys)))
      with ((X + F2R m e) + Rsum (map (fun key => real_of (g key)) keys)) in *
      by (unfold Rsum; ring).
    apply IH; [|lra|intros k0 Hk0; apply Hg; now right|exact Hb].
    apply sums_to_step; [exact Hs|exact Hn|exact He|exact HX|].
    apply Rle_trans with (2 := Hb).
    pose proof (pow_eps_ge1 k).
    pose proof (pow_eps_mono (k := S k + List.length keys) (j := k) ltac:(lia)).
    assert (0 <= (X + F2R m e + Rsum (map (fun key => real_of (g key)) keys)))
      by lra.
    apply Rmult_le_compat; lra.
Qed.

(** No count exceeds the number of tokens, nor does the number of keys. *)
Lemma incr_bound counts token B :
  (0 <= B)%Z ->
  Forall (fun kv => (snd kv <= B)%Z) counts ->
  Forall (fun kv : str * Z => (snd kv <= B + 1)%Z) (incr counts token)
  /\ (List.length (incr counts token) <= S (List.length counts))%nat.
Proof.
  intros HB. induction counts as [|[k n] rest IH]; simpl; intros H.
  - split; [repeat constructor; simpl; lia|lia].
  - inversion H as [|? ? Hn Hrest]; subst. simpl in Hn.
    destruct (IH Hrest) as [IH1 IH2].
    destruct (str_eqb token k); simpl.
    + split; [|lia]. constructor; [simpl; lia|].
      eapply Forall_impl; [|exact Hrest]. simpl. intros; lia.
    + split; [|lia]. constructor; [simpl; lia|exact IH1].
Qed.

Lemma fold_incr_bound tokens : forall counts B,
  (0 <= B)%Z ->
  Forall (fun kv => (snd kv <= B)%Z) counts ->
  Forall (fun kv : str * Z => (snd kv <= B + Z.of_nat (List.length tokens))%Z)
         (fold_left incr tokens counts)
  /\ (List.length (fold_left incr tokens counts)
      <= List.length counts + List.length tokens)%nat.
Proof.
  induction tokens as [|t tokens IH]; intros counts B HB H.
  - simpl. rewrite Z.add_0_r. split; [exact H|lia].
  - destruct (incr_bound t HB H) as [H1 H2].
    destruct (IH _ (B + 1)%Z ltac:(lia) H1) as [IH1 IH2].
    cbn [fold_left List.length]. split; [|lia].
    eapply Forall_impl; [|exact IH1]. simpl. intros; lia.
Qed.

Lemma Counter_bound tokens :
  Forall (fun kv : str * Z => (snd kv <= Z.of_nat (List.length tokens))%Z)
         (Counter tokens)
  /\ (List.length (Counter tokens) <= List.length tokens)%nat.
Proof.
  destruct (@fold_incr_bound tokens [] 0%Z ltac:(lia) (Forall_nil _)) as
    [H1 H2].
  split; [exact H1|exact H2].
Qed.

Lemma sum_squares_bound counts B :
  Forall (fun kv : str * Z => (0 <= snd kv <= B)%Z) counts ->
  (sum_squares counts <= Z.of_nat (List.length counts) * (B * B))%Z.
Proof.
  induction 1 as [|[k n] rest Hn _ IH].
  - reflexivity.
  - rewrite sum_squares_cons. cbn [List.length]. simpl in Hn. nia.
Qed.

(** The weight of a token: four roundings of the count, of the sum of the
    squares, of its root and of the quotient leave the square of the weight
    within the factor (1 + [eps])^7 of c^2 / S. *)
Lemma weight_real S c y r N a x t :
  1 <= t -> 0 < S -> 0 < c -> 0 < y -> 0 <= r -> 0 < N -> 0 < a -> 0 < x ->
  r * r = y ->
  y <= S * t -> S <= y * t ->
  N <= r * t -> r <= N * t ->
  a <= c * t -> c <= a * t ->
  x <= a / N * t -> a / N <= x * t ->
  S * (x * x) <= c * c * t ^ 7 /\ c * c <= S * (x * x) * t ^ 7.
Proof.
  intros Ht HS Hc Hy Hr HN Ha Hx Er Hy1 Hy2 HN1 HN2 Ha1 Ha2 Hx1 Hx2.
  assert (E : a / N * N = a) by (field; lra).
  assert (H1 : x * N <= a * t).
  { replace (a * t) with (a / N * t * N) by (rewrite <- E at 2; ring).
    apply Rmult_le_compat_r; lra. }
  assert (H2 : a <= x * N * t).
  { rewrite <- E at 1. replace (x * N * t) with (x * t * N) by ring.
    apply Rmult_le_compat_r; lra. }
  assert (Pt : 0 < t) by lra.
  assert (H3 : (x * N) * (x * N) <= (a * t) * (a * t))
    by (apply Rmult_le_compat; nra).
  assert (H4 : (a * t) * (a * t) <= (c * t * t) * (c * t * t))
    by (apply Rmult_le_compat; nra).
  assert (H5 : y <= (N * t) * (N * t))
    by (rewrite <- Er; apply Rmult_le_compat; nra).
  assert (H6 : (N * N) <= (r * t) * (r * t))
    by (apply Rmult_le_compat; nra).
  assert (H7 : c * c <= (a * t) * (a * t))
    by (apply Rmult_le_compat; nra).
  assert (H8 : a * a <= (x * N * t) * (x * N * t))
    by (apply Rmult_le_compat; nra).
  assert (P2 : 0 < t * t) by nra.
  assert (P3 : 0 < t * t * t) by nra.
  assert (P4 : 0 < t * t * t * t) by nra.
  replace (t ^ 7) with ((t * t * t) * (t * t * t * t)) by ring.
  assert (Pxx : 0 < x * x) by nra.
  assert (Pcc : 0 < c * c) by nra.
  assert (PNN : 0 < N * N) by nra.
  split.
  - assert (HS' : S <= N * N * (t * t * t)) by nra.
    assert (Hxn : x * x * (N * N) <= c * c * (t * t * t * t)) by nra.
    apply Rle_trans with (N * N * (t * t * t) * (x * x)).
    + apply Rmult_le_compat_r; lra.
    + replace (N * N * (t * t * t) * (x * x))
        with (x * x * (N * N) * (t * t * t)) by ring.
      replace (c * c * (t * t * t * (t * t * t * t)))
        with (c * c * (t * t * t * t) * (t * t * t)) by ring.
      apply Rmult_le_compat_r; lra.
  - assert (HN' : N * N <= S * (t * t * t)) by nra.
    assert (Hcx : c * c <= x * x * (N * N) * (t * t * t * t)) by nra.
    apply Rle_trans with (x * x * (N * N) * (t * t * t * t)); [exact Hcx|].
    replace (S * (x * x) * (t * t * t * (t * t * t * t)))
      with (x * x * (S * (t * t * t)) * (t * t * t * t)) by ring.
    apply Rmult_le_compat_r; [lra|].
    apply Rmult_le_compat_l; lra.
Qed.

Lemma norm_of_normal counts :
  well_formed counts -> counts <> [] ->
  (sum_squares counts < 2 ^ 189)%Z ->
  exists mS eS mN eN,
    normal (@norm_of binary64 counts) mN eN
    /\ (-52 <= eN <= 43)%Z
    /\ close (F2R mS eS) (IZR (sum_squares counts))
    /\ close (F2R mN eN) (sqrt (F2R mS eS))
    /\ 0 < F2R mS eS.
Proof.
  intros Hw Hne HS.
  pose proof (sum_squares_positive Hw Hne) as HS0.
  destruct (@b64_of_int_spec (sum_squares counts) 189 ltac:(lia) ltac:(lia))
    as (mS & eS & HnS & HeS & HcS).
  destruct (b64_sqrt_spec HnS) as (mN & eN & HnN & HeN & HcN).
  exists mS, eS, mN, eN.
  assert (Hd : (-26 <= eS / 2 <= 68)%Z).
  { pose proof (Z.div_mod eS 2 ltac:(lia)).
    pose proof (Z.mod_pos_bound eS 2 ltac:(lia)). lia. }
  split; [|split; [lia|split; [exact HcS|split; [exact HcN|]]]].
  - unfold norm_of. cbn [fsqrt of_int fis0 binary64].
    rewrite (normal_nonzero HnN). exact HnN.
  - apply (normal_F2R_pos HnS).
Qed.

Lemma norm_of_sqrt counts :
  well_formed counts -> counts <> [] ->
  (sum_squares counts < 2 ^ 189)%Z ->
  @norm_of binary64 counts =
  @fsqrt binary64 (@of_int binary64 (sum_squares counts)).
Proof.
  intros Hw Hne HS.
  pose proof (sum_squares_positive Hw Hne) as HS0.
  destruct (@b64_of_int_spec (sum_squares counts) 189 ltac:(lia) ltac:(lia))
    as (mS & eS & HnS & _).
  destruct (b64_sqrt_spec HnS) as (mN & eN & HnN & _).
  unfold norm_of. cbn [fsqrt of_int fis0 binary64].
  now rewrite (normal_nonzero HnN).
Qed.

Lemma weight_ok counts c :
  well_formed counts -> counts <> [] ->
  (sum_squares counts < 2 ^ 189)%Z -> (1 <= c < 2 ^ 63)%Z ->
  weight_of (sum_squares counts) c
            (@fdiv binary64 (@of_int binary64 c) (@norm_of binary64 counts)).
Proof.
  intros Hw Hne HS Hc.
  pose proof (sum_squares_positive Hw Hne) as HS0.
  destruct (norm_of_normal Hw Hne HS)
    as (mS & eS & mN & eN & HnN & HeN & HcS & HcN & PS).
  destruct (@b64_of_int_spec c 63 Hc ltac:(lia)) as (mc & ec & Hnc & Hec & Hcc).
  destruct (@b64_div_spec _ _ mc ec mN eN Hnc HnN ltac:(lia) ltac:(lia))
    as (m & e & Hn & He & Hcl).
  exists m, e. split; [exact Hn|]. split; [lia|].
  rewrite mult_IZR.
  pose proof (normal_F2R_pos HnN). pose proof (normal_F2R_pos Hnc).
  pose proof (normal_F2R_pos Hn).
  destruct HcS, HcN, Hcc, Hcl.
  apply weight_real with (y := F2R mS eS) (r := sqrt (F2R mS eS))
                         (N := F2R mN eN) (a := F2R mc ec); try assumption.
  - apply one_eps.
  - apply IZR_lt. lia.
  - apply IZR_lt. lia.
  - apply sqrt_pos.
  - apply sqrt_sqrt. lra.
Qed.

(** So the squares of the weights of a text that has a token sum to 1 up
    to the factor (1 + [eps])^7, from either side. *)
Lemma weights_sum S (wf : Z -> float) (L : dict Z) :
  (forall kv, In kv L -> weight_of S (snd kv) (wf (snd kv))) ->
  IZR S * Rsum (map (fun kv => sq_real (wf (snd kv))) L)
    <= IZR (sum_squares L) * (1 + eps) ^ 7
  /\ IZR (sum_squares L)
     <= IZR S * Rsum (map (fun kv => sq_real (wf (snd kv))) L) * (1 + eps) ^ 7.
Proof.
  induction L as [|[k c] L IH]; intros H.
  - change (sum_squares []) with 0%Z. simpl. lra.
  - destruct IH as [IH1 IH2]; [intros kv Hkv; apply H; now right|].
    destruct (H (k, c) (or_introl eq_refl)) as (m & e & Hn & _ & H1 & H2).
    rewrite sum_squares_cons, plus_IZR. cbn [map Rsum fold_right snd] in *.
    unfold sq_real at 1 3. rewrite (normal_real Hn).
    fold (Rsum (map (fun kv : str * Z => sq_real (wf (snd kv))) L)).
    split; lra.
Qed.

Lemma normalise_values counts :
  values (@_normalise binary64 counts) =
  map (fun kv => @fdiv binary64 (@of_int binary64 (snd kv))
    (@norm_of binary64 counts))
      counts.
Proof.
  unfold _normalise, values. rewrite map_map. apply map_ext. now intros [k n].
Qed.

Lemma normalise_unit_b64 counts :
  well_formed counts -> counts <> [] ->
  (sum_squares counts < 2 ^ 189)%Z ->
  Forall (fun kv => (snd kv < 2 ^ 63)%Z) counts ->
  let v := @_normalise binary64 counts in
  Forall (fun w => exists m e, normal w m e /\ (-148 <= e <= 12)%Z) (values v)
  /\ Rsum (map sq_real (values v)) <= (1 + eps) ^ 7
  /\ 1 <= Rsum (map sq_real (values v)) * (1 + eps) ^ 7.
Proof.
  intros Hw Hne HS Hb v. subst v.
  pose proof (sum_squares_positive Hw Hne) as HS0.
  assert (Hok : forall kv, In kv counts ->
            weight_of (sum_squares counts) (snd kv)
              (@fdiv binary64 (@of_int binary64 (snd kv))
                (@norm_of binary64 counts))).
  { intros kv Hkv. apply weight_ok; try assumption.
    destruct Hw as [_ Hw]. rewrite Forall_forall in Hw, Hb.
    specialize (Hw kv Hkv). specialize (Hb kv Hkv). lia. }
  rewrite normalise_values. split.
  - apply Forall_map. apply Forall_forall. intros kv Hkv.
    destruct (Hok kv Hkv) as (m & e & Hn & He & _). now exists m, e.
  - rewrite map_map.
    destruct (@weights_sum (sum_squares counts)
                (fun c => @fdiv binary64 (@of_int binary64 c)
                  (@norm_of binary64 counts))
                counts Hok) as [H1 H2].
    apply IZR_lt in HS0.
    set (A := Rsum _) in *. set (K := (1 + eps) ^ 7) in *.
    split.
    + apply Rmult_le_reg_l with (IZR (sum_squares counts)); lra.
    + apply Rmult_le_reg_l with (IZR (sum_squares counts)); [lra|].
      rewrite Rmult_1_r, <- Rmult_assoc. exact H2.
Qed.

Lemma tokens_bound tokens :
  (Z.of_nat (List.length tokens) < 2 ^ 63)%Z ->
  (sum_squares (Counter tokens) < 2 ^ 189)%Z
  /\ Forall (fun kv : str * Z => (snd kv < 2 ^ 63)%Z) (Counter tokens).
Proof.
  intros Hn. destruct (Counter_bound tokens) as [H1 H2].
  destruct (Counter_well_formed tokens) as [_ H3].
  split.
  - assert (H : Forall (fun kv : str * Z =>
                          (0 <= snd kv <= Z.of_nat (List.length tokens))%Z)
                       (Counter tokens)).
    { rewrite Forall_forall in *. intros kv Hkv.
      specialize (H1 kv Hkv). specialize (H3 kv Hkv). lia. }
    apply sum_squares_bound in H.
    set (n := Z.of_nat (List.length tokens)) in *.
    assert (Hl : (Z.of_nat (List.length (Counter tokens)) <= n)%Z) by
      (subst n; lia).
    change (2 ^ 189)%Z with (2 ^ 63 * (2 ^ 63 * 2 ^ 63))%Z.
    set (B := (2 ^ 63)%Z) in *.
    assert (0 <= n)%Z by (subst n; lia).
    assert (0 <= Z.of_nat (List.length (Counter tokens)))%Z by lia.
    nia.
  - eapply Forall_impl; [|exact H1]. simpl. intros; lia.
Qed.

Lemma encode_unit_vector text :
  (Z.of_nat (List.length (@_tokenize U text)) < 2 ^ 63)%Z ->
  unit_vector (@encode_one U binary64 text).
Proof.
  intros Hn. rewrite encode_one_eq. split; [|].
  - pose proof (@normalise_keys binary64 (Counter (_tokenize text))) as E.
    cbn [pyfloat binary64] in E. rewrite E. apply Counter_well_formed.
  - destruct (tokens_bound _ Hn) as [HS Hb].
    destruct (_tokenize text) as [|t ts] eqn:Et.
    + split; [constructor|]. simpl. pose proof (pow_eps_ge1 7). lra.
    + rewrite <- Et in *.
      assert (Hne : Counter (_tokenize text) <> [])
        by (apply Counter_not_nil; rewrite Et; discriminate).
      destruct (normalise_unit_b64 (Counter_well_formed _) Hne HS Hb) as
        (H1 & H2 & _).
      split; [|exact H2].
      unfold values in H1. rewrite Forall_map in H1. exact H1.
Qed.

(** Subscripts of a vector and sums over its keys. *)
Lemma item_of_in (d : dict float) k :
  In k (keys d) -> In (k, @item_of binary64 d k) d.
Proof.
  unfold item_of. induction d as [|[k0 v] rest IH]; simpl; [contradiction|].
  intros H. destruct (str_eqb k k0) eqn:E.
  - apply str_eqb_eq in E. subst. now left.
  - right. apply IH. destruct H as [H|H]; [|exact H].
    subst. rewrite str_eqb_refl in E. discriminate.
Qed.

Lemma item_of_sum_b64 (h : float -> R) (d : dict float) :
  NoDup (keys d) ->
  Rsum (map (fun k => h (@item_of binary64 d k)) (keys d)) =
  Rsum (map h (values d)).
Proof.
  induction d as [|[k v] rest IH]; simpl; intros Hnd; [reflexivity|].
  inversion Hnd as [|? ? Hk Hnd']; subst.
  rewrite <- IH by assumption. f_equal.
  - unfold item_of. simpl. now rewrite str_eqb_refl.
  - f_equal. apply map_ext_in. intros k' Hk'. unfold item_of. simpl.
    assert (E : str_eqb k' k = false)
      by (apply str_eqb_neq; intros ->; contradiction).
    now rewrite E.
Qed.

Lemma Rsum_scale A (c : R) (h : A -> R) l :
  Rsum (map (fun x => c * h x) l) = c * Rsum (map h l).
Proof.
  induction l as [|x l IH]; simpl; [lra|]. rewrite IH. lra.
Qed.

Lemma sq_real_nonneg w : 0 <= sq_real w.
Proof. unfold sq_real. apply Rle_0_sqr. Qed.

Lemma common_keys_facts (a b : dict float) :
  NoDup (keys a) ->
  NoDup (@common_keys binary64 P a b)
  /\ incl (@common_keys binary64 P a b) (keys a)
  /\ incl (@common_keys binary64 P a b) (keys b).
Proof.
  intros Hnd. unfold common_keys.
  pose proof (set_iter_perm (filter (contains_key b) (keys a))) as Hp.
  split; [|split].
  - apply (Permutation_NoDup (Permutation_sym Hp)). now apply NoDup_filter.
  - intros k Hk. apply (Permutation_in _ Hp) in Hk.
    now apply filter_In in Hk.
  - intros k Hk. apply (Permutation_in _ Hp) in Hk.
    apply filter_In in Hk. now apply contains_key_in.
Qed.

Lemma unit_vector_item v k :
  unit_vector v -> In k (keys v) ->
  exists m e, normal (@item_of binary64 v k) m e /\ (-148 <= e <= 12)%Z.
Proof.
  intros (_ & Hv & _) Hk. apply item_of_in in Hk.
  rewrite Forall_forall in Hv. exact (Hv _ Hk).
Qed.

Lemma unit_vector_sum v l :
  unit_vector v -> NoDup l -> incl l (keys v) ->
  Rsum (map (fun k => sq_real (@item_of binary64 v k)) l) <= (1 + eps) ^ 7.
Proof.
  intros (Hnd & _ & Hs) Hl Hincl.
  apply Rle_trans with (2 := Hs).
  rewrite <- (@item_of_sum_b64 sq_real v Hnd).
  apply (@Rsum_incl _ (fun k => sq_real (@item_of binary64 v k)));
    [intros; apply sq_real_nonneg|exact Hl|exact Hincl].
Qed.

(** The cosine is a finite number, not below 0, and within the factor
    (1 + [eps])^(n + 1) of the dot product of the two vectors, [n] being the
    number of common keys; the dot product of two vectors of [encode] is at
    most (1 + [eps])^7 (the products are at most the half sums of the
    squares). *)
Lemma sums_to_finite c X n :
  sums_to c X n -> 0 <= X ->
  is_finite c = true /\ PrimFloat.leb (b64_of_int 0) c = true
  /\ 0 <= real_of c
  /\ real_of c <= X * (1 + eps) ^ n /\ X <= real_of c * (1 + eps) ^ n.
Proof.
  intros [[Ez ->]|(m & e & Hn & H1 & H2)] HX.
  - unfold is_finite, real_of. rewrite leb_spec, of_int_zero, Ez.
    repeat split; try reflexivity; lra.
  - pose proof (normal_F2R_pos Hn). rewrite (normal_real Hn).
    split; [apply (normal_finite Hn)|]. split; [|repeat split; lra].
    destruct Hn as (E & _). rewrite leb_spec, of_int_zero, E. reflexivity.
Qed.

Lemma cosine_close (a b : dict float) :
  unit_vector a -> unit_vector b ->
  let n := List.length (@common_keys binary64 P a b) in
  INR (n + 8) * eps <= 1 / 2 ->
  let c := @_cosine_similarity binary64 P a b in
  is_finite c = true /\ PrimFloat.leb (b64_of_int 0) c = true
  /\ 0 <= real_of c
  /\ real_of c <= dot a b * (1 + eps) ^ (n + 1)
  /\ dot a b <= real_of c * (1 + eps) ^ (n + 1)
  /\ 0 <= dot a b <= (1 + eps) ^ 7.
Proof.
  intros Ha Hb n Hn c.
  destruct (@common_keys_facts a b (proj1 Ha)) as (Hnd & Ia & Ib).
  assert (Ed : dot a b =
    Rsum (map
      (fun k => real_of (@item_of binary64 a k) * real_of
        (@item_of binary64 b k))
              (@common_keys binary64 P a b))).
  { unfold dot, common_keys. symmetry. apply Rsum_perm, Permutation_map,
      set_iter_perm. }
  subst c. set (ck := @common_keys binary64 P a b) in *.
  set (g := fun key =>
    (@item_of binary64 a key * @item_of binary64 b key)%float).
  set (h := fun key => real_of (@item_of binary64 a key) * real_of
    (@item_of binary64 b key)).
  fold h in Ed.
  pose proof eps_pos as Hu.
  assert (Hg : forall key, In key ck ->
            exists m e, normal (g key) m e /\ (e <= 900)%Z
              /\ real_of (g key) <= (1 + eps) * h key
              /\ h key <= (1 + eps) * real_of (g key)
              /\ 0 <= h key
                 <= (sq_real (@item_of binary64 a key)
                     + sq_real (@item_of binary64 b key)) / 2).
  { intros key Hk.
    destruct (@unit_vector_item a key Ha (Ia _ Hk)) as (ma & ea & Hna & Hea).
    destruct (@unit_vector_item b key Hb (Ib _ Hk)) as (mb & eb & Hnb & Heb).
    destruct (@b64_mul_spec _ _ ma ea mb eb Hna Hnb ltac:(lia) ltac:(lia))
      as (m & e & Hm & He & [Hc1 Hc2]).
    change (normal (g key) m e) in Hm.
    exists m, e. split; [exact Hm|]. split; [lia|].
    rewrite (normal_real Hm). unfold sq_real, h.
    rewrite (normal_real Hna), (normal_real Hnb).
    pose proof (Rle_0_sqr (F2R ma ea - F2R mb eb)) as Hsq. unfold Rsqr in Hsq.
    pose proof (normal_F2R_pos Hna). pose proof (normal_F2R_pos Hnb).
    repeat split; try lra. nra. }
  set (X := Rsum (map (fun key => real_of (g key)) ck)).
  assert (HX0 : 0 <= X).
  { apply Rsum_nonneg. intros key Hk.
    destruct (Hg key Hk) as (m & e & Hm & _).
    rewrite (normal_real Hm). pose proof (normal_F2R_pos Hm). lra. }
  assert (HE0 : 0 <= dot a b).
  { rewrite Ed. apply Rsum_nonneg. intros key Hk.
    destruct (Hg key Hk) as (m & e & _ & _ & _ & _ & H & _). exact H. }
  assert (HE7 : dot a b <= (1 + eps) ^ 7).
  { rewrite Ed.
    apply Rle_trans with
      (Rsum (map (fun key => (sq_real (@item_of binary64 a key)
                              + sq_real (@item_of binary64 b key)) / 2) ck)).
    - apply Rsum_le. intros key Hk.
      destruct (Hg key Hk) as (m & e & _ & _ & _ & _ & _ & H). exact H.
    - rewrite Rsum_half_sum.
      pose proof (@unit_vector_sum a ck Ha Hnd Ia).
      pose proof (@unit_vector_sum b ck Hb Hnd Ib). lra. }
  assert (HX1 : X <= (1 + eps) * dot a b).
  { rewrite Ed, <- Rsum_scale. apply Rsum_le. intros key Hk.
    destruct (Hg key Hk) as (m & e & _ & _ & H & _). exact H. }
  assert (HX2 : dot a b <= (1 + eps) * X).
  { rewrite Ed. unfold X. rewrite <- Rsum_scale. apply Rsum_le. intros key Hk.
    destruct (Hg key Hk) as (m & e & _ & _ & _ & H & _). exact H. }
  assert (Hpow : (1 + eps) ^ (n + 8) <= 2).
  { pose proof (pow_eps_bound _ Hn). lra. }
  assert (Hs : sums_to (@_cosine_similarity binary64 P a b) X n).
  { pose proof (@fold_fadd_sums _ g ck (@of_int binary64 0) 0 0%nat) as Hf.
    rewrite Rplus_0_l in Hf. apply Hf.
    - left. split; [apply of_int_zero|reflexivity].
    - lra.
    - intros key Hk. destruct (Hg key Hk) as (m & e & Hm & He & _).
      now exists m, e.
    - fold X. cbn [Nat.add]. fold n.
      apply Rle_trans with ((1 + eps) ^ 8 * (1 + eps) ^ n).
      + apply Rmult_le_compat_r; [pose proof (pow_eps_ge1 n); lra|].
        change ((1 + eps) ^ 8) with ((1 + eps) * (1 + eps) ^ 7).
        apply Rle_trans with (1 := HX1). apply Rmult_le_compat_l; lra.
      + rewrite <- pow_add. rewrite Nat.add_comm.
        apply Rle_trans with 2; [exact Hpow|].
        assert (E1 : pw2 1 = 2) by (unfold pw2; simpl; lra).
        rewrite <- E1. apply pw2_le. lia. }
  destruct (sums_to_finite Hs HX0) as (F1 & F2 & F3 & F4 & F5).
  pose proof (pow_eps_ge1 n) as Hn1.
  split; [exact F1|]. split; [exact F2|]. split; [exact F3|].
  replace (n + 1)%nat with (S n) by lia.
  change ((1 + eps) ^ S n) with ((1 + eps) * (1 + eps) ^ n).
  split; [|split; [|split; assumption]].
  - apply Rle_trans with (1 := F4). rewrite <- Rmult_assoc.
    apply Rmult_le_compat_r; lra.
  - apply Rle_trans with (1 := HX2).
    replace (real_of (@_cosine_similarity binary64 P a b) *
      ((1 + eps) * (1 + eps) ^ n))
      with ((1 + eps) *
        (real_of (@_cosine_similarity binary64 P a b) * (1 + eps) ^ n)) by ring.
    apply Rmult_le_compat_l; lra.
Qed.

(** The bounds in numbers. *)
Lemma tolerance k :
  (Z.of_nat k <= 2 ^ 51)%Z ->
  (1 + eps) ^ k <= 1 + IZR (Z.of_nat k) / 2251799813685248
  /\ ((Z.of_nat k <= 2 ^ 21)%Z -> (1 + eps) ^ k <= 1 + / 1000000000).
Proof.
  intros Hk. rewrite <- INR_IZR_INZ.
  assert (Hi : INR k <= 2251799813685248).
  { rewrite INR_IZR_INZ. apply IZR_le. exact Hk. }
  pose proof (pos_INR k) as H0.
  assert (Hh : INR k * eps <= 1 / 2) by (rewrite eps_value; lra).
  pose proof (pow_eps_bound _ Hh) as Hb.
  set (y := (1 + eps) ^ k) in *. rewrite eps_value in Hb.
  split; [lra|]. intros Hs.
  assert (INR k <= 2097152) by (rewrite INR_IZR_INZ; apply IZR_le; exact Hs).
  lra.
Qed.

Lemma encode_length text :
  (List.length (@encode_one U binary64 text) <= List.length
    (_tokenize text))%nat.
Proof.
  rewrite encode_one_eq. unfold _normalise. rewrite length_map.
  apply Counter_bound.
Qed.

Lemma common_keys_length (a b : dict float) :
  NoDup (keys a) ->
  (List.length (@common_keys binary64 P a b) <= List.length a)%nat.
Proof.
  intros Hnd. destruct (@common_keys_facts a b Hnd) as (H1 & H2 & _).
  replace (List.length a) with (List.length (keys a)) by apply length_map.
  now apply NoDup_incl_length.
Qed.

Lemma cosine_encode_b64 ta tb :
  let n := Z.of_nat (List.length (_tokenize ta)) in
  (n < 2 ^ 50)%Z ->
  (Z.of_nat (List.length (_tokenize tb)) < 2 ^ 63)%Z ->
  let c := @_cosine_similarity binary64 P (encode_one ta) (encode_one tb) in
  is_finite c = true
  /\ PrimFloat.leb (b64_of_int 0) c = true
  /\ 0 <= real_of c <= 1 + IZR (n + 8) / 2251799813685248
  /\ ((n <= 2 ^ 20)%Z -> real_of c <= 1 + / 1000000000).
Proof.
  intros n Hn Hb c.
  assert (Ha : unit_vector (@encode_one U binary64 ta))
    by (apply encode_unit_vector; fold n; lia).
  pose proof (@encode_unit_vector tb Hb) as Hub.
  pose proof (@common_keys_length (encode_one ta) (encode_one tb) (proj1 Ha))
    as Hl.
  pose proof (encode_length ta) as Hl'.
  set (k := List.length
    (@common_keys binary64 P (encode_one ta) (encode_one tb))) in *.
  assert (Hk' : (k <= List.length (_tokenize ta))%nat)
    by (eapply Nat.le_trans; [exact Hl|exact Hl']).
  assert (Hk : (Z.of_nat (k + 8) <= n + 8)%Z) by (subst n; lia).
  destruct (@tolerance (k + 8) ltac:(change (2 ^ 51)%Z with 2251799813685248%Z;
              change (2 ^ 50)%Z with 1125899906842624%Z in Hn; lia)) as [T1 T2].
  assert (Hh : INR (k + 8) * eps <= 1 / 2).
  { rewrite eps_value, INR_IZR_INZ.
    assert (IZR (Z.of_nat (k + 8)) <= 2251799813685248)
      by (apply IZR_le; change (2 ^ 50)%Z with 1125899906842624%Z in Hn; lia).
    lra. }
  destruct (@cosine_close (@encode_one U binary64 ta)
    (@encode_one U binary64 tb) Ha Hub Hh) as (F1 & F2 & F3 & F4 & _ & F6 & F7).
  fold k in F4. fold c in F1, F2, F3, F4.
  assert (Hc : real_of c <= (1 + eps) ^ (k + 8)).
  { apply Rle_trans with (1 := F4).
    assert (E : (1 + eps) ^ (k + 8) = (1 + eps) ^ 7 * (1 + eps) ^ (k + 1))
      by (rewrite <- pow_add; f_equal; lia).
    rewrite E.
    apply Rmult_le_compat_r; [pose proof (pow_eps_ge1 (k + 1)); lra|exact F7]. }
  split; [exact F1|]. split; [exact F2|]. split; [split; [exact F3|]|].
  - apply Rle_trans with (1 := Hc). apply Rle_trans with (1 := T1).
    apply Rplus_le_compat_l. apply Rmult_le_compat_r; [lra|].
    apply IZR_le. exact Hk.
  - intros Hs. apply Rle_trans with (1 := Hc). apply T2.
    change (2 ^ 20)%Z with 1048576%Z in Hs. change (2 ^ 21)%Z with 2097152%Z.
    lia.
Qed.

Lemma encode_squares_b64 text :
  (Z.of_nat (List.length (_tokenize text)) < 2 ^ 63)%Z ->
  _tokenize text <> [] ->
  let v := @encode_one U binary64 text in
  Forall (fun w => is_finite w = true /\ 0 < real_of w) (values v)
  /\ Rabs (Rsum (map sq_real (values v)) - 1) <= / 1000000000.
Proof.
  intros Hn Hne v. subst v. rewrite encode_one_eq.
  destruct (tokens_bound _ Hn) as [HS Hb].
  destruct (normalise_unit_b64 (Counter_well_formed _)
              (Counter_not_nil Hne) HS Hb) as (H1 & H2 & H3).
  split.
  - eapply Forall_impl; [|exact H1]. intros w (m & e & Hw & _).
    split; [apply (normal_finite Hw)|].
    rewrite (normal_real Hw). apply (normal_F2R_pos Hw).
  - destruct (@tolerance 7
      ltac:(change (2 ^ 51)%Z with 2251799813685248%Z; lia))
      as [_ T]. specialize (T ltac:(change (2 ^ 21)%Z with 2097152%Z; lia)).
    set (A := Rsum _) in *. set (K := (1 + eps) ^ 7) in *.
    pose proof (pow_eps_ge1 7) as HK. fold K in HK.
    apply Rabs_le. split; [|lra].
    assert (0 <= A) by nra. nra.
Qed.

Lemma f099_b64 :
  is_finite (@f099 binary64) = true
  /\ PrimFloat.leb (b64_of_int 0) (@f099 binary64) = true
  /\ 0 <= real_of (@f099 binary64) <= 1.
Proof.
  assert (E : Prim2SF (@f099 binary64) = S754_finite false 8917127262193582
    (-53))
    by (vm_compute; reflexivity).
  unfold is_finite, real_of. rewrite leb_spec, of_int_zero, E.
  split; [reflexivity|]. split; [reflexivity|].
  unfold F2R.
  assert (H : pw2 (-53) * IZR (2 ^ 53) = 1)
    by (rewrite pw2_IZR, <- pw2_add by lia; reflexivity).
  change (2 ^ 53)%Z with 9007199254740992%Z in H.
  pose proof (pw2_pos (-53)). nra.
Qed.

Lemma confidence_b64 (self : @FoodRecognitionEngine binary64) description top_k
  r :
  reachable self ->
  let n := Z.of_nat (List.length (_tokenize description)) in
  (n < 2 ^ 50)%Z ->
  Forall (fun it =>
            (Z.of_nat (List.length (_tokenize (_item_representation it)))
             < 2 ^ 63)%Z) (_reference_items self) ->
  In r (recognise self description top_k) ->
  is_finite (confidence r) = true
  /\ PrimFloat.leb (b64_of_int 0) (confidence r) = true
  /\ 0 <= real_of (confidence r) <= 1 + IZR (n + 8) / 2251799813685248
  /\ ((n <= 2 ^ 20)%Z -> real_of (confidence r) <= 1 + / 1000000000).
Proof.
  intros Hr n Hn Hitems Hin.
  apply recognise_in_scored in Hin.
  rewrite (scored_aligned _ (reachable_aligned Hr)) in Hin.
  apply in_map_iff in Hin as (it & <- & Hit). cbn [confidence expected_result].
  rewrite Forall_forall in Hitems. specialize (Hitems it Hit).
  pose proof
    (@cosine_encode_b64 description (_item_representation it) Hn Hitems) as C.
  cbv zeta in C. fold n in C.
  unfold expected_confidence, cosine_of.
  destruct (matches it description); [|exact C].
  destruct (flt _ _); [|exact C].
  destruct f099_b64 as (F1 & F2 & F3 & F4).
  split; [exact F1|]. split; [exact F2|].
  assert (0 <= IZR (n + 8) / 2251799813685248).
  { apply Rmult_le_pos; [apply IZR_le; subst n; lia|lra]. }
  split; [lra|]. intros _. lra.
Qed.

Lemma near_one c K :
  0 <= c -> c <= K -> 1 <= c * K -> K <= 1 + / 1000000000 ->
  Rabs (c - 1) <= / 1000000000.
Proof.
  intros H0 H1 H2 H3. apply Rabs_le. split; [|lra]. nra.
Qed.

Lemma dot_self (v : dict float) :
  NoDup (keys v) -> dot v v = Rsum (map sq_real (values v)).
Proof.
  intros Hnd. unfold dot.
  rewrite filter_all by (intros k Hk; now apply contains_key_iff).
  apply (@item_of_sum_b64 sq_real v Hnd).
Qed.

Lemma shared_keys_permutation (a b : dict float) :
  NoDup (keys a) -> NoDup (keys b) ->
  Permutation (filter (contains_key b) (keys a))
              (filter (contains_key a) (keys b)).
Proof.
  intros Na Nb. apply NoDup_Permutation; try now apply NoDup_filter.
  intros k. rewrite !filter_In, !contains_key_iff. tauto.
Qed.

Lemma dot_sym (a b : dict float) :
  NoDup (keys a) -> NoDup (keys b) -> dot a b = dot b a.
Proof.
  intros Na Nb. unfold dot.
  rewrite (Rsum_perm (Permutation_map _ (@shared_keys_permutation a b Na Nb))).
  f_equal. apply map_ext. intros k. apply Rmult_comm.
Qed.

Lemma fold_left_map A B C (f : A -> B -> A) (g : C -> B) l : forall a,
  fold_left f (map g l) a = fold_left (fun acc x => f acc (g x)) l a.
Proof. induction l as [|x l IH]; intros a; simpl; [reflexivity|apply IH]. Qed.

Lemma cosine_self_b64 text :
  let n := Z.of_nat (List.length (_tokenize text)) in
  (0 < n <= 2 ^ 20)%Z ->
  let c := @_cosine_similarity binary64 P (encode_one text) (encode_one text) in
  is_finite c = true /\ Rabs (real_of c - 1) <= / 1000000000.
Proof.
  intros n Hn c.
  change (2 ^ 20)%Z with 1048576%Z in Hn.
  assert (Hn63 : (n < 2 ^ 63)%Z) by
    (change (2 ^ 63)%Z with 9223372036854775808%Z; lia).
  assert (Hne : _tokenize text <> [])
    by (intros E; subst n; rewrite E in Hn; simpl in Hn; lia).
  pose proof (@encode_unit_vector text Hn63) as Hv.
  pose proof
    (@common_keys_length (encode_one text) (encode_one text) (proj1 Hv)) as Hl.
  pose proof (encode_length text) as Hl'.
  set (k := List.length
    (@common_keys binary64 P (encode_one text) (encode_one text))) in *.
  assert (Hk' : (k <= List.length (_tokenize text))%nat)
    by (eapply Nat.le_trans; [exact Hl|exact Hl']).
  destruct (@tolerance (k + 8) ltac:(change (2 ^ 51)%Z with 2251799813685248%Z;
              subst n; lia)) as [_ T].
  specialize (T ltac:(change (2 ^ 21)%Z with 2097152%Z; subst n; lia)).
  assert (Hh : INR (k + 8) * eps <= 1 / 2).
  { rewrite eps_value, INR_IZR_INZ.
    assert (IZR (Z.of_nat (k + 8)) <= 2251799813685248)
      by (apply IZR_le; subst n; lia).
    lra. }
  destruct (@cosine_close (@encode_one U binary64 text)
    (@encode_one U binary64 text)
              Hv Hv Hh) as (F1 & _ & F3 & F4 & F5 & _ & F7).
  fold k in F4, F5. fold c in F1, F3, F4, F5.
  rewrite (@dot_self _ (proj1 Hv)) in *.
  destruct (tokens_bound _ Hn63) as [HS Hb].
  destruct (normalise_unit_b64 (Counter_well_formed _)
              (Counter_not_nil Hne) HS Hb) as (_ & _ & H3).
  rewrite <- encode_one_eq in H3.
  set (A := Rsum _) in *.
  assert (E : (1 + eps) ^ (k + 8) = (1 + eps) ^ 7 * (1 + eps) ^ (k + 1))
    by (rewrite <- pow_add; f_equal; lia).
  pose proof (pow_eps_ge1 (k + 1)) as G1. pose proof (pow_eps_ge1 7) as G7.
  split; [exact F1|].
  apply near_one with (K := (1 + eps) ^ (k + 8)); [exact F3| | |exact T].
  - rewrite E. apply Rle_trans with (1 := F4).
    apply Rmult_le_compat_r; lra.
  - rewrite E. apply Rle_trans with (1 := H3).
    apply Rle_trans with (real_of c * (1 + eps) ^ (k + 1) * (1 + eps) ^ 7).
    + apply Rmult_le_compat_r; lra.
    + right. ring.
Qed.

Lemma squares_sum_b64 text :
  let n := Z.of_nat (List.length (_tokenize text)) in
  (0 < n <= 2 ^ 20)%Z ->
  let s := fold_left PrimFloat.add
             (map (fun w => (w * w)%float)
               (values (@encode_one U binary64 text)))
             (b64_of_int 0) in
  is_finite s = true /\ Rabs (real_of s - 1) <= / 1000000000.
Proof.
  intros n Hn s.
  change (2 ^ 20)%Z with 1048576%Z in Hn.
  assert (Hn63 : (n < 2 ^ 63)%Z) by
    (change (2 ^ 63)%Z with 9223372036854775808%Z; lia).
  assert (Hne : _tokenize text <> [])
    by (intros E; subst n; rewrite E in Hn; simpl in Hn; lia).
  destruct (tokens_bound _ Hn63) as [HS Hb].
  destruct (normalise_unit_b64 (Counter_well_formed _)
              (Counter_not_nil Hne) HS Hb) as (H1 & H2 & H3).
  rewrite <- encode_one_eq in H1, H2, H3.
  subst s. rewrite fold_left_map.
  set (vs := values (@encode_one U binary64 text)) in *.
  set (g := fun w : float => (w * w)%float).
  pose proof eps_pos as Hu.
  assert (Hg : forall w, In w vs ->
            exists m e, normal (g w) m e /\ (e <= 900)%Z
              /\ real_of (g w) <= (1 + eps) * sq_real w
              /\ sq_real w <= (1 + eps) * real_of (g w)).
  { intros w Hw. rewrite Forall_forall in H1.
    destruct (H1 w Hw) as (mw & ew & Hnw & Hew).
    destruct (@b64_mul_spec _ _ mw ew mw ew Hnw Hnw ltac:(lia) ltac:(lia))
      as (m & e & Hm & He & [Hc1 Hc2]).
    change (normal (g w) m e) in Hm.
    exists m, e. split; [exact Hm|]. split; [lia|].
    rewrite (normal_real Hm). unfold sq_real. rewrite (normal_real Hnw).
    split; lra. }
  set (A := Rsum (map sq_real vs)) in *.
  set (X := Rsum (map (fun w => real_of (g w)) vs)).
  assert (HX0 : 0 <= X).
  { apply Rsum_nonneg. intros w Hw. destruct (Hg w Hw) as (m & e & Hm & _).
    rewrite (normal_real Hm). pose proof (normal_F2R_pos Hm). lra. }
  assert (HX1 : X <= (1 + eps) * A).
  { unfold A. rewrite <- Rsum_scale. apply Rsum_le. intros w Hw.
    destruct (Hg w Hw) as (m & e & _ & _ & H & _). exact H. }
  assert (HX2 : A <= (1 + eps) * X).
  { unfold A, X. rewrite <- Rsum_scale. apply Rsum_le. intros w Hw.
    destruct (Hg w Hw) as (m & e & _ & _ & _ & H). exact H. }
  set (k := List.length vs).
  assert (Hk' : (k <= List.length (_tokenize text))%nat).
  { subst k vs. unfold values. rewrite length_map. apply encode_length. }
  destruct (@tolerance (k + 8) ltac:(change (2 ^ 51)%Z with 2251799813685248%Z;
              subst n; lia)) as [_ T].
  specialize (T ltac:(change (2 ^ 21)%Z with 2097152%Z; subst n; lia)).
  pose proof (pow_eps_ge1 k) as Gk. pose proof (pow_eps_ge1 7) as G7.
  assert (E : (1 + eps) ^ (k + 8) = (1 + eps) ^ 7 *
    ((1 + eps) * (1 + eps) ^ k)).
  { replace (k + 8)%nat with (7 + S k)%nat by lia. now rewrite pow_add. }
  assert (Hs : sums_to
    (fold_left (fun acc w => (acc + g w)%float) vs (b64_of_int 0)) X k).
  { pose proof (@fold_fadd_sums _ g vs (b64_of_int 0) 0 0%nat) as Hf.
    rewrite Rplus_0_l in Hf. apply Hf.
    - left. split; [apply of_int_zero|reflexivity].
    - lra.
    - intros w Hw. destruct (Hg w Hw) as (m & e & Hm & He & _). now exists m, e.
    - fold X. cbn [Nat.add]. fold k.
      apply Rle_trans with ((1 + eps) ^ (k + 8)).
      + rewrite E.
        apply Rle_trans with ((1 + eps) * A * (1 + eps) ^ k).
        * apply Rmult_le_compat_r; lra.
        * apply Rle_trans with ((1 + eps) * (1 + eps) ^ 7 * (1 + eps) ^ k);
            [|right; ring].
          apply Rmult_le_compat_r; [lra|]. apply Rmult_le_compat_l; lra.
      + apply Rle_trans with 2; [lra|].
        assert (E1 : pw2 1 = 2) by (unfold pw2; simpl; lra).
        rewrite <- E1. apply pw2_le. lia. }
  destruct (sums_to_finite Hs HX0) as (F1 & _ & F3 & F4 & F5).
  set (c := real_of _) in *.
  split; [exact F1|].
  apply near_one with (K := (1 + eps) ^ (k + 8)); [exact F3| | |exact T].
  - rewrite E. apply Rle_trans with (1 := F4).
    apply Rle_trans with ((1 + eps) * A * (1 + eps) ^ k).
    + apply Rmult_le_compat_r; lra.
    + apply Rle_trans with ((1 + eps) * (1 + eps) ^ 7 * (1 + eps) ^ k);
        [|right; ring].
      apply Rmult_le_compat_r; [lra|]. apply Rmult_le_compat_l; lra.
  - rewrite E. apply Rle_trans with (1 := H3).
    apply Rle_trans with ((1 + eps) * X * (1 + eps) ^ 7).
    + apply Rmult_le_compat_r; lra.
    + apply Rle_trans with ((1 + eps) * (c * (1 + eps) ^ k) * (1 + eps) ^ 7);
        [|right; ring].
      apply Rmult_le_compat_r; [lra|]. apply Rmult_le_compat_l; lra.
Qed.

End Binary64.

(** ** The two orders of the arguments *)

Section Orders.
Context {U : UnicodeDB} (P P' : PyRuntime binary64).
Local Open Scope R_scope.

(** Both orders of the arguments, each with its own order of iteration,
    are within (1 + [eps])^(n + 1) of the same dot product. *)
Lemma cosine_symmetric_b64 ta tb :
  (Z.of_nat (List.length (_tokenize ta)) < 2 ^ 20)%Z ->
  (Z.of_nat (List.length (_tokenize tb)) < 2 ^ 20)%Z ->
  let c := @_cosine_similarity binary64 P (encode_one ta) (encode_one tb) in
  let c' := @_cosine_similarity binary64 P' (encode_one tb) (encode_one ta) in
  real_of c <= real_of c' * (1 + / 1000000000)
  /\ real_of c' <= real_of c * (1 + / 1000000000).
Proof.
  intros Ha Hb c c'.
  change (2 ^ 20)%Z with 1048576%Z in Ha, Hb.
  assert (Ha63 : (Z.of_nat (List.length (_tokenize ta)) < 2 ^ 63)%Z)
    by (change (2 ^ 63)%Z with 9223372036854775808%Z; lia).
  assert (Hb63 : (Z.of_nat (List.length (_tokenize tb)) < 2 ^ 63)%Z)
    by (change (2 ^ 63)%Z with 9223372036854775808%Z; lia).
  pose proof (@encode_unit_vector U ta Ha63) as Va.
  pose proof (@encode_unit_vector U tb Hb63) as Vb.
  set (a := @encode_one U binary64 ta) in *.
  set (b := @encode_one U binary64 tb) in *.
  pose proof (@common_keys_length P a b (proj1 Va)) as Hl.
  pose proof (@encode_length U ta) as Hl'. fold a in Hl'.
  set (k := List.length (@common_keys binary64 P a b)) in *.
  assert (Hk' : (k <= List.length (_tokenize ta))%nat)
    by (eapply Nat.le_trans; [exact Hl|exact Hl']).
  assert (Ek : List.length (@common_keys binary64 P' b a) = k).
  { subst k. unfold common_keys.
    rewrite (Permutation_length (@set_iter_perm _ P' _)).
    rewrite (Permutation_length (@set_iter_perm _ P _)).
    apply Permutation_length, shared_keys_permutation; [apply Vb|apply Va]. }
  assert (Hh : INR (k + 8) * eps <= 1 / 2).
  { rewrite eps_value, INR_IZR_INZ.
    assert (IZR (Z.of_nat (k + 8)) <= 2251799813685248) by (apply IZR_le; lia).
    lra. }
  destruct (@cosine_close P a b Va Vb Hh) as (_ & _ & F3 & F4 & F5 & _).
  assert (Hh' : INR (List.length (@common_keys binary64 P' b a) + 8) * eps <= 1
    / 2)
    by (rewrite Ek; exact Hh).
  destruct (@cosine_close P' b a Vb Va Hh') as (_ & _ & G3 & G4 & G5 & _).
  rewrite Ek in G4, G5. fold k in F4, F5.
  rewrite (@dot_sym b a (proj1 Vb) (proj1 Va)) in G4, G5.
  fold c in F3, F4, F5. fold c' in G3, G4, G5.
  destruct (@tolerance ((k + 1) + (k + 1))
              ltac:(change (2 ^ 51)%Z with 2251799813685248%Z; lia)) as [_ T].
  specialize (T ltac:(change (2 ^ 21)%Z with 2097152%Z; lia)).
  rewrite pow_add in T.
  set (t := (1 + eps) ^ (k + 1)) in *.
  assert (Ht : 1 <= t) by apply pow_eps_ge1.
  set (D := dot a b) in *.
  split.
  - apply Rle_trans with (D * t); [exact F4|].
    apply Rle_trans with (real_of c' * t * t).
    + apply Rmult_le_compat_r; lra.
    + rewrite Rmult_assoc. apply Rmult_le_compat_l; lra.
  - apply Rle_trans with (D * t); [exact G4|].
    apply Rle_trans with (real_of c * t * t).
    + apply Rmult_le_compat_r; lra.
    + rewrite Rmult_assoc. apply Rmult_le_compat_l; lra.
Qed.

End Orders.

(** C4: the vector that [encode] returns for a text holds, for every
    distinct token, its number of occurrences divided by the norm, which is
    the square root of the sum of the squared counts and is never zero; for
    a text without tokens the vector is empty and the divisor is 1.0.  In
    binary64, for a text with a token (and fewer than 2^63 of them, more
    than a list can hold), the norm is that square root, every weight is a
    positive finite number, and the squares of the weights sum to 1 within
    1e-9, as real numbers; so does their sum computed in binary64, for a
    text of up to 2^20 tokens. *)
Theorem encode_normalised (U : UnicodeDB) (F : PyFloat) (L : PyFloatLaws F)
    (text : str) :
  let counts := Counter (_tokenize text) in
  (forall token,
     count_of counts token =
     Z.of_nat (count_occ str_dec (_tokenize text) token))
  /\ @encode_one U F text =
     map (fun kv => (fst kv, fdiv (of_int (snd kv)) (norm_of counts))) counts
  /\ @norm_of F counts =
     (let root := fsqrt (of_int (sum_squares counts)) in
      if fis0 root then f1 else root)
  /\ fis0 (@norm_of F counts) = false
  /\ (_tokenize text = [] ->
        @encode_one U F text = [] /\ @norm_of F counts = f1)
  /\ (let n := Z.of_nat (List.length (_tokenize text)) in
      let v := @encode_one U binary64 text in
      ((0 < n < 2 ^ 63)%Z ->
         @norm_of binary64 counts =
           @fsqrt binary64 (@of_int binary64 (sum_squares counts))
         /\ Forall (fun w => is_finite w = true /\ (0 < real_of w)%R)
                   (values v)
         /\ (Rabs (Rsum (map sq_real (values v)) - 1) <= / 1000000000)%R)
      /\ ((0 < n <= 2 ^ 20)%Z ->
            let s := fold_left (@fadd binary64)
                       (map (fun w => @fmul binary64 w w) (values v))
                       (@of_int binary64 0) in
            is_finite s = true
            /\ (Rabs (real_of s - 1) <= / 1000000000)%R)).
Proof.
  intros counts. split; [|split; [|split; [|split; [|split]]]].
  - intros token. apply Counter_count.
  - rewrite encode_one_eq. unfold _normalise. apply map_ext. now intros [k n].
  - reflexivity.
  - apply norm_of_nonzero.
  - intros E. rewrite encode_one_eq. subst counts. rewrite E.
    split; [reflexivity|]. apply norm_of_nil.
  - intros n v. split.
    + intros Hn.
      assert (Hne : _tokenize text <> [])
        by (intros E; subst n; rewrite E in Hn; simpl in Hn; lia).
      split.
      * destruct (@tokens_bound (_tokenize text) (proj2 Hn)) as [HS _].
        apply norm_of_sqrt;
          [apply Counter_well_formed|now apply Counter_not_nil|exact HS].
      * apply encode_squares_b64; [exact (proj2 Hn)|exact Hne].
    + intros Hn. now apply squares_sum_b64.
Qed.

(** C6 (amended): in binary64, for two texts (the first of fewer than 2^50
    tokens, the second of fewer than 2^63), the cosine of the vectors that
    [encode] produced is a finite number, [0.0 <= cosine] holds, and its
    value is at most 1 + (n + 8) / 2^51, [n] being the number of tokens of
    the first text: at most 1 + 1e-9 for up to 2^20 tokens.  The same holds
    of every confidence that [recognise] returns, the override included.
    (The value can exceed 1, see [cosine_binary64_above_one].) *)
Theorem cosine_bounds (U : UnicodeDB) (P : PyRuntime binary64) :
  (forall ta tb,
     let n := Z.of_nat (List.length (_tokenize ta)) in
     (n < 2 ^ 50)%Z ->
     (Z.of_nat (List.length (_tokenize tb)) < 2 ^ 63)%Z ->
     let c := @_cosine_similarity binary64 P (encode_one ta) (encode_one tb) in
     is_finite c = true
     /\ @fle binary64 (@of_int binary64 0) c = true
     /\ (0 <= real_of c <= 1 + IZR (n + 8) / 2251799813685248)%R
     /\ ((n <= 2 ^ 20)%Z -> (real_of c <= 1 + / 1000000000)%R))
  /\ (forall (self : @FoodRecognitionEngine binary64) description top_k r,
        reachable self ->
        let n := Z.of_nat (List.length (_tokenize description)) in
        (n < 2 ^ 50)%Z ->
        Forall (fun it =>
                  (Z.of_nat (List.length
                               (_tokenize (_item_representation it)))
                   < 2 ^ 63)%Z) (_reference_items self) ->
        In r (recognise self description top_k) ->
        is_finite (confidence r) = true
        /\ @fle binary64 (@of_int binary64 0) (confidence r) = true
        /\ (0 <= real_of (confidence r)
            <= 1 + IZR (n + 8) / 2251799813685248)%R
        /\ ((n <= 2 ^ 20)%Z ->
            (real_of (confidence r) <= 1 + / 1000000000)%R)).
Proof.
  split.
  - intros ta tb. apply cosine_encode_b64.
  - intros self description top_k r. apply confidence_b64.
Qed.

(** X3: In binary64 the cosine does not depend on the order of its two
    arguments, nor on the order in which the sets are iterated, beyond
    rounding: for two texts of fewer than 2^20 tokens, the two values are
    within the factor 1 + 1e-9 of each other. *)
Theorem cosine_symmetric (U : UnicodeDB) (P P' : PyRuntime binary64)
    (ta tb : str) :
  (Z.of_nat (List.length (_tokenize ta)) < 2 ^ 20)%Z ->
  (Z.of_nat (List.length (_tokenize tb)) < 2 ^ 20)%Z ->
  let c := @_cosine_similarity binary64 P (encode_one ta) (encode_one tb) in
  let c' := @_cosine_similarity binary64 P' (encode_one tb) (encode_one ta) in
  is_finite c = true /\ is_finite c' = true
  /\ (real_of c <= real_of c' * (1 + / 1000000000))%R
  /\ (real_of c' <= real_of c * (1 + / 1000000000))%R.
Proof.
  intros Ha Hb c c'.
  assert (B : forall n : Z, (n < 2 ^ 20)%Z -> (n < 2 ^ 50)%Z /\ (n < 2 ^ 63)%Z).
  { intros n Hn. change (2 ^ 20)%Z with 1048576%Z in Hn.
    change (2 ^ 50)%Z with 1125899906842624%Z.
    change (2 ^ 63)%Z with 9223372036854775808%Z. lia. }
  split; [apply cosine_encode_b64; now apply B|].
  split; [apply cosine_encode_b64; now apply B|].
  now apply cosine_symmetric_b64.
Qed.

(** X4: In binary64 a text that has a token (up to 2^20 of them) has with
    itself a cosine within 1e-9 of 1, whatever the order in which the set
    is iterated; a text without tokens has the cosine 0, the [int] that
    [sum] starts from. *)
Theorem cosine_self (U : UnicodeDB) (P : PyRuntime binary64) (text : str) :
  let c := @_cosine_similarity binary64 P (encode_one text)
                               (encode_one text) in
  ((0 < Z.of_nat (List.length (_tokenize text)) <= 2 ^ 20)%Z ->
   is_finite c = true /\ (Rabs (real_of c - 1) <= / 1000000000)%R)
  /\ (_tokenize text = [] -> c = @of_int binary64 0).
Proof.
  intros c. split.
  - intros Hn. now apply cosine_self_b64.
  - intros E. subst c. unfold _cosine_similarity, common_keys.
    rewrite encode_one_eq, E. simpl.
    now rewrite (Permutation_nil (Permutation_sym (set_iter_perm []))).
Qed.

(** ** Construction *)

Section Construction.
Context {U : UnicodeDB} {F : PyFloat} {P : PyRuntime F}.

Lemma load_reference_named data :
  Forall (fun r => rec_name r <> None) data ->
  exists items,
    _load_reference data = Ok items
    /\ Forall2 loaded data items.
Proof.
  induction 1 as [|r data Hr _ (items & E & L)].
  - exists []. split; [reflexivity|constructor].
  - simpl. unfold subscript_name.
    destruct (rec_name r) as [n|] eqn:En; [|contradiction]. simpl.
    rewrite E. simpl. eexists. split; [reflexivity|].
    constructor; [|exact L]. unfold loaded, get. simpl. rewrite En.
    destruct (rec_serving_size r), (rec_calories r), (rec_macronutrients r),
      (rec_aliases r); repeat split.
Qed.

(** X12: [__init__] raises [FileNotFoundError] when there is no file at the
    path (the default path when none is given), and nothing else is read;
    when the file is there and every record has a name it returns an
    engine that has one item for each record, in the order of the file,
    with the defaults for the keys a record lacks, and the vector of each
    item. *)
Theorem init_outcome (fs : path -> option (list record))
    (reference_path : option path) :
  let p := match reference_path with
           | Some p => p
           | None => default_reference_path
           end in
  (fs p = None -> __init__ fs reference_path = Raise FileNotFoundError)
  /\ (forall data,
        fs p = Some data ->
        Forall (fun r => rec_name r <> None) data ->
        exists self,
          __init__ fs reference_path = Ok self
          /\ Forall2 loaded data (known_items self)
          /\ List.length (known_items self) = List.length data
          /\ _reference_vectors self =
             map (fun it => encode_one (_item_representation it))
                 (known_items self)).
Proof.
  intros p. subst p. unfold __init__, get. split.
  - intros H. now rewrite H.
  - intros data H Hn. rewrite H.
    destruct (load_reference_named Hn) as (items & E & L).
    rewrite E. simpl. eexists. split; [reflexivity|]. unfold known_items.
    simpl. split; [exact L|]. split.
    + symmetry. apply (Forall2_length L).
    + now rewrite encode_map, map_map.
Qed.

End Construction.

(** * Properties of the tracker *)

Lemma fold_left_flat_map A B C (f : A -> C -> A) (g : B -> list C) l :
  forall a,
    fold_left (fun a x => fold_left f (g x) a) l a =
    fold_left f (flat_map g l) a.
Proof.
  induction l as [|x l IH]; intros a; simpl; [reflexivity|].
  now rewrite IH, fold_left_app.
Qed.

Lemma fold_left_ext A B (f g : A -> B -> A) l :
  (forall a x, f a x = g a x) ->
  forall a, fold_left f l a = fold_left g l a.
Proof.
  intros H. induction l as [|x l IH]; intros a; simpl; [reflexivity|].
  now rewrite H, IH.
Qed.

Lemma getitem_setitem V (d : dict V) k v k' :
  getitem (setitem d k v) k' =
  if str_eqb k' k then Some v else getitem d k'.
Proof.
  induction d as [|[k0 v0] rest IH]; simpl.
  - destruct (str_eqb k' k); reflexivity.
  - destruct (str_eqb k k0) eqn:E; simpl.
    + apply str_eqb_eq in E. subst k0.
      destruct (str_eqb k' k); reflexivity.
    + destruct (str_eqb k' k0) eqn:E'; [|exact IH].
      apply str_eqb_eq in E'. subst k0.
      replace (str_eqb k' k) with false; [reflexivity|].
      symmetry. apply str_eqb_neq. apply str_eqb_neq in E. congruence.
Qed.

Lemma setitem_keys_in V (d : dict V) k v x :
  In x (keys (setitem d k v)) <-> x = k \/ In x (keys d).
Proof.
  induction d as [|[k0 v0] rest IH]; simpl.
  - intuition.
  - destruct (str_eqb k k0) eqn:E; simpl.
    + apply str_eqb_eq in E. subst k0. intuition.
    + rewrite IH. intuition.
Qed.

Lemma setitem_nodup V (d : dict V) k v :
  NoDup (keys d) -> NoDup (keys (setitem d k v)).
Proof.
  induction d as [|[k0 v0] rest IH]; simpl; intros H.
  - repeat constructor. simpl. tauto.
  - inversion H as [|? ? Hk Hnd]; subst.
    destruct (str_eqb k k0) eqn:E; simpl; constructor; auto.
    rewrite setitem_keys_in. intros [->|Hin]; [|contradiction].
    rewrite str_eqb_refl in E. discriminate.
Qed.

Section TrackerProperties.
Context {U : UnicodeDB} {F : PyFloat} {P : PyRuntime F}
        {C : Collaborators F}.

Lemma total_macros_fold self :
  total_macros self =
  fold_left (fun totals kv => add_amount totals (fst kv) (snd kv))
            (amounts (_entries self)) [].
Proof.
  unfold total_macros, amounts. rewrite <- fold_left_flat_map.
  apply fold_left_ext. intros totals entry. apply fold_left_ext.
  now intros t [n a].
Qed.

Lemma add_amounts_keys items : forall totals,
  NoDup (keys totals) ->
  let final := fold_left (fun totals kv =>
                            add_amount totals (fst kv) (snd kv))
                         items totals in
  NoDup (keys final)
  /\ forall n, In n (keys final) <->
               In n (map fst items) \/ In n (keys totals).
Proof.
  induction items as [|[n a] items IH]; intros totals Hnd; simpl.
  - split; [exact Hnd|]. tauto.
  - destruct (IH (add_amount totals n a)) as [N K];
      [now apply setitem_nodup|].
    split; [exact N|]. intros n'. rewrite K. unfold add_amount.
    rewrite setitem_keys_in. intuition.
Qed.

(** X14: The totals by nutrient have one key for each nutrient that an entry
    of the log has, no key twice, and no other key. *)
Theorem total_macros_keys (self : FoodTracker) :
  NoDup (keys (total_macros self))
  /\ forall nutrient,
       In nutrient (keys (total_macros self)) <->
       exists entry,
         In entry (entries self)
         /\ In nutrient (keys (entry_macronutrients entry)).
Proof.
  rewrite total_macros_fold.
  destruct (@add_amounts_keys (amounts (_entries self)) [])
    as [N K]; [constructor|].
  split; [exact N|]. intros nutrient. rewrite K. simpl.
  unfold amounts, entries. split.
  - intros [H|[]]. apply in_map_iff in H as ([n a] & <- & H).
    apply in_flat_map in H as (entry & He & Ha). exists entry.
    split; [exact He|]. unfold keys. apply in_map_iff. now exists (n, a).
  - intros (entry & He & Hn). left. unfold keys in Hn.
    apply in_map_iff in Hn as (kv & <- & Hkv). apply in_map.
    apply in_flat_map. now exists entry.
Qed.

End TrackerProperties.

Lemma or_empty_eq A (x : option (list A)) :
  or_empty x = match x with Some l => l | None => [] end.
Proof. destruct x as [[|a l]|]; reflexivity. Qed.

Lemma insert_day_perm day days : Permutation (insert_day day days) (day :: days).
Proof.
  induction days as [|d rest IH]; simpl; [reflexivity|].
  destruct (day <? d)%Z; [reflexivity|]. rewrite IH. apply perm_swap.
Qed.

Lemma sorted_perm days : Permutation (sorted days) days.
Proof.
  induction days as [|d rest IH]; simpl; [reflexivity|].
  rewrite insert_day_perm. now constructor.
Qed.

Lemma insert_day_ascending day days :
  ~ In day days -> StronglySorted Z.lt days ->
  StronglySorted Z.lt (insert_day day days).
Proof.
  intros Hin Hs. induction Hs as [|d rest Hs IH Hd]; simpl.
  - repeat constructor.
  - simpl in Hin. destruct (Z.ltb_spec day d) as [Hlt|Hge].
    + constructor; [now constructor|]. constructor; [exact Hlt|].
      apply (Forall_impl _ (P := Z.lt d)); [|exact Hd]. intros; lia.
    + constructor; [apply IH; tauto|].
      apply (Forall_perm (insert_day_perm day rest)).
      constructor; [|exact Hd].
      assert (day <> d) by (intros ->; apply Hin; now left). lia.
Qed.

Lemma sorted_ascending days : NoDup days -> StronglySorted Z.lt (sorted days).
Proof.
  induction 1 as [|d rest Hd _ IH]; simpl; [constructor|].
  apply insert_day_ascending; [|exact IH].
  intros H. apply Hd. now apply (Permutation_in _ (sorted_perm rest)).
Qed.

Lemma day_item_in `{C : Collaborators} (grouped : list (Z * DailyLog)) day :
  In day (map fst grouped) -> exists log, day_item grouped day = Some log.
Proof.
  induction grouped as [|[d log] rest IH]; simpl; [contradiction|].
  intros H. destruct (Z.eqb_spec day d) as [->|Hne]; [now eexists|].
  apply IH. destruct H as [<-|H]; [contradiction|exact H].
Qed.

(** The subscript of [daily_summary] finds every sorted key. *)
Lemma sorted_day_item `{C : Collaborators} (grouped : list (Z * DailyLog)) day :
  In day (sorted (map fst grouped)) ->
  exists log, day_item grouped day = Some log.
Proof.
  intros H. apply day_item_in. now apply (Permutation_in _ (sorted_perm _)).
Qed.

Section TrackerReports.
Context {U : UnicodeDB} {F : PyFloat} {P : PyRuntime F}
        {C : Collaborators F}.

(** X20: [daily_summary] has one log for each day of the grouping, the log
    that the grouping has for the day, in strictly ascending order of the
    days. *)
Theorem daily_summary_ascending (self : FoodTracker) :
  let grouped := group_entries_by_day (entries self) in
  exists days,
    StronglySorted Z.lt days
    /\ Permutation days (map fst grouped)
    /\ Forall2 (fun day log => day_item grouped day = Some log)
               days (daily_summary self).
Proof.
  intros grouped. exists (sorted (map fst grouped)).
  split; [apply sorted_ascending, group_days_distinct|].
  split; [apply sorted_perm|].
  unfold daily_summary, entries in *. fold grouped.
  assert (H : forall day, In day (sorted (map fst grouped)) ->
                          exists log, day_item grouped day = Some log)
    by (intros day; apply sorted_day_item).
  induction (sorted (map fst grouped)) as [|d rest IH]; simpl;
    [constructor|].
  constructor.
  - destruct (H d (or_introl eq_refl)) as [log E]. now rewrite E.
  - apply IH. intros day Hd. apply H. now right.
Qed.

(** X19: [register_custom_food] builds the item with empty macronutrients and
    aliases when none are given, appends it to the catalog and returns it;
    the log and the repository are as before, and an untruncated scan is
    the former one with the result of the new item put in. *)
Theorem register_custom_food_effect (self : FoodTracker) (label size : str)
    (energy : pyfloat) (macros : option (dict number))
    (names : option (list str)) :
  reachable (recogniser self) ->
  let after := fst (register_custom_food self label size energy macros
                                         names) in
  let registered := snd (register_custom_food self label size energy macros
                                              names) in
  registered = {| name := label;
                  serving_size := size;
                  calories := energy;
                  macronutrients :=
                    match macros with Some m => m | None => [] end;
                  aliases :=
                    match names with Some a => a | None => [] end |}
  /\ known_items (recogniser after) =
     known_items (recogniser self) ++ [registered]
  /\ entries after = entries self
  /\ repository after = repository self
  /\ reachable (recogniser after)
  /\ (forall description top_k,
        forallb isspace description = false ->
        (Z.of_nat (List.length (known_items (recogniser self))) < top_k)%Z ->
        Permutation (scan_description after description top_k)
                    (scan_description self description top_k
                     ++ [expected_result description registered])).
Proof.
  intros Hr after registered. subst after registered.
  unfold register_custom_food. simpl. rewrite !or_empty_eq.
  repeat split.
  - now constructor.
  - intros description top_k Hd Hk. unfold scan_description, known_items in *.
    simpl. rewrite !recognise_not_blank by assumption.
    rewrite !slice_to_nonneg by lia.
    pose proof (reachable_aligned Hr) as A.
    rewrite !firstn_all2.
    + now rewrite !sort_desc_perm, scored_add.
    + rewrite sort_desc_length, (scored_aligned _ A), length_map. lia.
    + rewrite sort_desc_length, scored_add, length_app by assumption.
      rewrite (scored_aligned _ A), length_map. simpl. lia.
Qed.

End TrackerReports.

Section TrackerTotals.
Context {U : UnicodeDB} {F : PyFloat} {P : PyRuntime F}
        {C : Collaborators F}.

Lemma item_of_add_amount (totals : dict pyfloat) n a n' :
  item_of (add_amount totals n a) n' =
  if str_eqb n' n then fadd (item_of totals n') (to_float a)
  else item_of totals n'.
Proof.
  unfold item_of, add_amount. rewrite getitem_setitem.
  destruct (str_eqb n' n) eqn:E; [|reflexivity].
  apply str_eqb_eq in E. now subst n'.
Qed.

Lemma item_of_add_amounts items n' : forall totals : dict pyfloat,
  item_of
    (fold_left (fun totals kv => add_amount totals (fst kv) (snd kv))
               items totals) n' =
  fold_left fadd
    (map (fun kv => to_float (snd kv))
         (filter (fun kv => str_eqb n' (fst kv)) items))
    (item_of totals n').
Proof.
  induction items as [|[n a] items IH]; intros totals; simpl; [reflexivity|].
  rewrite IH, item_of_add_amount.
  destruct (str_eqb n' n); reflexivity.
Qed.

(** X15: The total of a nutrient is the float sum, from 0.0 and in the order
    of the log, of the amounts that the entries have for it, in any
    arithmetic; a nutrient that no entry has is not a key of the totals.
    Logging a food adds the amounts of the new entry, after those of the
    entries before it. *)
Theorem total_macros_sums (self : FoodTracker) (nutrient : str) :
  let amounts_for entries :=
    map (fun kv => to_float (snd kv))
        (filter (fun kv => str_eqb nutrient (fst kv)) (amounts entries)) in
  getitem (total_macros self) nutrient =
    match amounts_for (entries self) with
    | [] => None
    | _ => Some (fold_left fadd (amounts_for (entries self)) (of_int 0))
    end
  /\ forall food_item amount time utcnow,
       let after := fst (log_food self food_item amount time utcnow) in
       exists entry,
         entries after = entries self ++ [entry]
         /\ food entry = food_item
         /\ item_of (total_macros after) nutrient =
            fold_left fadd (amounts_for [entry])
                      (item_of (total_macros self) nutrient).
Proof.
  intros amounts_for.
  assert (T : forall t : FoodTracker,
            item_of (total_macros t) nutrient =
            fold_left fadd (amounts_for (entries t)) (of_int 0)).
  { intros t. rewrite total_macros_fold, item_of_add_amounts. reflexivity. }
  split.
  - destruct (amounts_for (entries self)) as [|x l] eqn:E.
    + apply getitem_none. rewrite total_macros_fold.
      destruct (@add_amounts_keys F (amounts (_entries self)) [])
        as [_ K]; [constructor|].
      rewrite K. simpl. intros [H|[]].
      apply in_map_iff in H as ([n a] & Hn & H). simpl in Hn. subst n.
      unfold amounts_for, entries in E.
      assert (Hin : In (nutrient, a)
                (filter (fun kv => str_eqb nutrient (fst kv))
                        (amounts (_entries self))))
        by (apply filter_In; split; [exact H|apply str_eqb_refl]).
      destruct (filter _ _); [contradiction|discriminate].
    + rewrite <- E, <- T. unfold item_of.
      destruct (getitem (total_macros self) nutrient) as [v|] eqn:G;
        [reflexivity|].
      exfalso.
      assert (Hk : In nutrient (keys (total_macros self))).
      { rewrite total_macros_fold.
        destruct (@add_amounts_keys F (amounts (_entries self)) [])
          as [_ K]; [constructor|].
        rewrite K. left. unfold amounts_for, entries in E.
        assert (Hx : exists kv,
                  In kv (filter (fun kv => str_eqb nutrient (fst kv))
                                (amounts (_entries self)))).
        { destruct (filter _ _) as [|kv rest]; [discriminate|].
          exists kv. now left. }
        destruct Hx as ([n a] & Hx). apply filter_In in Hx as [Hx Hn].
        simpl in Hn. apply str_eqb_eq in Hn. subst n.
        change nutrient with (fst (nutrient, a)). now apply in_map. }
      apply getitem_in in Hk as [v Hv]. congruence.
  - intros food_item amount time utcnow after. subst after.
    eexists. split; [|split].
    + unfold log_food, entries.
      destruct (save_entries _ _) as [repo [[]|e]]; reflexivity.
    + reflexivity.
    + rewrite !T.
      assert (E : forall t t' : FoodTracker, forall entry,
                entries t' = entries t ++ [entry] ->
                amounts_for (entries t') =
                amounts_for (entries t) ++ amounts_for [entry]).
      { intros t t' entry ->. unfold amounts_for, amounts.
        now rewrite flat_map_app, filter_app, map_app. }
      erewrite E; [now rewrite fold_left_app|].
      unfold log_food, entries.
      destruct (save_entries _ _) as [repo [[]|e]]; reflexivity.
Qed.

End TrackerTotals.

Section TrackerLog.
Context {U : UnicodeDB} {F : PyFloat} {P : PyRuntime F}
        {C : Collaborators F}.

Lemma log_call_entries (self : FoodTracker) (c : call) :
  entries (log_call self c) = entries self ++ [entry_of c]
  /\ recogniser (log_call self c) = recogniser self
  /\ fst (save_entries (repository self) (entries self ++ [entry_of c]))
     = repository (log_call self c).
Proof.
  destruct c as [[[food_item amount] time] utcnow].
  unfold log_call, log_food, entries, entry_of.
  destruct time;
    match goal with
    | |- context [save_entries ?r ?l] =>
        destruct (save_entries r l) as [repo [[]|e]]
    end; repeat split.
Qed.

(** X17: The log is only appended to: after any sequence of [log_food]
    calls the entries are what they were, followed by one entry per call
    in the order of the calls (with the time of the call where no
    timestamp was given), whether or not saving raised; the recogniser is
    the same; and the repository is the one that [save_entries] left when
    the last call gave it the whole list. *)
Theorem log_food_sequence (self : FoodTracker) (calls : list call) :
  entries (log_all self calls) = entries self ++ map entry_of calls
  /\ recogniser (log_all self calls) = recogniser self
  /\ forall c,
       repository (log_all self (calls ++ [c])) =
       fst (save_entries (repository (log_all self calls))
                         (entries self ++ map entry_of (calls ++ [c]))).
Proof.
  assert (A : forall calls self,
            entries (log_all self calls) = entries self ++ map entry_of calls
            /\ recogniser (log_all self calls) = recogniser self).
  { clear. induction calls as [|c calls IH]; intros self; simpl.
    - now rewrite app_nil_r.
    - destruct (IH (log_call self c)) as [E R].
      destruct (log_call_entries self c) as (E1 & R1 & _).
      unfold log_all in *. simpl. rewrite E, R, E1, R1.
      now rewrite <- app_assoc. }
  destruct (A calls self) as [E R]. split; [exact E|]. split; [exact R|].
  intros c. unfold log_all. rewrite fold_left_app. simpl.
  fold (log_all self calls).
  destruct (log_call_entries (log_all self calls) c) as (_ & _ & S).
  rewrite <- S, E, map_app, app_assoc. reflexivity.
Qed.

End TrackerLog.

(** * The further properties on the small installation *)

Lemma demo_tokens_apple : _tokenize (py "apple") = [py "apple"].
Proof. vm_compute. reflexivity. Qed.

Lemma demo_tokens_pear : _tokenize (py "pear") = [py "pear"].
Proof. vm_compute. reflexivity. Qed.

Lemma cosine_disjoint_witness :
  (forall token, In token (_tokenize (py "apple")) ->
                 ~ In token (_tokenize (py "pear")))
  /\ _cosine_similarity (encode_one (py "apple")) (encode_one (py "pear"))
     = of_int 0.
Proof.
  assert (H : forall token, In token (_tokenize (py "apple")) ->
                            ~ In token (_tokenize (py "pear"))).
  { rewrite demo_tokens_apple, demo_tokens_pear.
    intros token [<-|[]] [H|[]]. vm_compute in H. discriminate. }
  split; [exact H|].
  exact (@cosine_disjoint _ _ demo_runtime (py "apple") (py "pear") H).
Defined.

Lemma recognise_negative_top_k_witness :
  (-1 < 0)%Z
  /\ List.length (recognise demo_engine (py "apple") (-1)) =
     Z.to_nat (Z.max 0
       (Z.of_nat (List.length (_reference_items demo_engine)) + -1)).
Proof.
  split; [lia|].
  refine (proj2 (@recognise_negative_top_k _ _ _ demo_engine (py "apple")
                   (-1)%Z demo_reachable demo_not_blank _)).
  lia.
Defined.

Lemma recognise_prefix_smaller_witness :
  (0 <= 1 <= 3)%Z
  /\ recognise demo_engine (py "apple") 1 =
     firstn (Z.to_nat 1) (recognise demo_engine (py "apple") 3).
Proof.
  split; [lia|].
  refine (@recognise_prefix_smaller _ _ _ demo_engine (py "apple") 1%Z 3%Z _).
  lia.
Defined.

Lemma recognise_from_catalog_witness :
  reachable demo_engine
  /\ exists rest,
       Permutation (map item (recognise demo_engine (py "apple") 1) ++ rest)
                   (_reference_items demo_engine).
Proof.
  split; [exact demo_reachable|].
  exact (@recognise_from_catalog _ _ _ demo_engine (py "apple") 1%Z
           demo_reachable).
Defined.

Lemma add_custom_item_keeps_scores_witness :
  reachable demo_engine
  /\ scored (add_custom_item demo_engine oat_milk) (py "apple") =
     scored demo_engine (py "apple")
     ++ [expected_result (py "apple") oat_milk].
Proof.
  split; [exact demo_reachable|].
  exact (proj1 (@add_custom_item_keeps_scores _ _ _ demo_engine oat_milk
                  (py "apple") 3%Z demo_reachable)).
Defined.

Lemma encode_bag_of_words_witness :
  Permutation (_tokenize (py "red apple")) (_tokenize (py "Apple, red"))
  /\ forall token,
       getitem (encode_one (py "red apple")) token =
       getitem (encode_one (py "Apple, red")) token.
Proof.
  assert (H : Permutation (_tokenize (py "red apple"))
                          (_tokenize (py "Apple, red"))).
  { replace (_tokenize (py "red apple")) with [py "red"; py "apple"]
      by (vm_compute; reflexivity).
    replace (_tokenize (py "Apple, red")) with [py "apple"; py "red"]
      by (vm_compute; reflexivity).
    apply perm_swap. }
  split; [exact H|].
  exact (proj2 (@encode_bag_of_words Latin1 binary64 _ _ H)).
Defined.

Lemma tokenize_join_witness :
  forallb is_ascii (py "Banana, Ripe!") = true
  /\ _tokenize (join (py " ") (_tokenize (py "Banana, Ripe!"))) =
     _tokenize (py "Banana, Ripe!").
Proof.
  assert (H : forallb is_ascii (py "Banana, Ripe!") = true)
    by (vm_compute; reflexivity).
  split; [exact H|]. exact (@tokenize_join Latin1 _ H).
Defined.

Lemma register_custom_food_effect_witness :
  reachable (recogniser demo_tracker)
  /\ known_items
       (recogniser (fst (register_custom_food demo_tracker (py "Oat Milk")
                           (py "1 cup") (of_int 120) None None))) =
     known_items (recogniser demo_tracker)
     ++ [snd (register_custom_food demo_tracker (py "Oat Milk")
                (py "1 cup") (of_int 120) None None)].
Proof.
  split; [exact demo_reachable|].
  exact (proj1 (proj2 (@register_custom_food_effect _ _ _ _ demo_tracker
                         (py "Oat Milk") (py "1 cup") (of_int 120) None None
                         demo_reachable))).
Defined.

Lemma demo_three_tokens :
  Z.of_nat (List.length (_tokenize (py "a b c"))) = 3%Z.
Proof. vm_compute. reflexivity. Qed.

Lemma encode_normalised_witness :
  (0 < Z.of_nat (List.length (_tokenize (py "a b c"))) <= 2 ^ 20)%Z
  /\ (Rabs (real_of (fold_left (@fadd binary64)
                       (map (fun w => @fmul binary64 w w)
                            (values (@encode_one Latin1 binary64
                                       (py "a b c"))))
                       (@of_int binary64 0)) - 1) <= / 1000000000)%R.
Proof.
  assert (H : (0 < Z.of_nat (List.length (_tokenize (py "a b c")))
               <= 2 ^ 20)%Z)
    by (rewrite demo_three_tokens; change (2 ^ 20)%Z with 1048576%Z; lia).
  split; [exact H|].
  exact (proj2 (proj2 (proj2 (proj2 (proj2 (proj2 (proj2
    (encode_normalised Latin1 binary64_laws (py "a b c")))))))  H)).
Defined.

Lemma demo_sizes :
  (Z.of_nat (List.length (_tokenize (py "red apple"))) < 2 ^ 20)%Z
  /\ (Z.of_nat (List.length (_tokenize (py "apple pie"))) < 2 ^ 20)%Z.
Proof.
  replace (_tokenize (py "red apple")) with [py "red"; py "apple"]
    by (vm_compute; reflexivity).
  replace (_tokenize (py "apple pie")) with [py "apple"; py "pie"]
    by (vm_compute; reflexivity).
  change (2 ^ 20)%Z with 1048576%Z. simpl. lia.
Qed.

Lemma cosine_symmetric_witness :
  (Z.of_nat (List.length (_tokenize (py "red apple"))) < 2 ^ 20)%Z
  /\ (Z.of_nat (List.length (_tokenize (py "apple pie"))) < 2 ^ 20)%Z
  /\ (real_of (@_cosine_similarity binary64 demo_runtime
                 (encode_one (py "red apple")) (encode_one (py "apple pie")))
      <= real_of (@_cosine_similarity binary64 reversed_runtime
                    (encode_one (py "apple pie"))
                    (encode_one (py "red apple")))
         * (1 + / 1000000000))%R.
Proof.
  split; [exact (proj1 demo_sizes)|]. split; [exact (proj2 demo_sizes)|].
  exact (proj1 (proj2 (proj2
    (@cosine_symmetric Latin1 demo_runtime reversed_runtime
       (py "red apple") (py "apple pie")
       (proj1 demo_sizes) (proj2 demo_sizes))))).
Defined.

Lemma demo_item_sizes :
  Forall (fun it =>
            (Z.of_nat (List.length (_tokenize (_item_representation it)))
             < 2 ^ 63)%Z) (_reference_items demo_engine).
Proof.
  assert (H : forallb (fun it =>
                (Z.of_nat (List.length (_tokenize (_item_representation it)))
                 <? 2 ^ 63)%Z) (_reference_items demo_engine) = true)
    by (vm_compute; reflexivity).
  rewrite forallb_forall in H. apply Forall_forall. intros it Hit.
  apply Z.ltb_lt. now apply H.
Qed.

Lemma cosine_bounds_witness :
  reachable demo_engine
  /\ forall r, In r (recognise demo_engine (py "apple") 3) ->
       is_finite (confidence r) = true
       /\ (real_of (confidence r) <= 1 + / 1000000000)%R.
Proof.
  split; [exact demo_reachable|]. intros r Hr.
  assert (Hn : (Z.of_nat (List.length (_tokenize (py "apple"))) < 2 ^ 50)%Z)
    by (rewrite demo_tokens_apple; change (2 ^ 50)%Z with 1125899906842624%Z;
        simpl; lia).
  assert (Hs : (Z.of_nat (List.length (_tokenize (py "apple"))) <= 2 ^ 20)%Z)
    by (rewrite demo_tokens_apple; change (2 ^ 20)%Z with 1048576%Z;
        simpl; lia).
  destruct (proj2 (cosine_bounds Latin1 demo_runtime) demo_engine
              (py "apple") 3%Z r demo_reachable Hn demo_item_sizes Hr)
    as (H1 & _ & _ & H2).
  split; [exact H1|exact (H2 Hs)].
Defined.

(** The tracker at work: two servings of peanut butter (8 of protein
    each, as an [int], summed as floats) logged on one day and an apple on
    the next. *)
Example demo_log :
  let peanut := nth 1 (_reference_items demo_engine) oat_milk in
  let apple := nth 0 (_reference_items demo_engine) oat_milk in
  let t1 := fst (log_food demo_tracker peanut f1 (Some 100%Z) 0%Z) in
  let t2 := fst (log_food t1 peanut f1 (Some 200%Z) 0%Z) in
  let t3 := fst (log_food t2 apple f1 None 90000%Z) in
  map (fun kv => (fst kv, PrimFloat.eqb (snd kv) 16%float))
      (total_macros t3) = [(py "protein", true)]
  /\ map fst (daily_summary t3) = [0%Z; 1%Z]
  /\ List.length (repository t3) = 3%nat.
Proof. repeat split; vm_compute; reflexivity. Qed.
